(** * MacroMaker: the search and replay engine of the Geometry Dash macro mod

    A shallow embedding of the three solver drafts of the repository:

    - [MainCpp]      src/src/main.cpp: the engine-free background DFS;
    - [Backtracking] src/unnamed/part_000: the DFS that steps the live
                     [PlayLayer] and undoes steps with the state snapshot;
    - [Randomized]   src/unnamed/part_002: the randomized trial search, its
                     click-frame encoder and the export file name.

    The game engine (Geode's [PlayLayer] and [PlayerObject]), the standard
    random distributions and [Clock::now()] are not part of the repository:
    they are parameters of the development.  Concrete toy engines, clocks and
    random sources instantiate them where a statement is evaluated. *)

From Stdlib Require Import ZArith List String Ascii Bool Lia.
From Stdlib Require Import Decimal DecimalString DecimalZ.
From Stdlib Require Import Sorted.
Import ListNotations.

Local Open Scope Z_scope.

(** ** Shared data model *)

(** [struct FrameInput { bool click = false; };] *)
Record FrameInput : Type := mkFrame { click : bool }.

Definition noClick : FrameInput := mkFrame false.
Definition doClick : FrameInput := mkFrame true.

(** What a solver does, in the order it does it.  The trace is a ghost log:
    no decision of a solver reads it.  [EvPushBack b n] is a [push_back] of
    [{b}] after which the vector holds [n] entries. *)
Inductive Event : Type :=
| EvClock (t : Z)
| EvUpdate
| EvPushButton
| EvTakeSnapshot
| EvRestore
| EvStartRecording
| EvStopRecording
| EvPushBack (b : bool) (n : Z)
| EvPopBack
| EvStatus (s : string).

(** [Clock::now()] of [std::chrono::steady_clock]: the k-th call of a run
    reads [clk k], in the clock's ticks (nanoseconds). *)
Definition Clock : Type := nat -> Z.

Definition clock_monotone (clk : Clock) : Prop :=
  forall i j : nat, (i <= j)%nat -> clk i <= clk j.

Definition ns_per_ms : Z := 1000000.

(** [duration_cast<milliseconds>(now - start).count()]: truncation. *)
Definition elapsed_ms (now start : Z) : Z := Z.quot (now - start) ns_per_ms.

(** [fmt::format("{}", n)] of an [int]. *)
Definition fmt_int (n : Z) : string := NilZero.string_of_int (Z.to_int n).

(** [(int)t]: conversion of a wider integer to a 32-bit [int]. *)
Definition to_int32 (t : Z) : Z := (t + 2147483648) mod 4294967296 - 2147483648.

(** [v.push_back(x)] and [v.pop_back()] on a [std::vector]. *)
Definition push_back {A : Type} (v : list A) (x : A) : list A := v ++ [x].
Definition pop_back {A : Type} (v : list A) : list A := removelast v.

(** ** Reading a trace *)

(** Every [push_back] of the trace left at most [bound] entries in the
    vector.  The vector only grows at a [push_back], so this bounds its
    length at every point of the run. *)
Definition pushBounded (bound : Z) (e : Event) : Prop :=
  match e with
  | EvPushBack _ n => n <= bound
  | _ => True
  end.

Fixpoint countUpdates (tr : list Event) : nat :=
  match tr with
  | [] => O
  | EvUpdate :: tr' => S (countUpdates tr')
  | _ :: tr' => countUpdates tr'
  end.

(** A clock reading at which more than [timeout] milliseconds have passed
    since [start]. *)
Definition lateReading (start timeout : Z) (e : Event) : bool :=
  match e with
  | EvClock t => elapsed_ms t start >? timeout
  | _ => false
  end.

Definition isUpdate (e : Event) : bool :=
  match e with
  | EvUpdate => true
  | _ => false
  end.

(** For a trace with its newest event first: [None] while no clock reading
    of the trace is late, and otherwise the number of engine updates made
    after the earliest late reading. *)
Fixpoint updatesPastDeadline (start timeout : Z) (tr : list Event)
  : option nat :=
  match tr with
  | [] => None
  | e :: older =>
    match updatesPastDeadline start timeout older with
    | Some n => Some (if isUpdate e then S n else n)
    | None => if lateReading start timeout e then Some O else None
    end
  end.

(** The lexicographic order on decision sequences with "no click" below
    "click"; a proper prefix is below its extensions. *)
Fixpoint lexLt (a b : list FrameInput) : bool :=
  match a, b with
  | [], [] => false
  | [], _ :: _ => true
  | _ :: _, [] => false
  | x :: a', y :: b' =>
    match click x, click y with
    | false, true => true
    | true, false => false
    | _, _ => lexLt a' b'
    end
  end.

(** ** The engine interface

    The operations of Geode's [PlayLayer] (and of its [m_player1]) that the
    solvers call, over an engine state [W].  None of them is defined in the
    repository. *)
Class PlayLayer (W : Type) : Type := {
  update : W -> W;                     (* pl->update(SIM_DT) *)
  getCurrentPercentInt : W -> Z;
  m_player1 : W -> bool;               (* pl->m_player1 != nullptr *)
  pushButton : W -> W;                 (* m_player1->pushButton(Jump) *)
  playerIsFalling : W -> bool;
  playerDestroyed : W -> bool;
  takeStateSnapshot : W -> W;
  restoreStateSnapshot : W -> W;
  startRecording : W -> W;
  stopRecording : W -> W;
  getRecordedReplay : W -> string;
  isGameplayActive : W -> bool;
  startGame : W -> W;
  resetLevelFromStart : W -> W
}.

(** One simulated frame as every solver plays it: the click, when there is
    one and a player object exists, then one engine update. *)
Definition applyClick {W : Type} `{PlayLayer W} (b : bool) (w : W) : W :=
  if b then (if m_player1 w then pushButton w else w) else w.

Definition stepFrame {W : Type} `{PlayLayer W} (w : W) (x : FrameInput) : W :=
  update (applyClick (click x) w).

(** Replaying a decision sequence frame by frame from [w]. *)
Definition replay {W : Type} `{PlayLayer W} (w : W) (s : list FrameInput) : W :=
  fold_left stepFrame s w.

(** ** src/src/main.cpp: the engine-free background solver *)
Module MainCpp.

Definition MAX_SEARCH_FRAMES : Z := 60 * 60 * 2.
Definition SOLVER_TIMEOUT_MS : Z := 40 * 1000.
Definition SUCCESS_X_THRESHOLD : Z := 5000.

(** The copy of the simulation state handed to the solver thread; [F]
    stands for C++ [float]. *)
Record SolverInput (F : Type) : Type :=
  mkInput { playerX : F; playerY : F }.

(** The variables the [dfs] lambda captures by reference, the number of
    clock readings made so far, and the trace. *)
Record Solver : Type := mkSolver {
  seq : list FrameInput;
  foundSequence : list FrameInput;
  reads : nat;
  trace : list Event
}.

Section WithClock.
Variable clk : Clock.

Definition clock_now (s : Solver) : Z * Solver :=
  let t := clk (reads s) in
  (t, mkSolver (seq s) (foundSequence s) (S (reads s))
               (EvClock t :: trace s)).

Definition seq_push (b : bool) (s : Solver) : Solver :=
  let v := push_back (seq s) (mkFrame b) in
  mkSolver v (foundSequence s) (reads s)
           (EvPushBack b (Z.of_nat (List.length v)) :: trace s).

Definition seq_pop (s : Solver) : Solver :=
  mkSolver (pop_back (seq s)) (foundSequence s) (reads s)
           (EvPopBack :: trace s).

(** [foundSequence = seq;] (line 122): the field keeps the value
    assigned. *)
Definition record_found (s : Solver) : Solver :=
  mkSolver (seq s) (seq s) (reads s) (trace s).

(** The recursive lambda [dfs] (lines 111-137).  [None] is the model
    running out of fuel; [pure_dfs_total] shows it does not happen with
    [MAX_SEARCH_FRAMES + 1] units. *)
Fixpoint dfs (fuel : nat) (start : Z) (frame : Z) (s : Solver)
  : option (bool * Solver) :=
  match fuel with
  | O => None
  | S fuel' =>
    let (now, s) := clock_now s in
    let elapsed := elapsed_ms now start in
    if elapsed >? SOLVER_TIMEOUT_MS then Some (false, s)
    else if frame >=? MAX_SEARCH_FRAMES then Some (false, s)
    else if (frame >? 0) && (frame * 10 >? SUCCESS_X_THRESHOLD)
    then Some (true, record_found s)
    else
      (* Branch 1: no click this frame *)
      let s := seq_push false s in
      match dfs fuel' start (frame + 1) s with
      | None => None
      | Some (true, s) => Some (true, s)
      | Some (false, s) =>
        let s := seq_pop s in
        (* Branch 2: click this frame *)
        let s := seq_push true s in
        match dfs fuel' start (frame + 1) s with
        | None => None
        | Some (true, s) => Some (true, s)
        | Some (false, s) => Some (false, seq_pop s)
        end
      end
  end.

Definition dfs_fuel : nat := S (Z.to_nat MAX_SEARCH_FRAMES).

(** The body of the solver thread up to the hand-over to the main
    thread: [start = Clock::now(); ok = dfs(0); solverFound = ok],
    keeping the final solver state. *)
Definition solverThreadState : option (bool * Solver) :=
  let s0 := mkSolver [] [] 0 [] in
  let (start, s1) := clock_now s0 in
  dfs dfs_fuel start 0 s1.

(** How far the thread's own search gets.  [solverFound] and
    [foundSequence] are locals of [onRequestMacro] (lines 100-101) that the
    thread's lambda and the callback it queues capture by reference (lines
    102 and 147), and [onRequestMacro] returns as soon as it has detached
    the thread (lines 152-153).  The thread therefore hands over no value:
    a search that passes the test of line 121 arrives at the assignment
    [foundSequence = seq] of line 122 with some [seq], and what that
    assignment and the reads of line 148 find behind the two references is
    not part of this model. *)
Inductive SearchEnd : Type :=
| ReachedAssignment (v : list FrameInput)   (* at line 122, with [seq = v] *)
| ReturnedFalse.                            (* [dfs(0)] is false *)

(** The solver thread on its captured copy [solverInput], which it never
    reads.  [dfs] returns true exactly when a call has taken the branch of
    lines 121-123, and [seq] is not touched after it. *)
Definition solverThread {F : Type} (solverInput : SolverInput F)
  : option SearchEnd :=
  match solverThreadState with
  | None => None
  | Some (true, s) => Some (ReachedAssignment (seq s))
  | Some (false, _) => Some ReturnedFalse
  end.

End WithClock.

End MainCpp.

(** ** src/unnamed/part_000: backtracking DFS over the live engine *)
Module Backtracking.

Definition MAX_SEARCH_FRAMES : Z := 60 * 60 * 2.
Definition TIMEOUT_MS : Z := 40 * 1000.

Section WithEngine.
Context {W : Type} {engine : PlayLayer W}.
Variable clk : Clock.

(** The engine, the locals of [runSolverAndRecord] that [dfs] captures,
    [m_ui.m_lastReplayData], the clock readings made and the trace. *)
Record Solver : Type := mkSolver {
  pl : W;
  current : list FrameInput;
  bestSequence : list FrameInput;
  m_lastReplayData : string;
  reads : nat;
  trace : list Event
}.

Definition with_pl (w : W) (e : Event) (s : Solver) : Solver :=
  mkSolver w (current s) (bestSequence s) (m_lastReplayData s) (reads s)
           (e :: trace s).

Definition clock_now (s : Solver) : Z * Solver :=
  let t := clk (reads s) in
  (t, mkSolver (pl s) (current s) (bestSequence s) (m_lastReplayData s)
               (S (reads s)) (EvClock t :: trace s)).

Definition do_update (s : Solver) : Solver :=
  with_pl (update (pl s)) EvUpdate s.

(** [if (pl->m_player1) pl->m_player1->pushButton(PlayerButton::Jump);] *)
Definition do_click (s : Solver) : Solver :=
  if m_player1 (pl s) then with_pl (pushButton (pl s)) EvPushButton s
  else s.

Definition do_restore (s : Solver) : Solver :=
  with_pl (restoreStateSnapshot (pl s)) EvRestore s.

Definition cur_push (b : bool) (s : Solver) : Solver :=
  let v := push_back (current s) (mkFrame b) in
  mkSolver (pl s) v (bestSequence s) (m_lastReplayData s) (reads s)
           (EvPushBack b (Z.of_nat (List.length v)) :: trace s).

Definition cur_pop (s : Solver) : Solver :=
  mkSolver (pl s) (pop_back (current s)) (bestSequence s)
           (m_lastReplayData s) (reads s) (EvPopBack :: trace s).

(** [bestSequence = current;] *)
Definition record_best (s : Solver) : Solver :=
  mkSolver (pl s) (current s) (current s) (m_lastReplayData s) (reads s)
           (trace s).

Definition updateStatus (msg : string) (s : Solver) : Solver :=
  mkSolver (pl s) (current s) (bestSequence s) (m_lastReplayData s)
           (reads s) (EvStatus msg :: trace s).

(** The early prune of line 176. *)
Definition playerDead (w : W) : bool :=
  m_player1 w && playerIsFalling w && playerDestroyed w.

(** The recursive lambda [dfs] (lines 167-194). *)
Fixpoint dfs (fuel : nat) (startTime : Z) (frame : Z) (s : Solver)
  : option (bool * Solver) :=
  match fuel with
  | O => None
  | S fuel' =>
    let (now, s) := clock_now s in
    if elapsed_ms now startTime >? TIMEOUT_MS then Some (false, s)
    else if frame >=? MAX_SEARCH_FRAMES then Some (false, s)
    else if getCurrentPercentInt (pl s) >=? 100
    then Some (true, record_best s)
    else if playerDead (pl s) then Some (false, s)
    else
      (* no click *)
      let s := do_update s in
      let s := cur_push false s in
      match dfs fuel' startTime (frame + 1) s with
      | None => None
      | Some (true, s) => Some (true, s)
      | Some (false, s) =>
        let s := do_restore s in
        let s := cur_pop s in
        (* click *)
        let s := do_click s in
        let s := do_update s in
        let s := cur_push true s in
        match dfs fuel' startTime (frame + 1) s with
        | None => None
        | Some (true, s) => Some (true, s)
        | Some (false, s) => Some (false, cur_pop (do_restore s))
        end
      end
  end.

Definition dfs_fuel : nat := S (Z.to_nat MAX_SEARCH_FRAMES).

(** Lines 152-158: the snapshot and the recording are started. *)
Definition prepare (w : W) : Solver :=
  let s := mkSolver w [] [] EmptyString 0 [] in
  let s := updateStatus "Preparing snapshot..." s in
  let s := with_pl (takeStateSnapshot (pl s)) EvTakeSnapshot s in
  let s := with_pl (startRecording (pl s)) EvStartRecording s in
  updateStatus "Searching..." s.

(** Lines 197-222: the report, the recorded replay, the final restore;
    [ok] is what [dfs(0)] returned. *)
Definition wrapUp (ok : bool) (s : Solver) : Solver :=
  let s := if ok then updateStatus "Found run! Finalizing..." s
           else updateStatus "No run found (timeout or no solution)." s in
  let found := ok in
  let s := with_pl (stopRecording (pl s)) EvStopRecording s in
  let replayString := getRecordedReplay (pl s) in
  let s := mkSolver (pl s) (current s) (bestSequence s) replayString
                    (reads s) (trace s) in
  let s :=
    if negb (String.eqb replayString EmptyString)
    then updateStatus "Recording ready to export." s
    else if found
    then updateStatus
           "Run found but replay retrieval failed; try built-in recording APIs." s
    else s in
  do_restore s.

(** [runSolverAndRecord] (lines 144-223) for a non-null [pl]; the result
    is the local [found] and the final state. *)
Definition runSolverAndRecord (w : W) : option (bool * Solver) :=
  let (startTime, s) := clock_now (prepare w) in
  match dfs dfs_fuel startTime 0 s with
  | None => None
  | Some (ok, s) => Some (ok, wrapUp ok s)
  end.

(** The engine state in which [dfs(0)] starts. *)
Definition searchStart (w : W) : W := startRecording (takeStateSnapshot w).

(** The success and failure tests of [dfs] as queries on the engine. *)
Definition isSuccess (w : W) : bool := getCurrentPercentInt w >=? 100.
Definition isFailure (w : W) : bool := playerDead w.

(** A decision sequence drives the engine from [w] to success: replayed
    frame by frame it meets neither success nor failure on the way and
    ends in success. *)
Fixpoint drivesToSuccess (w : W) (sq : list FrameInput) : bool :=
  match sq with
  | [] => isSuccess w
  | x :: sq' =>
    negb (isSuccess w) && negb (isFailure w)
    && drivesToSuccess (stepFrame w x) sq'
  end.

(** *** Reading the deadline off a state *)

Section Deadline.
Variable start : Z.

(** [updatesPastDeadline] of the trace of a state. *)
Definition past (s : Solver) : option nat :=
  updatesPastDeadline start TIMEOUT_MS (trace s).

(** The trace shows a late reading only if the clock has given one. *)
Definition seen (s : Solver) : Prop :=
  past s <> None ->
  exists r0 : nat, (r0 < reads s)%nat /\
                   elapsed_ms (clk r0) start > TIMEOUT_MS.

(** The state in which the "no click" branch calls [dfs]. *)
Definition down (s : Solver) : Solver := cur_push false (do_update s).

(** The state in which the "click" branch calls [dfs], from the state
    the "no click" branch returned. *)
Definition across (s : Solver) : Solver :=
  cur_push true (do_update (do_click (cur_pop (do_restore s)))).

(** The state a call returns when both branches failed. *)
Definition up (s : Solver) : Solver := cur_pop (do_restore s).

End Deadline.

End WithEngine.

Arguments Solver W : clear implicits.

End Backtracking.

(** ** src/unnamed/part_002: randomized trial search, encoder, export *)
Module Randomized.

Definition MAX_SEARCH_FRAMES : Z := 60 * 30.
Definition MAX_TRIALS : Z := 500.
Definition TIMEOUT_MS : Z := 35 * 1000.

(** C++ [float] with its comparison and the four literals the solver
    writes; [std::mt19937] with the two standard distributions.  Both
    belong to the C++ library. *)
Class RandomSource (R F : Type) : Type := {
  f_lt : F -> F -> bool;                    (* operator< on float *)
  lit_0_0 : F;                              (* 0.0f *)
  lit_1_0 : F;                              (* 1.0f *)
  lit_0_01 : F;                             (* 0.01f *)
  lit_0_15 : F;                             (* 0.15f *)
  (* std::uniform_int_distribution<int>(a, b)(rng) *)
  uniform_int : Z -> Z -> R -> Z * R;
  (* std::uniform_real_distribution<float>(a, b)(rng) *)
  uniform_real : F -> F -> R -> F * R
}.

(** What the C++ standard promises of the two distributions: the value
    lies between the bounds. *)
Definition int_in_range {R F : Type} `{RandomSource R F} : Prop :=
  forall (a b : Z) (r : R), a <= b ->
    a <= fst (uniform_int a b r) <= b.

Definition real_in_range {R F : Type} `{RandomSource R F} : Prop :=
  forall (a b : F) (r : R), f_lt b a = false ->
    f_lt (fst (uniform_real a b r)) a = false /\
    f_lt b (fst (uniform_real a b r)) = false.

(** [0.01f <= 0.15f]. *)
Definition literals_ordered {R F : Type} `{RandomSource R F} : Prop :=
  f_lt lit_0_15 lit_0_01 = false.

(** How one trial ended: success detected after playing frame [f], the
    gameplay found inactive after frame [f], or the sequence used up. *)
Inductive TrialOutcome : Type :=
| Succeeded (f : Z)
| Died (f : Z)
| RanOut.

(** One executed trial: its number, the clock reading that let it start,
    the drawn length and click probability, the generated sequence, and
    how it ended.  (A log entry; the solver itself keeps none of it.) *)
Record Trial (F : Type) : Type := mkTrial {
  t_trial : Z;
  t_checked : Z;
  t_seqLen : Z;
  t_clickProb : F;
  t_seq : list FrameInput;
  t_outcome : TrialOutcome
}.
Arguments mkTrial {F}.
Arguments t_trial {F}.
Arguments t_checked {F}.
Arguments t_seqLen {F}.
Arguments t_clickProb {F}.
Arguments t_seq {F}.
Arguments t_outcome {F}.

(** The part of [g_modalState] the solver and the export handler use. *)
Record ModalState : Type := mkModal {
  lastReplayData : string;
  running : bool
}.

(** The loop collecting the click frames (lines 115-117), from index [i]. *)
Fixpoint clickFrames (i : Z) (sq : list FrameInput) : list Z :=
  match sq with
  | [] => []
  | x :: sq' =>
    if click x then i :: clickFrames (i + 1) sq'
    else clickFrames (i + 1) sq'
  end.

(** The CSV loop (lines 137-140): [i] is the loop index, [outStr] the
    string built so far. *)
Fixpoint csvLoop (i : nat) (foundClicks : list Z) (outStr : string)
  : string :=
  match foundClicks with
  | [] => outStr
  | c :: rest =>
    let outStr := if (0 <? i)%nat then (outStr ++ ",")%string else outStr in
    csvLoop (S i) rest (outStr ++ fmt_int c)%string
  end.

Definition encodeClicks (foundClicks : list Z) : string :=
  csvLoop 0 foundClicks EmptyString.

(** The replay encoder of this draft: a decision sequence to the text the
    solver stores in [lastReplayData]. *)
Definition encode (sq : list FrameInput) : string :=
  encodeClicks (clickFrames 0 sq).

Section WithEngine.
Context {W : Type} {engine : PlayLayer W}.
Context {R F : Type} {random : RandomSource R F}.
Variable clk : Clock.

(** The locals of [solverRun], the progress messages shown so far (the
    newest first), [g_modalState], and the log of executed trials (the
    newest first). *)
Record Run : Type := mkRun {
  pl : W;
  rng : R;
  reads : nat;
  found : bool;
  foundClicks : list Z;
  status : list string;
  modal : ModalState;
  trials : list (Trial F)
}.

Definition updateStatus (msg : string) (s : Run) : Run :=
  mkRun (pl s) (rng s) (reads s) (found s) (foundClicks s)
        (msg :: status s) (modal s) (trials s).

Definition clock_now (s : Run) : Z * Run :=
  (clk (reads s),
   mkRun (pl s) (rng s) (S (reads s)) (found s) (foundClicks s)
         (status s) (modal s) (trials s)).

(** Lines 83-86: [seq[i].click = uniform_real(0, 1)(rng) < clickProb]
    for the [n] entries of the vector. *)
Fixpoint genSeq (n : nat) (clickProb : F) (r : R)
  : list FrameInput * R :=
  match n with
  | O => ([], r)
  | S n' =>
    let (u, r) := uniform_real lit_0_0 lit_1_0 r in
    let (rest, r) := genSeq n' clickProb r in
    (mkFrame (f_lt u clickProb) :: rest, r)
  end.

(** Lines 88-94: the reset every trial starts from. *)
Definition trialReset (w : W) : W :=
  update (update (resetLevelFromStart w)).

(** The simulation loop (lines 98-126) from frame [f], [rest] being
    [seq[f..]]. *)
Fixpoint simulate (f : Z) (rest : list FrameInput) (w : W)
  : TrialOutcome * W :=
  match rest with
  | [] => (RanOut, w)
  | x :: rest' =>
    let w := applyClick (click x) w in
    let w := update w in
    if getCurrentPercentInt w >=? 100 then (Succeeded f, w)
    else if negb (isGameplayActive w) then (Died f, w)
    else simulate (f + 1) rest' w
  end.

Definition tryingMessage (trial seqLen : Z) : string :=
  ("Trying... trial " ++ fmt_int trial ++ "/" ++ fmt_int MAX_TRIALS
     ++ " (seq " ++ fmt_int seqLen ++ ")")%string.

(** One pass through the body of the trial loop (lines 80-130). *)
Definition trialBody (trial now : Z) (s : Run) : Run :=
  let (seqLen, r) :=
    uniform_int 60 (Z.min MAX_SEARCH_FRAMES 600) (rng s) in
  let (clickProb, r) := uniform_real lit_0_01 lit_0_15 r in
  let (sq, r) := genSeq (Z.to_nat seqLen) clickProb r in
  let w := trialReset (pl s) in
  let (outcome, w) := simulate 0 sq w in
  let entry := mkTrial trial now seqLen clickProb sq outcome in
  let s :=
    match outcome with
    | Succeeded _ =>
      mkRun w r (reads s) true (clickFrames 0 sq) (status s) (modal s)
            (entry :: trials s)
    | _ =>
      mkRun w r (reads s) (found s) (foundClicks s) (status s) (modal s)
            (entry :: trials s)
    end in
  if Z.rem trial 10 =? 0 then updateStatus (tryingMessage trial seqLen) s
  else s.

(** The [for] loop of line 79, entered with the loop variable at
    [trial]. *)
Fixpoint trialLoop (fuel : nat) (deadline : Z) (trial : Z) (s : Run)
  : option Run :=
  match fuel with
  | O => None
  | S fuel' =>
    if negb (trial <? MAX_TRIALS) then Some s
    else
      let (now, s) := clock_now s in
      if negb (now <? deadline) then Some s
      else if found s then Some s
      else trialLoop fuel' deadline (trial + 1) (trialBody trial now s)
  end.

Definition loop_fuel : nat := S (Z.to_nat MAX_TRIALS).

(** Lines 133-148: the report after the loop. *)
Definition finish (s : Run) : Run :=
  let s :=
    if found s then
      let s := updateStatus "Found a run! Preparing export..." s in
      let outStr := encodeClicks (foundClicks s) in
      let s := mkRun (pl s) (rng s) (reads s) (found s) (foundClicks s)
                     (status s) (mkModal outStr (running (modal s)))
                     (trials s) in
      updateStatus "Ready to export (click Export)." s
    else updateStatus "No run found (timeout / trials exhausted)." s in
  mkRun (pl s) (rng s) (reads s) (found s) (foundClicks s) (status s)
        (mkModal (lastReplayData (modal s)) false) (trials s).

(** Lines 69-148: the deadline, the trial loop and the report. *)
Definition search (s : Run) : option Run :=
  let (t, s) := clock_now s in
  let deadline := t + TIMEOUT_MS * ns_per_ms in
  match trialLoop loop_fuel deadline 0 s with
  | None => None
  | Some s => Some (finish s)
  end.

(** Lines 62-67: the readiness check. *)
Definition ensureStarted (w : W) : W :=
  if negb (isGameplayActive w) then startGame w else w.

(** [solverRun] (lines 51-149) for a non-null [pl], with the generator
    seeded to [seed] and [g_modalState] as [g]. *)
Definition solverRun (w : W) (seed : R) (g : ModalState) : option Run :=
  let s := mkRun w seed 0 false [] [] g [] in
  let (_, s) := clock_now s in
  let s := updateStatus "Solver starting..." s in
  let s := mkRun (ensureStarted (pl s)) (rng s) (reads s) (found s)
                 (foundClicks s) (status s) (modal s) (trials s) in
  search s.

(** What a call of [solverRun] leaves: nothing touched, or a run. *)
Inductive Returned : Type :=
| Untouched (g : ModalState)
| Ran (s : Run).

(** [solverRun] on the pointer it is given: [if (!pl) return;] comes
    before anything else. *)
Definition solverRunOn (pl0 : option W) (seed : R) (g : ModalState)
  : option Returned :=
  match pl0 with
  | None => Some (Untouched g)
  | Some w => option_map Ran (solverRun w seed g)
  end.

(** Playing a recorded click-frame list: frame [f] clicks exactly when
    [f] is listed.  [n] frames are played from frame [f]. *)
Fixpoint replayClicks (n : nat) (f : Z) (clicks : list Z) (w : W) : W :=
  match n with
  | O => w
  | S n' =>
    let b := existsb (Z.eqb f) clicks in
    replayClicks n' (f + 1) clicks (update (applyClick b w))
  end.

(** A logged trial whose draws respect the ranges written in the
    source, whose sequence has the drawn length, and which the loop
    started on a clock reading before [deadline]. *)
Definition goodTrial (deadline : Z) (t : Trial F) : Prop :=
  60 <= t_seqLen t <= 600 /\
  List.length (t_seq t) = Z.to_nat (t_seqLen t) /\
  f_lt (t_clickProb t) lit_0_01 = false /\
  f_lt lit_0_15 (t_clickProb t) = false /\
  t_checked t < deadline.

(** When [found] is set, the newest logged trial is the one that
    succeeded: it was simulated from a trial reset, stopped in the
    engine state the run now holds, and [foundClicks] lists the click
    frames of its sequence. *)
Definition foundByLastTrial (s : Run) : Prop :=
  found s = true ->
  exists (entry : Trial F) (rest : list (Trial F)) (f : Z) (w0 : W),
    trials s = entry :: rest /\
    t_outcome entry = Succeeded f /\
    simulate 0 (t_seq entry) (trialReset w0) = (Succeeded f, pl s) /\
    foundClicks s = clickFrames 0 (t_seq entry).

End WithEngine.

Arguments Run W R F : clear implicits.
Arguments Returned W R F : clear implicits.

(** *** The export handler *)

(** [isalnum] in the "C" locale, on the character as [unsigned char]. *)
Definition isalnum (c : ascii) : bool :=
  let n := nat_of_ascii c in
  ((48 <=? n) && (n <=? 57) || (65 <=? n) && (n <=? 90)
   || (97 <=? n) && (n <=? 122))%nat.

(** [for (auto &c : lvlName) if (!isalnum((unsigned char)c)) c = '_';] *)
Fixpoint sanitize (lvlName : string) : string :=
  match lvlName with
  | EmptyString => EmptyString
  | String c rest =>
    String (if isalnum c then c else "_"%char) (sanitize rest)
  end.

(** The file name of lines 271-280; [levelName] is [None] when [m_level]
    or its name is null, [t] is the [time_t] read from the system clock.
    The drafts differ in the text before the name and in the extension. *)
Definition exportName (prefix ext : string) (levelName : option string)
           (t : Z) : string :=
  let lvlName := match levelName with Some n => n | None => "macro"%string end in
  (prefix ++ sanitize lvlName ++ "_" ++ fmt_int (to_int32 t) ++ ext)%string.

(** [onExportClicked] (lines 261-294): the file written, as name and
    content, or [None] when it only shows the "No macro recorded yet"
    alert. *)
Definition onExportClicked (levelName : option string) (t : Z)
           (g : ModalState) : option (string * string) :=
  if String.eqb (lastReplayData g) EmptyString then None
  else Some (exportName EmptyString ".macro.txt" levelName t,
             lastReplayData g).

(** The file names of the other two drafts: part_000 line 135
    ([fmt::format("{}_{}.gdr", lvlName, (int)t)]) and src/src/main.cpp
    line 242 ([fmt::format("{}/{}_{}.gdr", outFolder, lvlName, (int)t)]). *)
Definition exportNameGdr (levelName : option string) (t : Z) : string :=
  exportName EmptyString ".gdr" levelName t.

Definition exportNameInFolder (outFolder : string)
           (levelName : option string) (t : Z) : string :=
  exportName (outFolder ++ "/") ".gdr" levelName t.

End Randomized.

(** ** Reading the exported text back

    The repository has no decoder.  The one below is the specification side
    of the round-trip law: it reads a comma-separated list of frame
    numbers and rebuilds the decision sequence that ends with its last
    click. *)
Module Decoder.

(** The comma-separated fields of a text (one more than its commas). *)
Fixpoint fields (s : string) : list string :=
  match s with
  | EmptyString => [EmptyString]
  | String c rest =>
    if Ascii.eqb c ","%char then EmptyString :: fields rest
    else match fields rest with
         | f :: fs => String c f :: fs
         | [] => [String c EmptyString]
         end
  end.

Definition parseInt (f : string) : option Z :=
  option_map Z.of_int (NilZero.int_of_string f).

Fixpoint parseAll (fs : list string) : option (list Z) :=
  match fs with
  | [] => Some []
  | f :: fs' =>
    match parseInt f, parseAll fs' with
    | Some z, Some zs => Some (z :: zs)
    | _, _ => None
    end
  end.

Definition decodeClicks (s : string) : option (list Z) :=
  if String.eqb s EmptyString then Some [] else parseAll (fields s).

(** The shortest decision sequence, counted from frame [i], that clicks
    exactly at the listed frames. *)
Fixpoint unclick (i : Z) (clicks : list Z) : list FrameInput :=
  match clicks with
  | [] => []
  | c :: clicks' =>
    repeat noClick (Z.to_nat (c - i)) ++ doClick :: unclick (c + 1) clicks'
  end.

Definition decode (s : string) : option (list FrameInput) :=
  option_map (unclick 0) (decodeClicks s).

(** A decision sequence without its trailing "no click" frames. *)
Fixpoint stripTrailing (sq : list FrameInput) : list FrameInput :=
  match sq with
  | [] => []
  | x :: sq' =>
    match stripTrailing sq' with
    | [] => if click x then [x] else []
    | r => x :: r
    end
  end.

(** [c] occurs in [s]. *)
Fixpoint hasChar (c : ascii) (s : string) : bool :=
  match s with
  | EmptyString => false
  | String d rest => Ascii.eqb c d || hasChar c rest
  end.

(** The characters [fmt::format("{}", int)] can produce. *)
Definition digitOrMinus (c : ascii) : bool :=
  existsb (Ascii.eqb c)
          ["-"; "0"; "1"; "2"; "3"; "4"; "5"; "6"; "7"; "8"; "9"]%char.

(** The identifier-safe alphabet [A-Za-z0-9_]. *)
Definition identChar (c : ascii) : bool :=
  Randomized.isalnum c || Ascii.eqb c "_"%char.

Fixpoint allChars (p : ascii -> bool) (s : string) : bool :=
  match s with
  | EmptyString => true
  | String c rest => p c && allChars p rest
  end.

(** Joining fields with commas; [sep] says whether a comma comes first. *)
Fixpoint joinFrom (sep : bool) (xs : list string) : string :=
  match xs with
  | [] => EmptyString
  | x :: rest =>
    ((if sep then "," else "") ++ x ++ joinFrom true rest)%string
  end.

End Decoder.

(** ** Toy engines, clocks and random sources *)
Module Toy.

(** A level as a state machine over [S]. *)
Record Level (S : Type) : Type := mkLevel {
  lv_start : S;
  lv_update : S -> S;
  lv_jump : S -> S;
  lv_percent : S -> Z;
  lv_destroyed : S -> bool
}.
Arguments lv_start {S}.
Arguments lv_update {S}.
Arguments lv_jump {S}.
Arguments lv_percent {S}.
Arguments lv_destroyed {S}.

(** An engine running a level, with ONE snapshot slot: the snapshot is
    the state at the last [takeStateSnapshot], and restoring returns to
    it.  Resetting the level from the start forgets everything. *)
Record Slot (S : Type) : Type := mkSlot {
  cur : S;
  snap : S;
  started : bool
}.
Arguments mkSlot {S}.
Arguments cur {S}.
Arguments snap {S}.
Arguments started {S}.

Definition slotEngine {S : Type} (L : Level S) : PlayLayer (Slot S) := {|
  update w := mkSlot (lv_update L (cur w)) (snap w) (started w);
  getCurrentPercentInt w := lv_percent L (cur w);
  m_player1 w := true;
  pushButton w := mkSlot (lv_jump L (cur w)) (snap w) (started w);
  playerIsFalling w := true;
  playerDestroyed w := lv_destroyed L (cur w);
  takeStateSnapshot w := mkSlot (cur w) (cur w) (started w);
  restoreStateSnapshot w := mkSlot (snap w) (snap w) (started w);
  startRecording w := w;
  stopRecording w := w;
  getRecordedReplay w := EmptyString;
  isGameplayActive w := started w && negb (lv_destroyed L (cur w));
  startGame w := mkSlot (cur w) (snap w) true;
  resetLevelFromStart w := mkSlot (lv_start L) (lv_start L) true
|}.

Definition fresh {S : Type} (L : Level S) (isStarted : bool) : Slot S :=
  mkSlot (lv_start L) (lv_start L) isStarted.

(** The level is completed at position 3, but only by a run that jumped
    at position 0; a run that did not is destroyed from position 2 on.
    The state is the position and where the first jump was made. *)
Definition earlyJump : Level (Z * option Z) := {|
  lv_start := (0, None);
  lv_update s := (fst s + 1, snd s);
  lv_jump s := (fst s, match snd s with None => Some (fst s) | j => j end);
  lv_percent s :=
    match snd s with
    | Some 0 => if 3 <=? fst s then 100 else 0
    | _ => 0
    end;
  lv_destroyed s :=
    match snd s with
    | Some 0 => false
    | _ => 2 <=? fst s
    end
|}.

(** A level without obstacles that takes 10000 frames to complete. *)
Definition longFlat : Level Z := {|
  lv_start := 0;
  lv_update x := x + 1;
  lv_jump x := x;
  lv_percent x := Z.quot x 100;
  lv_destroyed x := false
|}.

(** A level without obstacles that takes 5 frames to complete. *)
Definition shortFlat : Level Z := {|
  lv_start := 0;
  lv_update x := x + 1;
  lv_jump x := x;
  lv_percent x := x * 20;
  lv_destroyed x := false
|}.

(** The level is completed at position 5, but only by a run whose first
    jump was made at position 2, where a trial stands after its two
    warm-up updates.  The state is the position and where the first jump
    was made. *)
Definition jumpAtTwo : Level (Z * option Z) := {|
  lv_start := (0, None);
  lv_update s := (fst s + 1, snd s);
  lv_jump s := (fst s, match snd s with None => Some (fst s) | j => j end);
  lv_percent s :=
    match snd s with
    | Some 2 => if 5 <=? fst s then 100 else 0
    | _ => 0
    end;
  lv_destroyed s := false
|}.

(** A clock on which every reading comes [ns] nanoseconds after the one
    before. *)
Definition clockEvery (ns : Z) : Clock := fun k => Z.of_nat k * ns.

(** A clock that ticks every [ns] nanoseconds and, from its reading
    number [at] on, is [pause] nanoseconds further: the thread was
    suspended for that long between two readings. *)
Definition clockWithPause (ns : Z) (at_reading : nat) (pause : Z) : Clock :=
  fun k => Z.of_nat k * ns + (if (at_reading <=? k)%nat then pause else 0).

(** A random source that always returns the lower bound; floats are
    counted in thousandths.  The state counts the draws. *)
Definition lowest : Randomized.RandomSource Z Z := {|
  Randomized.f_lt := Z.ltb;
  Randomized.lit_0_0 := 0;
  Randomized.lit_1_0 := 1000;
  Randomized.lit_0_01 := 10;
  Randomized.lit_0_15 := 150;
  Randomized.uniform_int a b r := (a, r + 1);
  Randomized.uniform_real a b r := (a, r + 1)
|}.

(** The randomized search on [jumpAtTwo] with the lowest random source (60
    frames, a click on each) and a clock ticking every microsecond. *)
Definition jumpAtTwo_run
  : option (Randomized.Run (Slot (Z * option Z)) Z Z) :=
  @Randomized.solverRun _ (slotEngine jumpAtTwo) _ _ lowest
    (clockEvery 1000) (fresh jumpAtTwo true) 0
    (Randomized.mkModal EmptyString true).

(** A random source that walks through the range; floats in thousandths. *)
Definition walking : Randomized.RandomSource Z Z := {|
  Randomized.f_lt := Z.ltb;
  Randomized.lit_0_0 := 0;
  Randomized.lit_1_0 := 1000;
  Randomized.lit_0_01 := 10;
  Randomized.lit_0_15 := 150;
  Randomized.uniform_int a b r :=
    (a + (r * 7) mod (Z.max 1 (b - a + 1)), r + 1);
  Randomized.uniform_real a b r :=
    (a + (r * 37) mod (Z.max 1 (b - a + 1)), r + 1)
|}.

End Toy.

(** * More of the code

    The trial log, the traces, the handlers of the three drafts and the
    older draft part_001. *)

(** ** src/unnamed/part_002: reading the log of trials *)
Module TrialLog.
Import Randomized.

(** The trial reached 100%. *)
Definition succeeded (o : TrialOutcome) : bool :=
  match o with
  | Succeeded _ => true
  | _ => false
  end.

(** The numbers [n - 1, ..., 1, 0]: the loop variable of the trials of a
    log of [n] entries, the newest first. *)
Fixpoint countdown (n : nat) : list Z :=
  match n with
  | O => []
  | S n' => Z.of_nat n' :: countdown n'
  end.

(** The progress messages a log of trials gives rise to (line 128: every
    tenth trial reports), the newest first. *)
Definition tryingLog {F : Type} (ts : list (Trial F)) : list string :=
  map (fun t => tryingMessage (t_trial t) (t_seqLen t))
      (filter (fun t => Z.rem (t_trial t) 10 =? 0) ts).

(** The messages of lines 133-145, the newest first. *)
Definition closingMessages (found : bool) : list string :=
  if found
  then ["Ready to export (click Export)."; "Found a run! Preparing export..."]%string
  else ["No run found (timeout / trials exhausted)."]%string.

(** The number of frames a trial played before it stopped. *)
Definition framesPlayed (o : TrialOutcome) (seqLen : nat) : nat :=
  match o with
  | Succeeded f => S (Z.to_nat f)
  | Died f => S (Z.to_nat f)
  | RanOut => seqLen
  end.

Section WithEngine.
Context {W : Type} {engine : PlayLayer W}.
Context {R F : Type} {random : RandomSource R F}.

(** What the trial loop keeps true of the log, the flag, the click list,
    the messages and [g_modalState], entered with the loop variable at
    [trial]. *)
Definition logShape (g : ModalState) (trial : Z) (s : Run W R F) : Prop :=
  Z.of_nat (List.length (trials s)) = trial /\
  trial <= MAX_TRIALS /\
  map t_trial (trials s) = countdown (List.length (trials s)) /\
  Forall (fun t => succeeded (t_outcome t) = false) (tl (trials s)) /\
  found s = match trials s with
            | [] => false
            | t :: _ => succeeded (t_outcome t)
            end /\
  (found s = true ->
   foundClicks s = match trials s with
                   | [] => []
                   | t :: _ => clickFrames 0 (t_seq t)
                   end) /\
  status s = tryingLog (trials s) ++ ["Solver starting..."%string] /\
  modal s = g.

End WithEngine.

End TrialLog.

(** ** The alphabet of the stored macro text *)
Module MacroText.

(** A decimal digit. *)
Definition isDigit (c : ascii) : bool :=
  let n := nat_of_ascii c in ((48 <=? n) && (n <=? 57))%nat.

(** The characters of the stored macro text: digits and the comma. *)
Definition csvChar (c : ascii) : bool := isDigit c || Ascii.eqb c ","%char.

End MacroText.

(** ** Counting the events of a trace *)
Module TraceKinds.

Definition countEvents (p : Event -> bool) (tr : list Event) : nat :=
  List.length (filter p tr).

Definition isPush (e : Event) : bool :=
  match e with EvPushBack _ _ => true | _ => false end.
Definition isPop (e : Event) : bool :=
  match e with EvPopBack => true | _ => false end.
Definition isRestore (e : Event) : bool :=
  match e with EvRestore => true | _ => false end.
Definition isSnapshot (e : Event) : bool :=
  match e with EvTakeSnapshot => true | _ => false end.
Definition isStartRecording (e : Event) : bool :=
  match e with EvStartRecording => true | _ => false end.
Definition isStopRecording (e : Event) : bool :=
  match e with EvStopRecording => true | _ => false end.
Definition isButton (e : Event) : bool :=
  match e with EvPushButton => true | _ => false end.

End TraceKinds.

(** ** src/unnamed/part_000: the trace of a call *)
Module BacktrackingTrace.
Import Backtracking TraceKinds.

Section WithEngine.
Context {W : Type} {engine : PlayLayer W}.

(** What a call of [dfs] adds to the trace, from the state [s] it is
    entered in to the state [s'] it returns. *)
Definition balanced (s s' : Solver W) : Prop :=
  countEvents isSnapshot (trace s') = countEvents isSnapshot (trace s) /\
  countEvents isStartRecording (trace s')
  = countEvents isStartRecording (trace s) /\
  countEvents isStopRecording (trace s')
  = countEvents isStopRecording (trace s) /\
  (countEvents isRestore (trace s') + countEvents isPop (trace s)
   = countEvents isRestore (trace s) + countEvents isPop (trace s'))%nat /\
  (countEvents isPush (trace s') + countEvents isUpdate (trace s)
   = countEvents isPush (trace s) + countEvents isUpdate (trace s'))%nat /\
  (countEvents isPush (trace s') + countEvents isPop (trace s)
   + List.length (current s)
   = countEvents isPush (trace s) + countEvents isPop (trace s')
     + List.length (current s'))%nat /\
  (countEvents isButton (trace s') + countEvents isPop (trace s)
   <= countEvents isButton (trace s) + countEvents isPop (trace s'))%nat.

End WithEngine.

End BacktrackingTrace.

(** ** src/src/main.cpp: the depth of the search *)
Module MainCppDepth.

(** The first frame index at which the placeholder success test of line
    121 holds. *)
Definition SUCCESS_FRAME : Z := MainCpp.SUCCESS_X_THRESHOLD / 10 + 1.

(** The clock has given a reading more than [SOLVER_TIMEOUT_MS] after
    [start]. *)
Definition lateSeen (clk : Clock) (start : Z) (s : MainCpp.Solver) : Prop :=
  exists r0 : nat,
    (r0 < MainCpp.reads s)%nat /\
    elapsed_ms (clk r0) start > MainCpp.SOLVER_TIMEOUT_MS.

End MainCppDepth.

(** ** More of the engine interface

    The operations of [PlayLayer] that only the older drafts and the
    main-thread code of src/src/main.cpp call. *)
Class PlayLayerMore (W : Type) : Type := {
  pauseGame : bool -> W -> W;          (* pl->pauseGame(b) *)
  pushButton1 : W -> W;                (* m_player1->pushButton(1) *)
  m_replay : W -> string;              (* pl->m_replay *)
  (* m_level->m_levelName, [None] when m_level is null *)
  m_levelName : W -> option string;
  compareStateSnapshot : W -> W
}.

(** ** More toy instances *)
Module ToyMore.

(** The engine of [Toy.slotEngine] before the player object exists:
    [m_player1] is null. *)
Definition noPlayer {S : Type} (L : Toy.Level S) : PlayLayer (Toy.Slot S) := {|
  update := @update _ (Toy.slotEngine L);
  getCurrentPercentInt := @getCurrentPercentInt _ (Toy.slotEngine L);
  m_player1 w := false;
  pushButton := @pushButton _ (Toy.slotEngine L);
  playerIsFalling := @playerIsFalling _ (Toy.slotEngine L);
  playerDestroyed := @playerDestroyed _ (Toy.slotEngine L);
  takeStateSnapshot := @takeStateSnapshot _ (Toy.slotEngine L);
  restoreStateSnapshot := @restoreStateSnapshot _ (Toy.slotEngine L);
  startRecording := @startRecording _ (Toy.slotEngine L);
  stopRecording := @stopRecording _ (Toy.slotEngine L);
  getRecordedReplay := @getRecordedReplay _ (Toy.slotEngine L);
  isGameplayActive := @isGameplayActive _ (Toy.slotEngine L);
  startGame := @startGame _ (Toy.slotEngine L);
  resetLevelFromStart := @resetLevelFromStart _ (Toy.slotEngine L)
|}.

End ToyMore.

(** ** Vocabulary for the export file names *)
Module FileNames.

(** The characters of an export file name: letters, digits, the
    underscore, the minus sign of a negative timestamp, and the dot of the
    extension. *)
Definition fileChar (c : ascii) : bool :=
  Decoder.identChar c || Ascii.eqb c "-"%char || Ascii.eqb c "."%char.

(** The name the handlers start from: the level name, or "macro". *)
Definition nameOrMacro (levelName : option string) : string :=
  match levelName with
  | Some n => n
  | None => "macro"%string
  end.

(** Two level names that the sanitizing loop cannot tell apart: they have
    the same length and at each position either the same character or two
    characters that are both not alphanumeric. *)
Fixpoint alike (a b : string) : bool :=
  match a, b with
  | EmptyString, EmptyString => true
  | String c a', String d b' =>
    (Ascii.eqb c d
     || negb (Randomized.isalnum c) && negb (Randomized.isalnum d))
    && alike a' b'
  | _, _ => false
  end.

End FileNames.

(** ** src/unnamed/part_002: the button, the modal and the solver thread *)
Module ModalUI.

(** What the handlers of lines 152-259 read and write, for one
    [PlayLayer]: the two fields of [m_fields], the two members of
    [g_modalState] that steer them (its cocos nodes are represented by
    whether they exist), and, as ghost counters, the argument of the last
    [pauseGame] call, the buttons created, the solver threads started and
    the solver threads that have returned. *)
Record Screen : Type := mkScreen {
  m_clickMacroButton : bool;
  m_macroModalOpen : bool;
  modalLayer : bool;
  g : Randomized.ModalState;
  paused : bool;
  buttons : nat;
  started : nat;
  returned : nat
}.

Definition initial : Screen :=
  mkScreen false false false (Randomized.mkModal EmptyString false)
           false 0 0 0.

(** [onEnter] (lines 159-189): the button is created once. *)
Definition onEnter (s : Screen) : Screen :=
  if negb (m_clickMacroButton s)
  then mkScreen true (m_macroModalOpen s) (modalLayer s) (g s) (paused s)
                (S (buttons s)) (started s) (returned s)
  else s.

(** [onMacroButton] (lines 192-249). *)
Definition onMacroButton (s : Screen) : Screen :=
  if m_macroModalOpen s
  then
    (* the modal is removed, the game resumes *)
    mkScreen (m_clickMacroButton s) false false (g s) false
             (buttons s) (started s) (returned s)
  else
    (* the modal is built and shown, the game pauses *)
    if negb (Randomized.running (g s))
    then
      mkScreen (m_clickMacroButton s) true true
               (Randomized.mkModal (Randomized.lastReplayData (g s)) true)
               true (buttons s) (S (started s)) (returned s)
    else
      mkScreen (m_clickMacroButton s) true true (g s) true
               (buttons s) (started s) (returned s).

(** [onCloseClicked] (lines 251-259). *)
Definition onCloseClicked (s : Screen) : Screen :=
  mkScreen (m_clickMacroButton s) false false (g s) false
           (buttons s) (started s) (returned s).

(** The end of [solverRun] (lines 133-148) as the handlers see it:
    [lastReplayData] is overwritten when a run was found, with [text], and
    [running] is cleared. *)
Definition solverReturns (outcome : option string) (s : Screen) : Screen :=
  mkScreen (m_clickMacroButton s) (m_macroModalOpen s) (modalLayer s)
           (Randomized.mkModal
              (match outcome with
               | Some text => text
               | None => Randomized.lastReplayData (g s)
               end) false)
           (paused s) (buttons s) (started s) (S (returned s)).

(** What can happen to the screen. *)
Inductive Action : Type :=
| Enter
| PressM
| ClickX
| SolverReturns (outcome : option string).

(** The M button can be pressed once it exists, the X of the modal while
    the modal is shown, and a solver thread can return if one was started
    and has not returned. *)
Definition enabled (a : Action) (s : Screen) : bool :=
  match a with
  | Enter => true
  | PressM => m_clickMacroButton s
  | ClickX => modalLayer s
  | SolverReturns _ => (returned s <? started s)%nat
  end.

Definition act (a : Action) (s : Screen) : Screen :=
  match a with
  | Enter => onEnter s
  | PressM => onMacroButton s
  | ClickX => onCloseClicked s
  | SolverReturns outcome => solverReturns outcome s
  end.

(** A history of actions, each possible when it happens. *)
Fixpoint run (actions : list Action) (s : Screen) : option Screen :=
  match actions with
  | [] => Some s
  | a :: rest => if enabled a s then run rest (act a s) else None
  end.

(** The solver threads alive. *)
Definition alive (s : Screen) : nat := (started s - returned s)%nat.

(** What every reachable screen satisfies. *)
Definition consistent (s : Screen) : Prop :=
  (returned s <= started s)%nat /\
  (alive s <= 1)%nat /\
  Randomized.running (g s) = (0 <? alive s)%nat /\
  m_macroModalOpen s = modalLayer s /\
  paused s = modalLayer s /\
  (buttons s <= 1)%nat /\
  m_clickMacroButton s = (0 <? buttons s)%nat.

End ModalUI.

(** ** src/unnamed/part_000: the menu and the solver threads *)
Module MenuUI.

(** [m_ui] of [ClickMacroMaker] (its nodes by whether they exist), and
    the same ghost counters as in [ModalUI]. *)
Record Menu : Type := mkMenu {
  m_menuOpen : bool;
  m_modal : bool;
  paused : bool;
  started : nat;
  returned : nat
}.

Definition initial : Menu := mkMenu false false false 0 0.

(** [openMenu] (lines 66-101). *)
Definition openMenu (s : Menu) : Menu :=
  if m_menuOpen s then s
  else mkMenu true true true (S (started s)) (returned s).

(** [closeMenu] (lines 103-114); [layer] says whether [PlayLayer::get()]
    returns a layer. *)
Definition closeMenu (layer : bool) (s : Menu) : Menu :=
  if negb layer then s
  else mkMenu false false false (started s) (returned s).

(** [toggleMenu] (lines 47-54); [pl] says whether the pointer it is
    given is non-null. *)
Definition toggleMenu (pl layer : bool) (s : Menu) : Menu :=
  if negb pl then s
  else if negb (m_menuOpen s) then openMenu s
  else closeMenu layer s.

(** [onMacroButton] (lines 255-259). *)
Definition onMacroButton (layer : bool) (s : Menu) : Menu :=
  if negb layer then s else toggleMenu layer layer s.

(** [onCloseClicked] (lines 116-118). *)
Definition onCloseClicked (layer : bool) (s : Menu) : Menu :=
  closeMenu layer s.

(** A solver thread returns (it touches none of the flags). *)
Definition solverReturns (s : Menu) : Menu :=
  mkMenu (m_menuOpen s) (m_modal s) (paused s) (started s)
         (S (returned s)).

Inductive Action : Type :=
| PressM (layer : bool)
| ClickX (layer : bool)
| SolverReturns.

Definition enabled (a : Action) (s : Menu) : bool :=
  match a with
  | PressM _ => true
  | ClickX _ => m_modal s
  | SolverReturns => (returned s <? started s)%nat
  end.

Definition act (a : Action) (s : Menu) : Menu :=
  match a with
  | PressM layer => onMacroButton layer s
  | ClickX layer => onCloseClicked layer s
  | SolverReturns => solverReturns s
  end.

Fixpoint run (actions : list Action) (s : Menu) : option Menu :=
  match actions with
  | [] => Some s
  | a :: rest => if enabled a s then run rest (act a s) else None
  end.

Definition alive (s : Menu) : nat := (started s - returned s)%nat.

(** What every reachable menu satisfies. *)
Definition consistent (s : Menu) : Prop :=
  (returned s <= started s)%nat /\
  m_menuOpen s = m_modal s /\
  paused s = m_menuOpen s.

End MenuUI.

(** ** src/unnamed/part_001: the older draft of the backtracking search *)
Module Part001.
Import Backtracking.

Definition MAX_SEARCH_FRAMES : Z := 60 * 60 * 2.
Definition TIMEOUT_MS : Z := 40 * 1000.

Section WithEngine.
Context {W : Type} {engine : PlayLayer W} {more : PlayLayerMore W}.
Variable clk : Clock.

(** [pl->compareStateSnapshot();] (lines 286 and 299), the call this
    draft makes where part_000 restores the snapshot.  The trace logs it
    as the undo call. *)
Definition do_compare (s : Solver W) : Solver W :=
  with_pl (compareStateSnapshot (pl s)) EvRestore s.

(** The recursive lambda [dfs] (lines 259-304). *)
Fixpoint dfs (fuel : nat) (startTime : Z) (frame : Z) (s : Solver W)
  : option (bool * Solver W) :=
  match fuel with
  | O => None
  | S fuel' =>
    let (now, s) := clock_now clk s in
    if elapsed_ms now startTime >? TIMEOUT_MS then Some (false, s)
    else if frame >=? MAX_SEARCH_FRAMES then Some (false, s)
    else if getCurrentPercentInt (pl s) >=? 100
    then Some (true, record_best s)
    else if playerDead (pl s) then Some (false, s)
    else
      (* Option 1: no click *)
      let s := do_update s in
      let s := cur_push false s in
      match dfs fuel' startTime (frame + 1) s with
      | None => None
      | Some (true, s) => Some (true, s)
      | Some (false, s) =>
        let s := do_compare s in
        let s := cur_pop s in
        (* Option 2: click this frame *)
        let s := do_click s in
        let s := do_update s in
        let s := cur_push true s in
        match dfs fuel' startTime (frame + 1) s with
        | None => None
        | Some (true, s) => Some (true, s)
        | Some (false, s) => Some (false, cur_pop (do_compare s))
        end
      end
  end.

(** Lines 310-343: the report, the replay read from [m_replay], the
    final restore. *)
Definition wrapUp (ok : bool) (s : Solver W) : Solver W :=
  let s := if ok then updateStatus "Found run! Finalizing..." s
           else updateStatus "No run found (timeout or no solution)." s in
  let found := ok in
  let s := with_pl (stopRecording (pl s)) EvStopRecording s in
  let replayString := m_replay (pl s) in
  let s := mkSolver (pl s) (current s) (bestSequence s) replayString
                    (reads s) (trace s) in
  let s :=
    if negb (String.eqb replayString EmptyString)
    then updateStatus "Recording ready to export." s
    else if found
    then updateStatus
           "Run found but replay retrieval failed; try using built-in recording APIs in your runtime." s
    else s in
  do_restore s.

(** [runSolverAndRecord] (lines 220-347) for a non-null [pl]; the
    preparation is the one of part_000. *)
Definition runSolverAndRecord (w : W) : option (bool * Solver W) :=
  let (startTime, s) := clock_now clk (prepare w) in
  match dfs Backtracking.dfs_fuel startTime 0 s with
  | None => None
  | Some (ok, s) => Some (ok, wrapUp ok s)
  end.

End WithEngine.

(** The engine on which [restoreStateSnapshot] is this draft's
    [compareStateSnapshot]. *)
Definition undoByCompare {W : Type} (engine : PlayLayer W)
           (more : PlayLayerMore W) : PlayLayer W := {|
  update := @update W engine;
  getCurrentPercentInt := @getCurrentPercentInt W engine;
  m_player1 := @m_player1 W engine;
  pushButton := @pushButton W engine;
  playerIsFalling := @playerIsFalling W engine;
  playerDestroyed := @playerDestroyed W engine;
  takeStateSnapshot := @takeStateSnapshot W engine;
  restoreStateSnapshot := @compareStateSnapshot W more;
  startRecording := @startRecording W engine;
  stopRecording := @stopRecording W engine;
  getRecordedReplay := @getRecordedReplay W engine;
  isGameplayActive := @isGameplayActive W engine;
  startGame := @startGame W engine;
  resetLevelFromStart := @resetLevelFromStart W engine
|}.

End Part001.

(** ** One snapshot for the whole search *)
Module SnapshotLaw.

(** The engine keeps the snapshot of the last [takeStateSnapshot], and
    nothing the search does after it changes what
    [restoreStateSnapshot] returns to: not an update, not the button, not
    a restore. *)
Definition singleSnapshot {W : Type} `{PlayLayer W} : Prop :=
  (forall w : W, restoreStateSnapshot (update w) = restoreStateSnapshot w) /\
  (forall w : W,
      restoreStateSnapshot (pushButton w) = restoreStateSnapshot w) /\
  (forall w : W,
      restoreStateSnapshot (restoreStateSnapshot w) = restoreStateSnapshot w).

End SnapshotLaw.

(** ** src/unnamed/part_000: the export handler and the last report *)
Module Part000Export.

(** [onExportClicked] (lines 120-142): the file written, as name and
    content, or [None] when it only logs "No replay recorded yet.".
    [levelName] is [None] when there is no current layer or level. *)
Definition onExportClicked (levelName : option string) (t : Z)
           (m_lastReplayData : string) : option (string * string) :=
  if String.eqb m_lastReplayData EmptyString then None
  else Some (Randomized.exportNameGdr levelName t, m_lastReplayData).

(** The text the status label shows: the newest status of a trace. *)
Fixpoint lastStatus (tr : list Event) : option string :=
  match tr with
  | [] => None
  | EvStatus msg :: _ => Some msg
  | _ :: older => lastStatus older
  end.

End Part000Export.

(** ** src/src/main.cpp: the button, the modal and the status label *)
Module MainUI.

(** What the handlers of lines 265-384 and the label updates of
    [onSolverFinished] read and write.  A status label is named by the
    number of the modal it was created for; [m_modalLayer] is the modal
    shown, [m_modalStatusLabel] the pointer the mod object keeps.  Ghost
    counters: the argument of the last [pauseGame] call, the modals
    created, the solver threads started and finished, and the [setString]
    calls that went to the label of a modal no longer shown. *)
Record Screen : Type := mkScreen {
  m_autoMacroButton : bool;
  m_modalLayer : option nat;
  m_modalStatusLabel : option nat;
  paused : bool;
  modals : nat;
  started : nat;
  finished : nat;
  staleWrites : nat
}.

Definition initial : Screen := mkScreen false None None false 0 0 0 0.

(** [onEnter] (lines 270-308), when the button item can be created. *)
Definition onEnter (s : Screen) : Screen :=
  if negb (m_autoMacroButton s)
  then mkScreen true (m_modalLayer s) (m_modalStatusLabel s) (paused s)
                (modals s) (started s) (finished s) (staleWrites s)
  else s.

(** [onMacroButton] (lines 311-363) with a current [PlayLayer]: the modal
    is toggled; opening it calls [onRequestMacro], which pauses the game
    and starts a solver thread. *)
Definition onMacroButton (s : Screen) : Screen :=
  match m_modalLayer s with
  | Some _ =>
    mkScreen (m_autoMacroButton s) None None false
             (modals s) (started s) (finished s) (staleWrites s)
  | None =>
    mkScreen (m_autoMacroButton s) (Some (modals s)) (Some (modals s)) true
             (S (modals s)) (S (started s)) (finished s) (staleWrites s)
  end.

(** [onModalClose] (lines 366-373) with a current [PlayLayer]. *)
Definition onModalClose (s : Screen) : Screen :=
  mkScreen (m_autoMacroButton s) None (m_modalStatusLabel s) false
           (modals s) (started s) (finished s) (staleWrites s).

(** [onModalExport] (lines 376-380) only logs. *)
Definition onModalExport (s : Screen) : Screen := s.

(** [onSolverFinished] as the screen sees it: one [setString] on the
    label the mod points to, if any, and the game unpaused unless a replay
    was exported. *)
Definition solverFinished (exported : bool) (s : Screen) : Screen :=
  let stale :=
    match m_modalStatusLabel s, m_modalLayer s with
    | Some l, Some shown => negb (l =? shown)%nat
    | Some _, None => true
    | None, _ => false
    end in
  mkScreen (m_autoMacroButton s) (m_modalLayer s) (m_modalStatusLabel s)
           (if exported then paused s else false)
           (modals s) (started s) (S (finished s))
           (if stale then S (staleWrites s) else staleWrites s).

Inductive Action : Type :=
| Enter
| PressM
| ClickX
| ClickExport
| SolverFinishes (exported : bool).

Definition enabled (a : Action) (s : Screen) : bool :=
  match a with
  | Enter => true
  | PressM => m_autoMacroButton s
  | ClickX | ClickExport =>
    match m_modalLayer s with Some _ => true | None => false end
  | SolverFinishes _ => (finished s <? started s)%nat
  end.

Definition act (a : Action) (s : Screen) : Screen :=
  match a with
  | Enter => onEnter s
  | PressM => onMacroButton s
  | ClickX => onModalClose s
  | ClickExport => onModalExport s
  | SolverFinishes exported => solverFinished exported s
  end.

Fixpoint run (actions : list Action) (s : Screen) : option Screen :=
  match actions with
  | [] => Some s
  | a :: rest => if enabled a s then run rest (act a s) else None
  end.

Definition isClickX (a : Action) : bool :=
  match a with ClickX => true | _ => false end.

(** What every reachable screen satisfies: the modal shown is the one
    the mod's label pointer belongs to, and it is one that was created. *)
Definition consistent (s : Screen) : Prop :=
  (finished s <= started s)%nat /\
  started s = modals s /\
  match m_modalLayer s with
  | Some shown =>
    m_modalStatusLabel s = Some shown /\ (shown < modals s)%nat
  | None => True
  end.

(** What holds as long as the X of the modal was never clicked: the
    pointer is null exactly when no modal is shown, and no label update
    went astray. *)
Definition tidy (s : Screen) : Prop :=
  m_modalStatusLabel s = m_modalLayer s /\ staleWrites s = O.

End MainUI.

(** * Properties *)

(** ** Shared arithmetic and list facts *)

Lemma elapsed_ms_mono (a b start : Z) :
  a <= b -> elapsed_ms a start <= elapsed_ms b start.
Proof.
  intros Hab. unfold elapsed_ms, ns_per_ms.
  apply Z.quot_le_mono; lia.
Qed.

Lemma pop_push {A : Type} (v : list A) (x : A) :
  pop_back (push_back v x) = v.
Proof. unfold pop_back, push_back. apply removelast_last. Qed.

Lemma length_push {A : Type} (v : list A) (x : A) :
  Z.of_nat (List.length (push_back v x)) = Z.of_nat (List.length v) + 1.
Proof. unfold push_back. rewrite length_app. simpl. lia. Qed.

Lemma filter_none {A : Type} (f : A -> bool) (l : list A) :
  (forall x : A, In x l -> f x = false) -> filter f l = [].
Proof.
  induction l as [|a l IH]; intros Hall; simpl; [reflexivity|].
  rewrite (Hall a (or_introl eq_refl)). apply IH.
  intros x Hx. apply Hall. now right.
Qed.

(** ** src/src/main.cpp *)
Module MainCppFacts.
Import MainCpp.

Section Facts.
Variable clk : Clock.

Lemma pure_dfs_eq (fuel : nat) (start frame : Z) (s : Solver) :
  dfs clk (S fuel) start frame s =
  let s1 := snd (clock_now clk s) in
  if elapsed_ms (clk (reads s)) start >? SOLVER_TIMEOUT_MS
  then Some (false, s1)
  else if frame >=? MAX_SEARCH_FRAMES then Some (false, s1)
  else if (frame >? 0) && (frame * 10 >? SUCCESS_X_THRESHOLD)
  then Some (true, record_found s1)
  else
    match dfs clk fuel start (frame + 1) (seq_push false s1) with
    | None => None
    | Some (true, s2) => Some (true, s2)
    | Some (false, s2) =>
      match dfs clk fuel start (frame + 1)
                (seq_push true (seq_pop s2)) with
      | None => None
      | Some (true, s3) => Some (true, s3)
      | Some (false, s3) => Some (false, seq_pop s3)
      end
    end.
Proof. reflexivity. Qed.

(** The search returns: the recursion is no deeper than
    [MAX_SEARCH_FRAMES] calls. *)
Lemma pure_dfs_total :
  forall (fuel : nat) (start frame : Z) (s : Solver),
    0 <= frame ->
    (Z.to_nat (MAX_SEARCH_FRAMES - frame) < fuel)%nat ->
    dfs clk fuel start frame s <> None.
Proof.
  induction fuel as [|fuel IH]; intros start frame s Hf Hfuel; [lia|].
  rewrite pure_dfs_eq. cbv zeta.
  destruct (elapsed_ms _ _ >? _); [discriminate|].
  destruct (frame >=? MAX_SEARCH_FRAMES) eqn:Hmax; [discriminate|].
  destruct ((frame >? 0) && _); [discriminate|].
  assert (Hrec : forall s', dfs clk fuel start (frame + 1) s' <> None).
  { intros s'. apply IH; [lia|].
    unfold MAX_SEARCH_FRAMES in *. lia. }
  destruct (dfs clk fuel start (frame + 1) (seq_push false _))
    as [[[|] s2]|] eqn:E1; try discriminate.
  - destruct (dfs clk fuel start (frame + 1) (seq_push true _))
      as [[[|] s3]|] eqn:E2; try discriminate.
    exfalso. exact (Hrec _ E2).
  - exfalso. exact (Hrec _ E1).
Qed.

(** The first descent: from frame [501 - n], with the clock within the
    timeout for the next [n + 1] readings, the search succeeds along
    "no click" only. *)
Lemma dfs_descends :
  forall (n fuel : nat) (start frame : Z) (s : Solver),
    frame = 501 - Z.of_nat n ->
    (n <= 501)%nat ->
    (n < fuel)%nat ->
    (forall k : nat, (reads s <= k <= reads s + n)%nat ->
                     elapsed_ms (clk k) start <= SOLVER_TIMEOUT_MS) ->
    exists s' : Solver,
      dfs clk fuel start frame s = Some (true, s') /\
      foundSequence s' = seq s ++ repeat noClick n.
Proof.
  induction n as [|n IH]; intros fuel start frame s Hfr Hn Hfuel Hclk;
    (destruct fuel as [|fuel]; [lia|]); rewrite pure_dfs_eq; cbv zeta;
    (assert (Hnow : (elapsed_ms (clk (reads s)) start >? SOLVER_TIMEOUT_MS)
                    = false)
       by (pose proof (Hclk (reads s)); lia));
    rewrite Hnow.
  - subst frame. simpl. eexists. split; [reflexivity|].
    simpl. now rewrite app_nil_r.
  - assert (Hmax : (frame >=? MAX_SEARCH_FRAMES) = false)
      by (unfold MAX_SEARCH_FRAMES; lia).
    assert (Hsucc : (frame >? 0) && (frame * 10 >? SUCCESS_X_THRESHOLD)
                    = false).
    { apply andb_false_iff. right. unfold SUCCESS_X_THRESHOLD. lia. }
    rewrite Hmax, Hsucc.
    destruct (IH fuel start (frame + 1)
                 (seq_push false (snd (clock_now clk s))))
      as [s' [Hrun Hfound]]; try lia.
    { intros k Hk. apply Hclk. simpl in Hk. lia. }
    rewrite Hrun. exists s'. split; [reflexivity|].
    rewrite Hfound. simpl. unfold push_back.
    rewrite <- app_assoc. reflexivity.
Qed.

(** Once the timeout has passed on a monotone clock, every call
    returns "not found" at once, changing nothing but the count of
    readings and the trace. *)
Lemma dfs_late :
  forall (fuel r0 : nat) (start frame : Z) (s : Solver),
    clock_monotone clk ->
    elapsed_ms (clk r0) start > SOLVER_TIMEOUT_MS ->
    (r0 <= reads s)%nat ->
    dfs clk (S fuel) start frame s = Some (false, snd (clock_now clk s)).
Proof.
  intros fuel r0 start frame s Hmono Hlate Hr.
  rewrite pure_dfs_eq. cbv zeta.
  assert (H : (elapsed_ms (clk (reads s)) start >? SOLVER_TIMEOUT_MS) = true).
  { pose proof (elapsed_ms_mono _ _ start (Hmono _ _ Hr)). lia. }
  now rewrite H.
Qed.

(** The first descent when the timeout is first seen at reading [k]:
    the search unwinds with nothing found. *)
Lemma dfs_times_out :
  forall (n fuel k : nat) (start frame : Z) (s : Solver),
    clock_monotone clk ->
    elapsed_ms (clk k) start > SOLVER_TIMEOUT_MS ->
    (forall j : nat, (reads s <= j < k)%nat ->
                     elapsed_ms (clk j) start <= SOLVER_TIMEOUT_MS) ->
    k = (reads s + n)%nat ->
    (k <= 502)%nat ->
    Z.of_nat (reads s) = frame + 1 ->
    (n < fuel)%nat ->
    exists s' : Solver,
      dfs clk fuel start frame s = Some (false, s') /\
      foundSequence s' = foundSequence s /\
      seq s' = seq s /\
      (k < reads s')%nat.
Proof.
  induction n as [|n IH];
    intros fuel k start frame s Hmono Hlate Hearly Hk Hk502 Hfr Hfuel;
    (destruct fuel as [|fuel]; [lia|]).
  - replace k with (reads s) in Hlate by lia.
    rewrite (dfs_late fuel (reads s)); auto.
    eexists. split; [reflexivity|]. simpl. repeat split; lia.
  - rewrite pure_dfs_eq. cbv zeta.
    assert (Hnow : (elapsed_ms (clk (reads s)) start >? SOLVER_TIMEOUT_MS)
                   = false)
      by (pose proof (Hearly (reads s)); lia).
    assert (Hmax : (frame >=? MAX_SEARCH_FRAMES) = false)
      by (unfold MAX_SEARCH_FRAMES; lia).
    assert (Hsucc : (frame >? 0) && (frame * 10 >? SUCCESS_X_THRESHOLD)
                    = false).
    { apply andb_false_iff. right. unfold SUCCESS_X_THRESHOLD. lia. }
    rewrite Hnow, Hmax, Hsucc.
    assert (Hrec : exists s2 : Solver,
               dfs clk fuel start (frame + 1)
                   (seq_push false (snd (clock_now clk s)))
               = Some (false, s2) /\
               foundSequence s2 = foundSequence s /\
               seq s2 = push_back (seq s) noClick /\
               (k < reads s2)%nat).
    { apply (IH fuel k); auto; simpl; try lia.
      intros j Hj. apply Hearly. lia. }
    destruct Hrec as [s2 [Hrun [Hfound [Hseq Hreads]]]].
    rewrite Hrun.
    destruct fuel as [|fuel]; [lia|].
    rewrite (dfs_late fuel k); auto; [|simpl; lia].
    eexists. split; [reflexivity|]. simpl.
    rewrite Hfound, Hseq. rewrite !pop_push.
    repeat split; lia.
Qed.

(** The length invariant of the search: the vector [seq] holds [frame]
    entries when [dfs(frame)] is entered, no [push_back] takes it past
    [MAX_SEARCH_FRAMES], and a failed call leaves it as it found it. *)
Lemma pure_dfs_lengths :
  forall (fuel : nat) (start frame : Z) (s : Solver) (b : bool)
         (s' : Solver),
    dfs clk fuel start frame s = Some (b, s') ->
    Z.of_nat (List.length (seq s)) = frame ->
    frame <= MAX_SEARCH_FRAMES ->
    Forall (pushBounded MAX_SEARCH_FRAMES) (trace s) ->
    Z.of_nat (List.length (foundSequence s)) <= MAX_SEARCH_FRAMES ->
    Forall (pushBounded MAX_SEARCH_FRAMES) (trace s') /\
    Z.of_nat (List.length (foundSequence s')) <= MAX_SEARCH_FRAMES /\
    Z.of_nat (List.length (seq s')) <= MAX_SEARCH_FRAMES /\
    (b = false -> seq s' = seq s).
Proof.
  induction fuel as [|fuel IH];
    intros start frame s b s' Hrun Hlen Hcap Htr Hfs; [discriminate|].
  rewrite pure_dfs_eq in Hrun. cbv zeta in Hrun.
  assert (Htr1 : Forall (pushBounded MAX_SEARCH_FRAMES)
                        (trace (snd (clock_now clk s))))
    by (simpl; constructor; [exact I | exact Htr]).
  destruct (elapsed_ms _ _ >? _).
  { injection Hrun as <- <-. simpl. repeat split; auto. lia. }
  destruct (frame >=? MAX_SEARCH_FRAMES) eqn:Hmax.
  { injection Hrun as <- <-. simpl. repeat split; auto. lia. }
  destruct ((frame >? 0) && _).
  { injection Hrun as <- <-. simpl.
    repeat split; auto; try lia; try discriminate. }
  assert (Hpush : forall (c : bool) (t : Solver),
             seq t = seq s ->
             Forall (pushBounded MAX_SEARCH_FRAMES) (trace t) ->
             Z.of_nat (List.length (seq (seq_push c t))) = frame + 1 /\
             Forall (pushBounded MAX_SEARCH_FRAMES)
                    (trace (seq_push c t))).
  { intros c t Ht Htt. unfold seq_push. simpl.
    rewrite length_push, Ht. split; [lia|].
    constructor; [simpl; lia | exact Htt]. }
  destruct (dfs clk fuel start (frame + 1) (seq_push false _))
    as [[[|] s2]|] eqn:E1; try discriminate.
  - injection Hrun as <- <-.
    destruct (Hpush false (snd (clock_now clk s)) eq_refl Htr1)
      as [Hl1 Ht1].
    destruct (IH _ _ _ _ _ E1 Hl1 ltac:(lia) Ht1 Hfs)
      as [Ha [Hb [Hc _]]].
    repeat split; auto; try discriminate.
  - destruct (Hpush false (snd (clock_now clk s)) eq_refl Htr1)
      as [Hl1 Ht1].
    destruct (IH _ _ _ _ _ E1 Hl1 ltac:(lia) Ht1 Hfs)
      as [Ha [Hb [_ Hd]]].
    specialize (Hd eq_refl).
    assert (Hpop : seq (seq_pop s2) = seq s).
    { simpl. rewrite Hd. simpl. apply pop_push. }
    assert (Htp : Forall (pushBounded MAX_SEARCH_FRAMES)
                         (trace (seq_pop s2)))
      by (simpl; constructor; [exact I | exact Ha]).
    destruct (Hpush true (seq_pop s2) Hpop Htp) as [Hl2 Ht2].
    destruct (dfs clk fuel start (frame + 1) (seq_push true _))
      as [[[|] s3]|] eqn:E2; try discriminate;
      injection Hrun as <- <-;
      destruct (IH _ _ _ _ _ E2 Hl2 ltac:(lia) Ht2 Hb)
        as [Ha3 [Hb3 [Hc3 Hd3]]].
    + repeat split; auto; try discriminate.
    + specialize (Hd3 eq_refl). simpl.
      assert (Hfin : pop_back (seq s3) = seq s).
      { rewrite Hd3. unfold seq_push. cbn [seq].
        rewrite pop_push. exact Hpop. }
      rewrite Hfin. repeat split; auto; try lia.
      constructor; [exact I | exact Ha3].
Qed.

Lemma classic_first (start : Z) :
  forall n : nat,
    (forall j : nat, (1 <= j <= n)%nat ->
                     elapsed_ms (clk j) start <= SOLVER_TIMEOUT_MS) \/
    (exists k : nat, (1 <= k <= n)%nat /\
                     elapsed_ms (clk k) start > SOLVER_TIMEOUT_MS).
Proof.
  induction n as [|n [IH|[k [Hk Hl]]]].
  - left. intros j Hj. lia.
  - destruct (Z_le_gt_dec (elapsed_ms (clk (S n)) start)
                          SOLVER_TIMEOUT_MS) as [Hle|Hgt].
    + left. intros j Hj.
      destruct (Nat.eq_dec j (S n)) as [->|]; [exact Hle|].
      apply IH. lia.
    + right. exists (S n). split; [lia | exact Hgt].
  - right. exists k. split; [lia | exact Hl].
Qed.

(** The earliest of the first [n] readings that is past the timeout. *)
Lemma first_late (start : Z) :
  forall n : nat,
    (exists k : nat, (1 <= k <= n)%nat /\
                     elapsed_ms (clk k) start > SOLVER_TIMEOUT_MS) ->
    exists k : nat,
      (1 <= k <= n)%nat /\
      elapsed_ms (clk k) start > SOLVER_TIMEOUT_MS /\
      forall j : nat, (1 <= j < k)%nat ->
                      elapsed_ms (clk j) start <= SOLVER_TIMEOUT_MS.
Proof.
  induction n as [|n IH]; intros [k [Hk Hlate]]; [lia|].
  destruct (Z_le_gt_dec (elapsed_ms (clk (S n)) start) SOLVER_TIMEOUT_MS)
    as [Hle|Hgt].
  - destruct IH as [k' [Hk' [Hl' Hf']]].
    { exists k. split; [|exact Hlate].
      destruct (Nat.eq_dec k (S n)) as [->|]; lia. }
    exists k'. repeat split; auto; lia.
  - destruct (classic_first start n) as [Hnone|Hsome].
    + exists (S n). repeat split; auto; try lia.
      intros j Hj. apply Hnone. lia.
    + destruct (IH Hsome) as [k' [Hk' [Hl' Hf']]].
      exists k'. repeat split; auto; lia.
Qed.

(** A search that returns true has just copied [seq]: nothing touches
    [seq] between the assignment of line 122 and the return of [dfs(0)]. *)
Lemma dfs_true_seq :
  forall (fuel : nat) (start frame : Z) (s s' : Solver),
    dfs clk fuel start frame s = Some (true, s') ->
    foundSequence s' = seq s'.
Proof.
  induction fuel as [|fuel IH]; intros start frame s s' Hrun;
    [discriminate|].
  rewrite pure_dfs_eq in Hrun. cbv zeta in Hrun.
  destruct (elapsed_ms _ _ >? _); [discriminate|].
  destruct (frame >=? MAX_SEARCH_FRAMES); [discriminate|].
  destruct ((frame >? 0) && _).
  { injection Hrun as <-. reflexivity. }
  destruct (dfs clk fuel start (frame + 1) (seq_push false _))
    as [[[|] s2]|] eqn:E1; try discriminate.
  - injection Hrun as <-. exact (IH _ _ _ _ E1).
  - destruct (dfs clk fuel start (frame + 1) (seq_push true _))
      as [[[|] s3]|] eqn:E2; try discriminate.
    injection Hrun as <-. exact (IH _ _ _ _ E2).
Qed.

Lemma solverThreadState_eq :
  solverThreadState clk =
  dfs clk dfs_fuel (clk O) 0 (mkSolver [] [] 1 [EvClock (clk O)]).
Proof. reflexivity. Qed.

End Facts.
End MainCppFacts.

(** C9 as the code has it.  The search of the solver thread of
    src/src/main.cpp always comes to an end, and where it ends does not
    depend on the copied player position.  When none of its first 502 clock
    readings is more than [SOLVER_TIMEOUT_MS] after the start it arrives at
    the assignment of line 122 with 501 "no click" frames in [seq], 501
    being the least frame count [f] with [f * 10 > 5000]; when one of them
    is, on a monotone clock, [dfs(0)] returns false without arriving
    there. *)
Theorem solverThread_outcome :
  forall (clk : Clock) (F : Type) (inp : MainCpp.SolverInput F),
    (exists r, MainCpp.solverThread clk inp = Some r) /\
    (forall (F' : Type) (inp' : MainCpp.SolverInput F'),
        MainCpp.solverThread clk inp' = MainCpp.solverThread clk inp) /\
    ((forall k : nat, (1 <= k <= 502)%nat ->
         elapsed_ms (clk k) (clk O) <= MainCpp.SOLVER_TIMEOUT_MS) ->
     MainCpp.solverThread clk inp
     = Some (MainCpp.ReachedAssignment (repeat noClick 501))) /\
    (clock_monotone clk ->
     (exists k : nat, (1 <= k <= 502)%nat /\
         elapsed_ms (clk k) (clk O) > MainCpp.SOLVER_TIMEOUT_MS) ->
     MainCpp.solverThread clk inp = Some MainCpp.ReturnedFalse) /\
    (501 * 10 > MainCpp.SUCCESS_X_THRESHOLD /\
     forall f : Z, f * 10 > MainCpp.SUCCESS_X_THRESHOLD -> 501 <= f).
Proof.
  intros clk F inp.
  unfold MainCpp.solverThread.
  rewrite MainCppFacts.solverThreadState_eq.
  split; [|split; [|split; [|split]]].
  - destruct (MainCpp.dfs clk MainCpp.dfs_fuel (clk O) 0
                          (MainCpp.mkSolver [] [] 1 [EvClock (clk O)]))
      as [[[|] s]|] eqn:E.
    + eexists. reflexivity.
    + eexists. reflexivity.
    + exfalso. revert E. apply MainCppFacts.pure_dfs_total; [lia|].
      unfold MainCpp.dfs_fuel. lia.
  - intros F' inp'. reflexivity.
  - intros Hclk.
    assert (Hfuel : (501 < MainCpp.dfs_fuel)%nat)
      by (unfold MainCpp.dfs_fuel, MainCpp.MAX_SEARCH_FRAMES; lia).
    destruct (MainCppFacts.dfs_descends clk 501 MainCpp.dfs_fuel (clk O) 0
                (MainCpp.mkSolver [] [] 1 [EvClock (clk O)])
                eq_refl (Nat.le_refl _) Hfuel)
      as [s' [Hrun Hfound]].
    + intros k Hk. apply Hclk. cbn [MainCpp.reads] in Hk. lia.
    + rewrite Hrun.
      rewrite <- (MainCppFacts.dfs_true_seq clk _ _ _ _ _ Hrun), Hfound.
      reflexivity.
  - intros Hmono Hex.
    destruct (MainCppFacts.first_late clk (clk O) 502 Hex)
      as [k [Hk [Hlate Hearly]]].
    assert (Hfuel : (k - 1 < MainCpp.dfs_fuel)%nat)
      by (unfold MainCpp.dfs_fuel, MainCpp.MAX_SEARCH_FRAMES; lia).
    destruct (MainCppFacts.dfs_times_out clk (k - 1) MainCpp.dfs_fuel k
                (clk O) 0 (MainCpp.mkSolver [] [] 1 [EvClock (clk O)])
                Hmono Hlate)
      as [s' [Hrun _]]; cbn [MainCpp.reads]; auto; try lia.
    rewrite Hrun. reflexivity.
  - unfold MainCpp.SUCCESS_X_THRESHOLD. split; [lia|]. intros f Hf. lia.
Qed.

(** C9, the claim against the code: when the solver thread is suspended
    for 41 seconds between two calls of [dfs] (here after its 100th clock
    reading, the readings being a microsecond apart otherwise), the next
    call sees the timeout, [dfs(0)] returns false and the all-false
    sequence of length 501 is never built. *)
Lemma solverThread_suspended_finds_nothing :
  MainCpp.solverThread (Toy.clockWithPause 1000 100 41000000000)
                       (MainCpp.mkInput Z 0 0)
  = Some MainCpp.ReturnedFalse /\
  MainCpp.solverThread (Toy.clockWithPause 1000 100 41000000000)
                       (MainCpp.mkInput Z 0 0)
  <> Some (MainCpp.ReachedAssignment (repeat noClick 501)).
Proof.
  assert (E : MainCpp.solverThread
                (Toy.clockWithPause 1000 100 41000000000)
                (MainCpp.mkInput Z 0 0)
              = Some MainCpp.ReturnedFalse) by (vm_compute; reflexivity).
  split; [exact E|]. rewrite E. discriminate.
Qed.

Lemma clockEvery_monotone (ns : Z) :
  0 <= ns -> clock_monotone (Toy.clockEvery ns).
Proof.
  intros Hns i j Hij. unfold Toy.clockEvery. nia.
Qed.

(** [solverThread_outcome] at a clock ticking every microsecond, and at
    the slow clock. *)
Lemma solverThread_outcome_witness :
  MainCpp.solverThread (Toy.clockEvery 1000) (MainCpp.mkInput Z 0 0)
  = Some (MainCpp.ReachedAssignment (repeat noClick 501)) /\
  MainCpp.solverThread (Toy.clockEvery 100000000) (MainCpp.mkInput Z 0 0)
  = Some MainCpp.ReturnedFalse.
Proof.
  split.
  - apply (solverThread_outcome (Toy.clockEvery 1000) Z
                                (MainCpp.mkInput Z 0 0)).
    intros k Hk.
    unfold Toy.clockEvery, elapsed_ms, ns_per_ms, MainCpp.SOLVER_TIMEOUT_MS.
    apply Z.quot_le_upper_bound; lia.
  - apply (solverThread_outcome (Toy.clockEvery 100000000) Z
                                (MainCpp.mkInput Z 0 0)).
    + apply clockEvery_monotone. lia.
    + exists 401%nat. split; [lia|]. vm_compute. reflexivity.
Defined.

(** ** src/unnamed/part_000 *)
Module BacktrackingFacts.
Import Backtracking.

Section Facts.
Context {W : Type} {engine : PlayLayer W}.
Variable clk : Clock.

Lemma engine_dfs_eq (fuel : nat) (startTime frame : Z) (s : Solver W) :
  dfs clk (S fuel) startTime frame s =
  let s1 := snd (clock_now clk s) in
  if elapsed_ms (clk (reads s)) startTime >? TIMEOUT_MS
  then Some (false, s1)
  else if frame >=? MAX_SEARCH_FRAMES then Some (false, s1)
  else if getCurrentPercentInt (pl s1) >=? 100
  then Some (true, record_best s1)
  else if playerDead (pl s1) then Some (false, s1)
  else
    match dfs clk fuel startTime (frame + 1)
              (cur_push false (do_update s1)) with
    | None => None
    | Some (true, s2) => Some (true, s2)
    | Some (false, s2) =>
      match dfs clk fuel startTime (frame + 1)
                (cur_push true
                   (do_update (do_click (cur_pop (do_restore s2)))))
      with
      | None => None
      | Some (true, s3) => Some (true, s3)
      | Some (false, s3) => Some (false, cur_pop (do_restore s3))
      end
    end.
Proof. reflexivity. Qed.

(** The search returns: the recursion is no deeper than
    [MAX_SEARCH_FRAMES] calls. *)
Lemma engine_dfs_total :
  forall (fuel : nat) (startTime frame : Z) (s : Solver W),
    0 <= frame ->
    (Z.to_nat (MAX_SEARCH_FRAMES - frame) < fuel)%nat ->
    dfs clk fuel startTime frame s <> None.
Proof.
  induction fuel as [|fuel IH]; intros startTime frame s Hf Hfuel; [lia|].
  rewrite engine_dfs_eq. cbv zeta.
  destruct (elapsed_ms _ _ >? _); [discriminate|].
  destruct (frame >=? MAX_SEARCH_FRAMES) eqn:Hmax; [discriminate|].
  destruct (getCurrentPercentInt _ >=? 100); [discriminate|].
  destruct (playerDead _); [discriminate|].
  assert (Hrec : forall s', dfs clk fuel startTime (frame + 1) s' <> None).
  { intros s'. apply IH; [lia|].
    unfold MAX_SEARCH_FRAMES in *. lia. }
  destruct (dfs clk fuel startTime (frame + 1) (cur_push false _))
    as [[[|] s2]|] eqn:E1; try discriminate.
  - destruct (dfs clk fuel startTime (frame + 1) (cur_push true _))
      as [[[|] s3]|] eqn:E2; try discriminate.
    exfalso. exact (Hrec _ E2).
  - exfalso. exact (Hrec _ E1).
Qed.

Lemma current_do_click (s : Solver W) :
  current (do_click s) = current s.
Proof. unfold do_click. destruct (m_player1 (pl s)); reflexivity. Qed.

Lemma bestSequence_do_click (s : Solver W) :
  bestSequence (do_click s) = bestSequence s.
Proof. unfold do_click. destruct (m_player1 (pl s)); reflexivity. Qed.

Lemma trace_do_click (bound : Z) (s : Solver W) :
  Forall (pushBounded bound) (trace s) ->
  Forall (pushBounded bound) (trace (do_click s)).
Proof.
  intros Hs. unfold do_click. destruct (m_player1 (pl s)); [|exact Hs].
  simpl. constructor; [exact I | exact Hs].
Qed.

(** The length invariant of the search: [current] holds [frame]
    entries when [dfs(frame)] is entered, no [push_back] takes it past
    [MAX_SEARCH_FRAMES], and a failed call leaves it as it found it. *)
Lemma engine_dfs_lengths :
  forall (fuel : nat) (startTime frame : Z) (s : Solver W) (b : bool)
         (s' : Solver W),
    dfs clk fuel startTime frame s = Some (b, s') ->
    Z.of_nat (List.length (current s)) = frame ->
    frame <= MAX_SEARCH_FRAMES ->
    Forall (pushBounded MAX_SEARCH_FRAMES) (trace s) ->
    Z.of_nat (List.length (bestSequence s)) <= MAX_SEARCH_FRAMES ->
    Forall (pushBounded MAX_SEARCH_FRAMES) (trace s') /\
    Z.of_nat (List.length (bestSequence s')) <= MAX_SEARCH_FRAMES /\
    Z.of_nat (List.length (current s')) <= MAX_SEARCH_FRAMES /\
    (b = false -> current s' = current s).
Proof.
  induction fuel as [|fuel IH];
    intros startTime frame s b s' Hrun Hlen Hcap Htr Hbs; [discriminate|].
  rewrite engine_dfs_eq in Hrun. cbv zeta in Hrun.
  assert (Htr1 : Forall (pushBounded MAX_SEARCH_FRAMES)
                        (trace (snd (clock_now clk s))))
    by (simpl; constructor; [exact I | exact Htr]).
  destruct (elapsed_ms _ _ >? _).
  { injection Hrun as <- <-. simpl. repeat split; auto. lia. }
  destruct (frame >=? MAX_SEARCH_FRAMES) eqn:Hmax.
  { injection Hrun as <- <-. simpl. repeat split; auto. lia. }
  destruct (getCurrentPercentInt _ >=? 100).
  { injection Hrun as <- <-. simpl.
    repeat split; auto; try lia; try discriminate. }
  destruct (playerDead _).
  { injection Hrun as <- <-. simpl. repeat split; auto. lia. }
  assert (Hpush : forall (c : bool) (t : Solver W),
             current t = current s ->
             Forall (pushBounded MAX_SEARCH_FRAMES) (trace t) ->
             Z.of_nat (List.length (current (cur_push c (do_update t))))
             = frame + 1 /\
             Forall (pushBounded MAX_SEARCH_FRAMES)
                    (trace (cur_push c (do_update t)))).
  { intros c t Ht Htt. unfold cur_push, do_update. simpl.
    rewrite length_push, Ht. split; [lia|].
    constructor; [simpl; lia|]. constructor; [exact I | exact Htt]. }
  destruct (Hpush false (snd (clock_now clk s)) eq_refl Htr1)
    as [Hl1 Ht1].
  destruct (dfs clk fuel startTime (frame + 1) (cur_push false _))
    as [[[|] s2]|] eqn:E1; try discriminate.
  - injection Hrun as <- <-.
    destruct (IH _ _ _ _ _ E1 Hl1 ltac:(lia) Ht1 Hbs)
      as [Ha [Hb [Hc _]]].
    repeat split; auto; try discriminate.
  - destruct (IH _ _ _ _ _ E1 Hl1 ltac:(lia) Ht1 Hbs)
      as [Ha [Hb [_ Hd]]].
    specialize (Hd eq_refl).
    set (t := do_click (cur_pop (do_restore s2))) in *.
    assert (Hpop : current t = current s).
    { unfold t. rewrite current_do_click. simpl. rewrite Hd.
      simpl. apply pop_push. }
    assert (Htp : Forall (pushBounded MAX_SEARCH_FRAMES) (trace t)).
    { unfold t. apply trace_do_click. simpl.
      repeat (constructor; [exact I|]). exact Ha. }
    assert (Hbt : bestSequence t = bestSequence s2)
      by (unfold t; rewrite bestSequence_do_click; reflexivity).
    destruct (Hpush true t Hpop Htp) as [Hl2 Ht2].
    rewrite <- Hbt in Hb.
    destruct (dfs clk fuel startTime (frame + 1) (cur_push true _))
      as [[[|] s3]|] eqn:E2; try discriminate;
      injection Hrun as <- <-;
      destruct (IH _ _ _ _ _ E2 Hl2 ltac:(lia) Ht2 Hb)
        as [Ha3 [Hb3 [Hc3 Hd3]]].
    + repeat split; auto; try discriminate.
    + specialize (Hd3 eq_refl). simpl.
      assert (Hfin : pop_back (current s3) = current s).
      { rewrite Hd3. unfold cur_push, do_update. cbn [current].
        rewrite pop_push. exact Hpop. }
      rewrite Hfin. repeat split; auto; try lia.
      repeat (constructor; [exact I|]). exact Ha3.
Qed.

Lemma runSolverAndRecord_eq (w : W) :
  runSolverAndRecord clk w =
  match dfs clk dfs_fuel (clk O) 0 (snd (clock_now clk (prepare w))) with
  | None => None
  | Some (ok, s) => Some (ok, wrapUp ok s)
  end.
Proof. reflexivity. Qed.

Lemma runSolverAndRecord_total (w : W) :
  runSolverAndRecord clk w <> None.
Proof.
  rewrite runSolverAndRecord_eq.
  destruct (dfs clk dfs_fuel (clk O) 0 _) as [[ok s]|] eqn:E;
    [discriminate|].
  exfalso. revert E. apply engine_dfs_total; [lia|].
  unfold dfs_fuel. lia.
Qed.

Lemma wrapUp_keeps (bound : Z) (ok : bool) (s : Solver W) :
  Forall (pushBounded bound) (trace s) ->
  Forall (pushBounded bound) (trace (wrapUp ok s)) /\
  bestSequence (wrapUp ok s) = bestSequence s /\
  current (wrapUp ok s) = current s.
Proof.
  intros Hs. unfold wrapUp.
  destruct ok; cbv zeta;
    match goal with
    | |- context [negb ?x] => destruct (negb x)
    end;
    simpl; repeat split; repeat (constructor; [exact I|]); exact Hs.
Qed.

(** No [push_back] of a whole run takes [current] past
    [MAX_SEARCH_FRAMES], and neither vector ends longer than that. *)
Lemma runSolverAndRecord_lengths (w : W) (b : bool) (s : Solver W) :
  runSolverAndRecord clk w = Some (b, s) ->
  Forall (pushBounded MAX_SEARCH_FRAMES) (trace s) /\
  Z.of_nat (List.length (bestSequence s)) <= MAX_SEARCH_FRAMES /\
  Z.of_nat (List.length (current s)) <= MAX_SEARCH_FRAMES.
Proof.
  rewrite runSolverAndRecord_eq.
  destruct (dfs clk dfs_fuel (clk O) 0 _) as [[ok s1]|] eqn:E;
    [|discriminate].
  intros Hrun. injection Hrun as <- <-.
  apply engine_dfs_lengths in E.
  - destruct E as [Ht [Hb [Hc _]]].
    destruct (wrapUp_keeps MAX_SEARCH_FRAMES ok s1 Ht) as [Ht' [Hb' Hc']].
    rewrite Hb', Hc'. auto.
  - reflexivity.
  - unfold MAX_SEARCH_FRAMES. lia.
  - simpl. repeat (constructor; [exact I|]). constructor.
  - simpl. unfold MAX_SEARCH_FRAMES. lia.
Qed.

End Facts.
End BacktrackingFacts.

(** ** src/unnamed/part_002: the trial search *)
Module RandomizedFacts.
Import Randomized.

(** *** The click-frame list *)

Lemma clickFrames_bounds :
  forall (sq : list FrameInput) (i0 i : Z),
    In i (clickFrames i0 sq) ->
    i0 <= i < i0 + Z.of_nat (List.length sq).
Proof.
  induction sq as [|x sq IH]; intros i0 i Hin; simpl in *; [contradiction|].
  destruct (click x).
  - destruct Hin as [<-|Hin]; [lia|]. apply IH in Hin. lia.
  - apply IH in Hin. lia.
Qed.

Lemma clickFrames_below (sq : list FrameInput) (i0 i : Z) :
  i < i0 -> existsb (Z.eqb i) (clickFrames i0 sq) = false.
Proof.
  intros Hlt. destruct (existsb (Z.eqb i) (clickFrames i0 sq)) eqn:E;
    [|reflexivity].
  apply existsb_exists in E. destruct E as [j [Hin Heq]].
  apply clickFrames_bounds in Hin. lia.
Qed.

(** Frame [i0 + j] is listed exactly when entry [j] clicks. *)
Lemma clickFrames_mem :
  forall (sq : list FrameInput) (i0 : Z) (j : nat),
    (j < List.length sq)%nat ->
    existsb (Z.eqb (i0 + Z.of_nat j)) (clickFrames i0 sq)
    = click (nth j sq noClick).
Proof.
  induction sq as [|x sq IH]; intros i0 j Hj; simpl in Hj; [lia|].
  destruct j as [|j].
  - simpl. destruct (click x); simpl.
    + replace (i0 + 0 =? i0) with true by lia. reflexivity.
    + apply clickFrames_below. lia.
  - replace (i0 + Z.of_nat (S j)) with (i0 + 1 + Z.of_nat j) by lia.
    simpl. destruct (click x); simpl.
    + replace (i0 + 1 + Z.of_nat j =? i0) with false by lia.
      simpl. apply IH. lia.
    + apply IH. lia.
Qed.

(** The listed frames up to [i0 + n - 1] are those of the first [n]
    entries. *)
Lemma clickFrames_firstn :
  forall (sq : list FrameInput) (i0 : Z) (n : nat),
    filter (fun i => i <? i0 + Z.of_nat n) (clickFrames i0 sq)
    = clickFrames i0 (firstn n sq).
Proof.
  induction sq as [|x sq IH]; intros i0 n.
  - rewrite firstn_nil. reflexivity.
  - destruct n as [|n].
    + simpl firstn. simpl clickFrames at 2.
      apply filter_none. intros i Hin.
      apply (clickFrames_bounds (x :: sq)) in Hin. cbv beta. apply Z.ltb_ge. lia.
    + change (firstn (S n) (x :: sq)) with (x :: firstn n sq).
      cbn [clickFrames]. specialize (IH (i0 + 1) n).
      replace (i0 + 1 + Z.of_nat n) with (i0 + Z.of_nat (S n)) in IH by lia.
      destruct (click x).
      * cbn [filter].
        replace (i0 <? i0 + Z.of_nat (S n)) with true
          by (symmetry; apply Z.ltb_lt; lia).
        now rewrite IH.
      * exact IH.
Qed.

Section Facts.
Context {W : Type} {engine : PlayLayer W}.
Context {R F : Type} {random : RandomSource R F}.
Variable clk : Clock.

(** Playing a click-frame list that agrees with [rest] from frame [f0]
    on is replaying [rest]. *)
Lemma replayClicks_replay :
  forall (n : nat) (rest : list FrameInput) (f0 : Z) (cs : list Z)
         (w : W),
    (n <= List.length rest)%nat ->
    (forall j : nat, (j < List.length rest)%nat ->
        existsb (Z.eqb (f0 + Z.of_nat j)) cs
        = click (nth j rest noClick)) ->
    replayClicks n f0 cs w = replay w (firstn n rest).
Proof.
  induction n as [|n IH]; intros rest f0 cs w Hn Hcs; [reflexivity|].
  destruct rest as [|x rest]; simpl in Hn; [lia|].
  pose proof (Hcs O ltac:(simpl; lia)) as Hz. simpl in Hz.
  replace (f0 + 0) with f0 in Hz by lia.
  change (replay w (firstn (S n) (x :: rest)))
    with (replay (stepFrame w x) (firstn n rest)).
  cbn [replayClicks]. rewrite Hz. fold (stepFrame w x).
  apply IH; [lia|].
  intros j Hj. specialize (Hcs (S j) ltac:(simpl; lia)).
  simpl nth in Hcs. rewrite <- Hcs. f_equal. f_equal. lia.
Qed.

(** A trial that ends in success at frame [f] played the frames
    [f0 .. f] of its sequence, met neither success nor inactive
    gameplay before [f], and stopped in the engine state reached. *)
Lemma simulate_succeeded :
  forall (rest : list FrameInput) (f0 : Z) (w : W) (f : Z) (w' : W),
    simulate f0 rest w = (Succeeded f, w') ->
    exists n : nat,
      f = f0 + Z.of_nat n /\
      (n < List.length rest)%nat /\
      w' = replay w (firstn (S n) rest) /\
      getCurrentPercentInt w' >= 100 /\
      forall m : nat, (1 <= m <= n)%nat ->
        getCurrentPercentInt (replay w (firstn m rest)) < 100 /\
        isGameplayActive (replay w (firstn m rest)) = true.
Proof.
  induction rest as [|x rest IH]; intros f0 w f w' Hsim; simpl in Hsim;
    [discriminate|].
  destruct (getCurrentPercentInt (update (applyClick (click x) w)) >=? 100)
    eqn:Hpc.
  - injection Hsim as <- <-. exists O. simpl.
    repeat split; try lia.
  - destruct (isGameplayActive (update (applyClick (click x) w)))
      eqn:Hact; simpl in Hsim; [|discriminate].
    apply IH in Hsim.
    destruct Hsim as [n [Hf [Hn [Hw [Hp Hbefore]]]]].
    exists (S n).
    split; [lia|]. split; [simpl; lia|].
    split; [exact Hw|]. split; [exact Hp|].
    intros m Hm. destruct m as [|m]; [lia|].
    destruct m as [|m].
    + simpl. unfold stepFrame. split; [lia | exact Hact].
    + apply (Hbefore (S m)). lia.
Qed.

Lemma genSeq_length :
  forall (n : nat) (p : F) (r : R),
    List.length (fst (genSeq n p r)) = n.
Proof.
  induction n as [|n IH]; intros p r; simpl; [reflexivity|].
  destruct (uniform_real lit_0_0 lit_1_0 r) as [u r1].
  specialize (IH p r1). destruct (genSeq n p r1) as [rest r2].
  simpl in *. now rewrite IH.
Qed.

(** What one pass through the loop body leaves behind. *)
Lemma trialBody_spec (trial now : Z) (s : Run W R F) :
  exists (entry : Trial F),
    trials (trialBody trial now s) = entry :: trials s /\
    t_trial entry = trial /\
    t_checked entry = now /\
    t_seqLen entry
    = fst (uniform_int 60 (Z.min MAX_SEARCH_FRAMES 600) (rng s)) /\
    t_clickProb entry
    = fst (uniform_real lit_0_01 lit_0_15
             (snd (uniform_int 60 (Z.min MAX_SEARCH_FRAMES 600) (rng s)))) /\
    List.length (t_seq entry) = Z.to_nat (t_seqLen entry) /\
    simulate 0 (t_seq entry) (trialReset (pl s))
    = (t_outcome entry, pl (trialBody trial now s)) /\
    reads (trialBody trial now s) = reads s /\
    modal (trialBody trial now s) = modal s /\
    match t_outcome entry with
    | Succeeded _ =>
      found (trialBody trial now s) = true /\
      foundClicks (trialBody trial now s) = clickFrames 0 (t_seq entry)
    | _ =>
      found (trialBody trial now s) = found s /\
      foundClicks (trialBody trial now s) = foundClicks s
    end.
Proof.
  unfold trialBody.
  destruct (uniform_int 60 (Z.min MAX_SEARCH_FRAMES 600) (rng s))
    as [seqLen r1].
  cbn [fst snd].
  destruct (uniform_real lit_0_01 lit_0_15 r1) as [clickProb r2].
  pose proof (genSeq_length (Z.to_nat seqLen) clickProb r2) as Hlen.
  destruct (genSeq (Z.to_nat seqLen) clickProb r2) as [sq r3].
  destruct (simulate 0 sq (trialReset (pl s))) as [outcome w] eqn:Hsim.
  exists (mkTrial trial now seqLen clickProb sq outcome).
  simpl in Hlen.
  destruct outcome; destruct (Z.rem trial 10 =? 0); simpl;
    repeat split; auto.
Qed.

Lemma trialLoop_eq (fuel : nat) (deadline trial : Z) (s : Run W R F) :
  trialLoop clk (S fuel) deadline trial s =
  if negb (trial <? MAX_TRIALS) then Some s
  else
    let s1 := snd (clock_now clk s) in
    if negb (clk (reads s) <? deadline) then Some s1
    else if found s then Some s1
    else trialLoop clk fuel deadline (trial + 1)
                   (trialBody trial (clk (reads s)) s1).
Proof. reflexivity. Qed.

(** The loop ends: it makes at most [MAX_TRIALS] passes. *)
Lemma trialLoop_total :
  forall (fuel : nat) (deadline trial : Z) (s : Run W R F),
    (Z.to_nat (MAX_TRIALS - trial) < fuel)%nat ->
    trialLoop clk fuel deadline trial s <> None.
Proof.
  induction fuel as [|fuel IH]; intros deadline trial s Hfuel; [lia|].
  rewrite trialLoop_eq. cbv zeta.
  destruct (trial <? MAX_TRIALS) eqn:Ht; cbn [negb]; [|discriminate].
  destruct (clk (reads s) <? deadline); cbn [negb]; [|discriminate].
  destruct (found s); [discriminate|].
  apply IH. unfold MAX_TRIALS in *. lia.
Qed.

(** Induction over the passes of the loop. *)
Lemma trialLoop_invariant (P : Run W R F -> Prop) (deadline : Z) :
  (forall s : Run W R F, P s -> P (snd (clock_now clk s))) ->
  (forall (trial : Z) (s : Run W R F),
      P s -> found s = false -> clk (reads s) < deadline ->
      trial < MAX_TRIALS ->
      P (trialBody trial (clk (reads s)) (snd (clock_now clk s)))) ->
  forall (fuel : nat) (trial : Z) (s s' : Run W R F),
    trialLoop clk fuel deadline trial s = Some s' -> P s -> P s'.
Proof.
  intros Hread Hbody.
  induction fuel as [|fuel IH]; intros trial s s' Hrun Hs; [discriminate|].
  rewrite trialLoop_eq in Hrun. cbv zeta in Hrun.
  destruct (trial <? MAX_TRIALS) eqn:Ht; cbn [negb] in Hrun;
    [|injection Hrun as <-; exact Hs].
  destruct (clk (reads s) <? deadline) eqn:Hd; cbn [negb] in Hrun;
    [|injection Hrun as <-; apply Hread; exact Hs].
  destruct (found s) eqn:Hf;
    [injection Hrun as <-; apply Hread; exact Hs|].
  apply (IH _ _ _ Hrun). apply Hbody; auto; lia.
Qed.

Lemma trialBody_good (deadline trial : Z) (s : Run W R F) :
  int_in_range -> real_in_range -> literals_ordered ->
  clk (reads s) < deadline ->
  Forall (goodTrial deadline) (trials s) ->
  Forall (goodTrial deadline)
         (trials (trialBody trial (clk (reads s))
                            (snd (clock_now clk s)))).
Proof.
  intros Hint Hreal Hlit Hd Hs.
  destruct (trialBody_spec trial (clk (reads s)) (snd (clock_now clk s)))
    as [entry [Htr [_ [Hadm [Hlen [Hprob [Hsq _]]]]]]].
  rewrite Htr. constructor; [|exact Hs].
  unfold goodTrial. rewrite Hadm, Hprob, Hsq, Hlen.
  assert (Hmin : Z.min MAX_SEARCH_FRAMES 600 = 600) by reflexivity.
  rewrite Hmin.
  pose proof (Hint 60 600 (rng (snd (clock_now clk s))) ltac:(lia)).
  destruct (Hreal lit_0_01 lit_0_15
              (snd (uniform_int 60 600 (rng (snd (clock_now clk s)))))
              Hlit) as [Hlo Hhi].
  repeat split; auto; lia.
Qed.

Lemma trialBody_found (trial now : Z) (s : Run W R F) :
  found s = false ->
  foundByLastTrial (trialBody trial now s).
Proof.
  intros Hnot Hfound.
  destruct (trialBody_spec trial now s)
    as [entry [Htr [_ [_ [_ [_ [_ [Hsim [_ [_ Hout]]]]]]]]]].
  destruct (t_outcome entry) as [f|f|] eqn:Eo.
  - exists entry, (trials s), f, (pl s).
    destruct Hout as [_ Hclicks]. repeat split; auto.
  - destruct Hout as [Hsame _]. congruence.
  - destruct Hout as [Hsame _]. congruence.
Qed.

Lemma finish_keeps (s : Run W R F) :
  pl (finish s) = pl s /\
  found (finish s) = found s /\
  foundClicks (finish s) = foundClicks s /\
  trials (finish s) = trials s /\
  running (modal (finish s)) = false.
Proof.
  unfold finish. destruct (found s) eqn:Hf; simpl; repeat split; auto.
Qed.

Lemma finish_status (s : Run W R F) :
  exists older : list string,
    status (finish s)
    = (if found s then "Ready to export (click Export)."
       else "No run found (timeout / trials exhausted).")%string
        :: older.
Proof.
  unfold finish. destruct (found s); simpl; eexists; reflexivity.
Qed.

Lemma finish_replay_data (s : Run W R F) :
  found s = true ->
  lastReplayData (modal (finish s)) = encodeClicks (foundClicks s).
Proof. intros Hf. unfold finish. rewrite Hf. reflexivity. Qed.

Lemma search_eq (s : Run W R F) :
  search clk s =
  match trialLoop clk loop_fuel (clk (reads s) + TIMEOUT_MS * ns_per_ms)
                  0 (snd (clock_now clk s)) with
  | None => None
  | Some s' => Some (finish s')
  end.
Proof. reflexivity. Qed.

(** What a completed search has established. *)
Lemma search_spec (s s' : Run W R F) :
  search clk s = Some s' ->
  trials s = [] -> found s = false ->
  foundByLastTrial s' /\
  (int_in_range -> real_in_range -> literals_ordered ->
   Forall (goodTrial (clk (reads s) + TIMEOUT_MS * ns_per_ms))
          (trials s')).
Proof.
  intros Hrun Hnil Hnot. rewrite search_eq in Hrun.
  destruct (trialLoop clk loop_fuel _ 0 _) as [s1|] eqn:Hloop;
    [|discriminate].
  injection Hrun as <-.
  destruct (finish_keeps s1) as [Hpl [Hf [Hc [Ht _]]]].
  split.
  - assert (H1 : foundByLastTrial s1).
    { refine (trialLoop_invariant foundByLastTrial _ _ _ _ _ _ _ Hloop _).
      - intros t Ht'. exact Ht'.
      - intros trial t _ Hnf _ _. apply trialBody_found. exact Hnf.
      - intros Hyes. simpl in Hyes. congruence. }
    intros Hyes. rewrite Hf in Hyes.
    destruct (H1 Hyes) as [entry [rest [f [w0 [Ha [Hb [Hc' Hd]]]]]]].
    exists entry, rest, f, w0. rewrite Ht, Hpl, Hc. auto.
  - intros Hint Hreal Hlit. rewrite Ht.
    refine (trialLoop_invariant
              (fun t => Forall (goodTrial _) (trials t))
              _ _ _ _ _ _ _ Hloop _).
    + intros t Ht'. exact Ht'.
    + intros trial t Hgood _ Hd _. apply trialBody_good; auto.
    + simpl. rewrite Hnil. constructor.
Qed.

(** Whatever every pass of the loop body guarantees of the entry it
    logs holds of all logged trials. *)
Lemma search_trials (Q : Trial F -> Prop) (s s' : Run W R F) :
  search clk s = Some s' ->
  trials s = [] ->
  (forall (trial now : Z) (s0 : Run W R F) (entry : Trial F),
      trials (trialBody trial now s0) = entry :: trials s0 -> Q entry) ->
  Forall Q (trials s').
Proof.
  intros Hrun Hnil Hbody. rewrite search_eq in Hrun.
  destruct (trialLoop clk loop_fuel _ 0 _) as [s1|] eqn:Hloop;
    [|discriminate].
  injection Hrun as <-.
  destruct (finish_keeps s1) as [_ [_ [_ [Ht _]]]]. rewrite Ht.
  refine (trialLoop_invariant (fun t => Forall Q (trials t))
                              _ _ _ _ _ _ _ Hloop _).
  - intros t Ht'. exact Ht'.
  - intros trial t Hq _ _ _.
    destruct (trialBody_spec trial (clk (reads t)) (snd (clock_now clk t)))
      as [entry [Htr _]].
    rewrite Htr. constructor; [|exact Hq].
    exact (Hbody _ _ _ _ Htr).
  - simpl. rewrite Hnil. constructor.
Qed.

(** Every logged trial has the drawn length, between 60 and 600. *)
Lemma search_lengths (s s' : Run W R F) :
  int_in_range ->
  search clk s = Some s' ->
  trials s = [] ->
  Forall (fun t : Trial F =>
            60 <= t_seqLen t <= 600 /\
            Z.of_nat (List.length (t_seq t)) = t_seqLen t)
         (trials s').
Proof.
  intros Hint Hrun Hnil.
  apply (search_trials _ s s' Hrun Hnil).
  intros trial now s0 entry Htr.
  destruct (trialBody_spec trial now s0)
    as [entry' [Htr' [_ [_ [Hlen [_ [Hsq _]]]]]]].
  rewrite Htr in Htr'. injection Htr' as <-.
  pose proof (Hint 60 600 (rng s0) ltac:(lia)) as Hr.
  assert (Hmin : Z.min MAX_SEARCH_FRAMES 600 = 600) by reflexivity.
  rewrite Hmin in Hlen. rewrite <- Hlen in Hr.
  split; [exact Hr|]. rewrite Hsq. lia.
Qed.

(** While the deadline has not passed at the first check, the first
    trial is run. *)
Lemma search_runs_first_trial (s s' : Run W R F) :
  search clk s = Some s' ->
  found s = false ->
  clk (S (reads s)) < clk (reads s) + TIMEOUT_MS * ns_per_ms ->
  trials s' <> [].
Proof.
  intros Hrun Hnot Hclk. rewrite search_eq in Hrun.
  destruct (trialLoop clk loop_fuel _ 0 _) as [s1|] eqn:Hloop;
    [|discriminate].
  injection Hrun as <-.
  destruct (finish_keeps s1) as [_ [_ [_ [Ht _]]]]. rewrite Ht.
  unfold loop_fuel in Hloop. rewrite trialLoop_eq in Hloop.
  cbv zeta in Hloop.
  change (0 <? MAX_TRIALS) with true in Hloop. cbn [negb] in Hloop.
  change (reads (snd (clock_now clk s))) with (S (reads s)) in Hloop.
  replace (clk (S (reads s)) <? clk (reads s) + TIMEOUT_MS * ns_per_ms)
    with true in Hloop by lia.
  cbn [negb] in Hloop.
  change (found (snd (clock_now clk s))) with (found s) in Hloop.
  rewrite Hnot in Hloop.
  refine (trialLoop_invariant (fun t => trials t <> [])
                              _ _ _ _ _ _ _ Hloop _).
  - intros t Ht'. exact Ht'.
  - intros trial t _ _ _ _.
    destruct (trialBody_spec trial (clk (reads t)) (snd (clock_now clk t)))
      as [entry [Htr _]].
    rewrite Htr. discriminate.
  - match goal with
    | |- trials (trialBody ?a ?b ?c) <> [] =>
      destruct (trialBody_spec a b c) as [entry [Htr _]]
    end.
    rewrite Htr. discriminate.
Qed.

Lemma search_total (s : Run W R F) : search clk s <> None.
Proof.
  rewrite search_eq.
  destruct (trialLoop clk loop_fuel _ 0 _) eqn:Hloop; [discriminate|].
  exfalso. revert Hloop. apply trialLoop_total.
  unfold loop_fuel, MAX_TRIALS. lia.
Qed.

Lemma solverRun_eq (w : W) (seed : R) (g : ModalState) :
  solverRun clk w seed g =
  search clk (mkRun (ensureStarted w) seed 1 false []
                    ["Solver starting..."%string] g []).
Proof. reflexivity. Qed.

End Facts.
End RandomizedFacts.

(** *** The toy random sources keep the promises of the distributions *)

Lemma walking_int_in_range : @Randomized.int_in_range Z Z Toy.walking.
Proof.
  intros a b r Hab. simpl.
  pose proof (Z.mod_pos_bound (r * 7) (Z.max 1 (b - a + 1)) ltac:(lia)).
  lia.
Qed.

Lemma walking_real_in_range : @Randomized.real_in_range Z Z Toy.walking.
Proof.
  intros a b r Hab. simpl in *.
  pose proof (Z.mod_pos_bound (r * 37) (Z.max 1 (b - a + 1)) ltac:(lia)).
  split; apply Z.ltb_ge; apply Z.ltb_ge in Hab; lia.
Qed.

(** C10.  Every trial the randomized search executes draws its length
    through [uniform_int_distribution<int>(60, min(MAX_SEARCH_FRAMES, 600))]
    with [MAX_SEARCH_FRAMES = 1800], so the bound is 600, and its click
    probability through [uniform_real_distribution<float>(0.01f, 0.15f)].
    With distributions that return values between their bounds, as the
    standard requires, every trial is between 60 and 600 frames long and
    its click probability lies between 0.01 and 0.15. *)
Theorem trial_draws_in_source_ranges :
  forall (W : Type) (engine : PlayLayer W) (R F : Type)
         (random : Randomized.RandomSource R F) (clk : Clock)
         (w : W) (seed : R) (g : Randomized.ModalState)
         (s : Randomized.Run W R F),
    Randomized.int_in_range ->
    Randomized.real_in_range ->
    Randomized.literals_ordered ->
    Randomized.solverRun clk w seed g = Some s ->
    Randomized.MAX_SEARCH_FRAMES = 1800 /\
    Z.min Randomized.MAX_SEARCH_FRAMES 600 = 600 /\
    (forall (trial now : Z) (s0 : Randomized.Run W R F),
        exists (entry : Randomized.Trial F),
          Randomized.trials (Randomized.trialBody trial now s0)
          = entry :: Randomized.trials s0 /\
          Randomized.t_seqLen entry
          = fst (Randomized.uniform_int
                   60 (Z.min Randomized.MAX_SEARCH_FRAMES 600)
                   (Randomized.rng s0)) /\
          Randomized.t_clickProb entry
          = fst (Randomized.uniform_real
                   Randomized.lit_0_01 Randomized.lit_0_15
                   (snd (Randomized.uniform_int
                           60 (Z.min Randomized.MAX_SEARCH_FRAMES 600)
                           (Randomized.rng s0))))) /\
    Forall (fun t : Randomized.Trial F =>
              60 <= Randomized.t_seqLen t <= 600 /\
              Z.of_nat (List.length (Randomized.t_seq t))
              = Randomized.t_seqLen t /\
              Randomized.f_lt (Randomized.t_clickProb t) Randomized.lit_0_01
              = false /\
              Randomized.f_lt Randomized.lit_0_15 (Randomized.t_clickProb t)
              = false)
           (Randomized.trials s).
Proof.
  intros W engine R F random clk w seed g s Hint Hreal Hlit Hrun.
  split; [reflexivity|]. split; [reflexivity|]. split.
  - intros trial now s0.
    destruct (RandomizedFacts.trialBody_spec trial now s0)
      as [entry [Htr [_ [_ [Hlen [Hprob _]]]]]].
    exists entry. auto.
  - rewrite RandomizedFacts.solverRun_eq in Hrun.
    destruct (RandomizedFacts.search_spec clk _ _ Hrun eq_refl eq_refl)
      as [_ Hgood].
    specialize (Hgood Hint Hreal Hlit).
    eapply Forall_impl; [|exact Hgood].
    intros t [Hlen [Hsq [Hlo [Hhi _]]]].
    repeat split; auto; lia.
Qed.

(** [trial_draws_in_source_ranges] on a level no trial survives, with the
    walking random source: all 500 trials are run. *)
Lemma trial_draws_in_source_ranges_witness :
  exists s : Randomized.Run (Toy.Slot (Z * option Z)) Z Z,
    @Randomized.solverRun _ (Toy.slotEngine Toy.earlyJump) _ _ Toy.walking
      (Toy.clockEvery 1000) (Toy.fresh Toy.earlyJump true) 0
      (Randomized.mkModal EmptyString true) = Some s /\
    Forall (fun t : Randomized.Trial Z =>
              60 <= Randomized.t_seqLen t <= 600 /\
              Z.of_nat (List.length (Randomized.t_seq t))
              = Randomized.t_seqLen t /\
              (Randomized.t_clickProb t <? 10) = false /\
              (150 <? Randomized.t_clickProb t) = false)
           (Randomized.trials s).
Proof.
  destruct (@Randomized.solverRun _ (Toy.slotEngine Toy.earlyJump) _ _
              Toy.walking (Toy.clockEvery 1000)
              (Toy.fresh Toy.earlyJump true) 0
              (Randomized.mkModal EmptyString true)) as [s|] eqn:Hrun.
  - exists s. split; [reflexivity|].
    apply (trial_draws_in_source_ranges
             _ (Toy.slotEngine Toy.earlyJump) _ _ Toy.walking
             (Toy.clockEvery 1000) (Toy.fresh Toy.earlyJump true) 0
             (Randomized.mkModal EmptyString true) s
             walking_int_in_range walking_real_in_range eq_refl Hrun).
  - exfalso. revert Hrun. rewrite RandomizedFacts.solverRun_eq.
    apply RandomizedFacts.search_total.
Defined.

(** C1 as the code has it.  A run the randomized search found replays
    from the reset the search itself makes before a trial:
    [resetLevelFromStart] followed by the two warm-up updates of lines
    92-94.  On any engine whose [resetLevelFromStart] returns to one
    initial state, the newest trial succeeded at some frame [f], and on
    every instance playing the recorded click frames from such a reset
    reaches after [f + 1] frames exactly the engine state in which the
    search stopped, with the level complete, and before that meets neither
    a complete level nor inactive gameplay: success fires at the same frame
    index on every instance. *)
Theorem found_run_replays :
  forall (W : Type) (engine : PlayLayer W) (R F : Type)
         (random : Randomized.RandomSource R F) (clk : Clock)
         (w : W) (seed : R) (g : Randomized.ModalState)
         (s : Randomized.Run W R F),
    (forall w1 w2 : W, resetLevelFromStart w1 = resetLevelFromStart w2) ->
    Randomized.solverRun clk w seed g = Some s ->
    Randomized.found s = true ->
    exists (f : nat) (entry : Randomized.Trial F)
           (older : list (Randomized.Trial F)),
      Randomized.trials s = entry :: older /\
      Randomized.t_outcome entry = Randomized.Succeeded (Z.of_nat f) /\
      forall instance : W,
        Randomized.replayClicks (S f) 0 (Randomized.foundClicks s)
                                (Randomized.trialReset instance)
        = Randomized.pl s /\
        getCurrentPercentInt (Randomized.pl s) >= 100 /\
        (forall n : nat, (1 <= n <= f)%nat ->
           getCurrentPercentInt
             (Randomized.replayClicks n 0 (Randomized.foundClicks s)
                                      (Randomized.trialReset instance)) < 100 /\
           isGameplayActive
             (Randomized.replayClicks n 0 (Randomized.foundClicks s)
                                      (Randomized.trialReset instance)) = true).
Proof.
  intros W engine R F random clk w seed g s Hreset Hrun Hfound.
  rewrite RandomizedFacts.solverRun_eq in Hrun.
  destruct (RandomizedFacts.search_spec clk _ _ Hrun eq_refl eq_refl)
    as [Hlast _].
  destruct (Hlast Hfound)
    as [entry [rest [f [w0 [Htrials [Hout [Hsim Hclicks]]]]]]].
  destruct (RandomizedFacts.simulate_succeeded _ _ _ _ _ Hsim)
    as [n [Hf [Hn [Hpl [Hpc Hbefore]]]]].
  assert (Hsame : forall v : W,
             Randomized.trialReset v = Randomized.trialReset w0).
  { intros v. unfold Randomized.trialReset. now rewrite (Hreset v w0). }
  assert (Hplay : forall (m : nat) (v : W), (m <= S n)%nat ->
             Randomized.replayClicks m 0 (Randomized.foundClicks s)
                                     (Randomized.trialReset v)
             = replay (Randomized.trialReset w0)
                      (firstn m (Randomized.t_seq entry))).
  { intros m v Hm. rewrite Hsame, Hclicks.
    apply RandomizedFacts.replayClicks_replay; [lia|].
    intros j Hj. apply RandomizedFacts.clickFrames_mem. exact Hj. }
  exists n, entry, rest.
  split; [exact Htrials|].
  split; [rewrite Hout; f_equal; lia|].
  intros instance.
  split; [rewrite Hplay by lia; symmetry; exact Hpl|].
  split; [exact Hpc|].
  intros m Hm. rewrite Hplay by lia. apply Hbefore. exact Hm.
Qed.

(** On [Toy.jumpAtTwo] a run whose first jump was made at position 0
    keeps that mark, and so never completes the level. *)
Lemma jumpAtTwo_marked (n : nat) :
  forall (f : Z) (clicks : list Z) (w : Toy.Slot (Z * option Z)),
    snd (Toy.cur w) = Some 0 ->
    snd (Toy.cur (@Randomized.replayClicks _ (Toy.slotEngine Toy.jumpAtTwo)
                    n f clicks w)) = Some 0.
Proof.
  induction n as [|n IH]; intros f clicks w Hw; [exact Hw|].
  cbn [Randomized.replayClicks]. apply IH.
  destruct (existsb (Z.eqb f) clicks); cbn; rewrite Hw; reflexivity.
Qed.

(** The first trial of [Toy.jumpAtTwo_run] succeeds; its clicks include
    frame 0. *)
Lemma jumpAtTwo_run_is_found :
  option_map (fun s => (Randomized.found s,
                        existsb (Z.eqb 0) (Randomized.foundClicks s),
                        @getCurrentPercentInt
                          _ (Toy.slotEngine Toy.jumpAtTwo)
                          (Randomized.pl s)))
             Toy.jumpAtTwo_run
  = Some (true, true, 100).
Proof. vm_compute. reflexivity. Qed.

(** C1, the claim against the code: on [Toy.jumpAtTwo] the search finds a
    run, and the level is complete in the state it stops in; but the
    recorded click frames count from after the two warm-up updates, and
    played against an instance that was only reset with
    [resetLevelFromStart] they never complete the level, however many
    frames are played. *)
Lemma found_run_fails_from_plain_reset :
  exists s : Randomized.Run (Toy.Slot (Z * option Z)) Z Z,
    @Randomized.solverRun _ (Toy.slotEngine Toy.jumpAtTwo) _ _ Toy.lowest
      (Toy.clockEvery 1000) (Toy.fresh Toy.jumpAtTwo true) 0
      (Randomized.mkModal EmptyString true) = Some s /\
    Randomized.found s = true /\
    @getCurrentPercentInt _ (Toy.slotEngine Toy.jumpAtTwo) (Randomized.pl s)
    >= 100 /\
    forall n : nat,
      @getCurrentPercentInt _ (Toy.slotEngine Toy.jumpAtTwo)
        (@Randomized.replayClicks _ (Toy.slotEngine Toy.jumpAtTwo) n 0
           (Randomized.foundClicks s)
           (@resetLevelFromStart _ (Toy.slotEngine Toy.jumpAtTwo)
              (Toy.fresh Toy.jumpAtTwo true)))
      < 100.
Proof.
  pose proof jumpAtTwo_run_is_found as E. unfold Toy.jumpAtTwo_run in E.
  destruct (@Randomized.solverRun _ (Toy.slotEngine Toy.jumpAtTwo) _ _
              Toy.lowest (Toy.clockEvery 1000)
              (Toy.fresh Toy.jumpAtTwo true) 0
              (Randomized.mkModal EmptyString true)) as [s|];
    [|discriminate].
  cbn [option_map] in E. injection E as Hfound Hzero Hpc.
  exists s. split; [reflexivity|]. split; [exact Hfound|].
  split.
  { assert (Hp : @getCurrentPercentInt _ (Toy.slotEngine Toy.jumpAtTwo)
                   (Randomized.pl s) = 100) by exact Hpc.
    rewrite Hp. lia. }
  intros [|n].
  - cbn. lia.
  - cbn [Randomized.replayClicks]. rewrite Hzero.
    assert (Hmark : snd (Toy.cur
                (@Randomized.replayClicks _ (Toy.slotEngine Toy.jumpAtTwo)
                   n (0 + 1) (Randomized.foundClicks s)
                   (@update _ (Toy.slotEngine Toy.jumpAtTwo)
                      (@applyClick _ (Toy.slotEngine Toy.jumpAtTwo) true
                         (@resetLevelFromStart _ (Toy.slotEngine Toy.jumpAtTwo)
                            (Toy.fresh Toy.jumpAtTwo true))))))
              = Some 0)
      by (apply jumpAtTwo_marked; reflexivity).
    cbn [getCurrentPercentInt Toy.slotEngine Toy.lv_percent Toy.jumpAtTwo].
    rewrite Hmark. lia.
Qed.

(** The run used below: the five-frame level, the lowest random source, a
    clock ticking every microsecond.  Its first trial succeeds. *)
Lemma shortFlat_run_is_found (s : Randomized.Run (Toy.Slot Z) Z Z) :
  @Randomized.solverRun _ (Toy.slotEngine Toy.shortFlat) _ _ Toy.lowest
    (Toy.clockEvery 1000) (Toy.fresh Toy.shortFlat true) 0
    (Randomized.mkModal EmptyString true) = Some s ->
  Randomized.found s = true.
Proof.
  intros Hrun.
  assert (E : option_map (@Randomized.found _ _ _)
                (@Randomized.solverRun _ (Toy.slotEngine Toy.shortFlat)
                   _ _ Toy.lowest (Toy.clockEvery 1000)
                   (Toy.fresh Toy.shortFlat true) 0
                   (Randomized.mkModal EmptyString true)) = Some true)
    by (vm_compute; reflexivity).
  rewrite Hrun in E. simpl in E. now injection E.
Qed.

(** [found_run_replays] on [Toy.jumpAtTwo], where the clicks decide the
    outcome, with the lowest random source: the first trial succeeds at
    frame 2, and the recorded clicks played from a trial reset of an
    instance left in the middle of another run, gameplay stopped, end in
    the state the search stopped in. *)
Lemma found_run_replays_witness :
  exists (s : Randomized.Run (Toy.Slot (Z * option Z)) Z Z),
    @Randomized.solverRun _ (Toy.slotEngine Toy.jumpAtTwo) _ _ Toy.lowest
      (Toy.clockEvery 1000) (Toy.fresh Toy.jumpAtTwo true) 0
      (Randomized.mkModal EmptyString true) = Some s /\
    Randomized.found s = true /\
    @Randomized.replayClicks _ (Toy.slotEngine Toy.jumpAtTwo) 3 0
      (Randomized.foundClicks s)
      (@Randomized.trialReset _ (Toy.slotEngine Toy.jumpAtTwo)
         (Toy.mkSlot (7, Some 4) (1, None) false))
    = Randomized.pl s.
Proof.
  pose proof jumpAtTwo_run_is_found as E. unfold Toy.jumpAtTwo_run in E.
  destruct (@Randomized.solverRun _ (Toy.slotEngine Toy.jumpAtTwo) _ _
              Toy.lowest (Toy.clockEvery 1000)
              (Toy.fresh Toy.jumpAtTwo true) 0
              (Randomized.mkModal EmptyString true)) as [s|] eqn:Hrun;
    [|discriminate].
  cbn [option_map] in E. injection E as Hfound Hzero Hpc.
  destruct (found_run_replays
              _ (Toy.slotEngine Toy.jumpAtTwo) _ _ Toy.lowest
              (Toy.clockEvery 1000) (Toy.fresh Toy.jumpAtTwo true) 0
              (Randomized.mkModal EmptyString true) s
              (fun w1 w2 => eq_refl) Hrun Hfound)
    as [f [entry [older [Htrials [Hout Hall]]]]].
  exists s. split; [reflexivity|]. split; [exact Hfound|].
  assert (Hf : f = 2%nat).
  { assert (E2 : option_map
                   (fun s => match Randomized.trials s with
                             | t :: _ => Some (Randomized.t_outcome t)
                             | [] => None
                             end) Toy.jumpAtTwo_run
                 = Some (Some (Randomized.Succeeded 2)))
      by (vm_compute; reflexivity).
    unfold Toy.jumpAtTwo_run in E2. rewrite Hrun in E2. cbn [option_map] in E2.
    rewrite Htrials, Hout in E2. injection E2 as E2. lia. }
  subst f.
  exact (proj1 (Hall (Toy.mkSlot (7, Some 4) (1, None) false))).
Defined.

(** C6 as the code has it.  When the randomized search reports a run, the
    newest trial is the one that succeeded, at some frame [f] inside its
    sequence; the reported click frames are those of the WHOLE generated
    sequence (and so is the text stored for export); restricted to the
    frames [0 .. f] they are the click frames of the prefix played. *)
Theorem found_clicks_list_whole_trial :
  forall (W : Type) (engine : PlayLayer W) (R F : Type)
         (random : Randomized.RandomSource R F) (clk : Clock)
         (w : W) (seed : R) (g : Randomized.ModalState)
         (s : Randomized.Run W R F),
    Randomized.solverRun clk w seed g = Some s ->
    Randomized.found s = true ->
    exists (entry : Randomized.Trial F) (rest : list (Randomized.Trial F))
           (f : Z),
      Randomized.trials s = entry :: rest /\
      Randomized.t_outcome entry = Randomized.Succeeded f /\
      0 <= f < Z.of_nat (List.length (Randomized.t_seq entry)) /\
      Randomized.foundClicks s
      = Randomized.clickFrames 0 (Randomized.t_seq entry) /\
      Randomized.lastReplayData (Randomized.modal s)
      = Randomized.encode (Randomized.t_seq entry) /\
      filter (fun i => i <=? f) (Randomized.foundClicks s)
      = Randomized.clickFrames
          0 (firstn (Z.to_nat (f + 1)) (Randomized.t_seq entry)).
Proof.
  intros W engine R F random clk w seed g s Hrun Hfound.
  rewrite RandomizedFacts.solverRun_eq in Hrun.
  destruct (RandomizedFacts.search_spec clk _ _ Hrun eq_refl eq_refl)
    as [Hlast _].
  destruct (Hlast Hfound) as [entry [rest [f [w0 [Htr [Hout [Hsim Hclicks]]]]]]].
  destruct (RandomizedFacts.simulate_succeeded _ _ _ _ _ Hsim)
    as [n [Hf [Hn _]]].
  exists entry, rest, f. repeat split; auto; try lia.
  - rewrite RandomizedFacts.search_eq in Hrun.
    destruct (Randomized.trialLoop clk Randomized.loop_fuel _ 0 _)
      as [s1|]; [|discriminate].
    injection Hrun as <-.
    destruct (RandomizedFacts.finish_keeps s1) as [_ [Hf1 [Hc1 _]]].
    rewrite Hf1 in Hfound. rewrite Hc1 in Hclicks.
    rewrite (RandomizedFacts.finish_replay_data s1 Hfound), Hclicks.
    reflexivity.
  - rewrite Hclicks, Hf.
    replace (Z.to_nat (0 + Z.of_nat n + 1)) with (S n) by lia.
    rewrite <- RandomizedFacts.clickFrames_firstn.
    apply filter_ext. intros i.
    apply Bool.eq_true_iff_eq. rewrite Z.leb_le, Z.ltb_lt. lia.
Qed.

(** C6, the found result against the claim: on the five-frame level with
    the lowest random source the first trial is 60 frames long and clicks
    on every frame, success fires at frame 2, and the result lists all 60
    frames, not the three that were played. *)
Lemma found_clicks_include_unplayed_frames :
  exists (s : Randomized.Run (Toy.Slot Z) Z Z) (entry : Randomized.Trial Z),
    @Randomized.solverRun _ (Toy.slotEngine Toy.shortFlat) _ _ Toy.lowest
      (Toy.clockEvery 1000) (Toy.fresh Toy.shortFlat true) 0
      (Randomized.mkModal EmptyString true) = Some s /\
    Randomized.found s = true /\
    Randomized.trials s = [entry] /\
    Randomized.t_outcome entry = Randomized.Succeeded 2 /\
    Randomized.clickFrames 0 (firstn 3 (Randomized.t_seq entry)) = [0; 1; 2] /\
    Randomized.foundClicks s
    <> Randomized.clickFrames 0 (firstn 3 (Randomized.t_seq entry)) /\
    In 59 (Randomized.foundClicks s).
Proof.
  eexists. eexists.
  split; [vm_compute; reflexivity|].
  split; [reflexivity|]. split; [reflexivity|]. split; [reflexivity|].
  split; [reflexivity|]. split.
  - vm_compute. discriminate.
  - vm_compute. repeat (first [left; reflexivity | right]).
Qed.

(** [found_clicks_list_whole_trial] on the same run. *)
Lemma found_clicks_list_whole_trial_witness :
  exists (s : Randomized.Run (Toy.Slot Z) Z Z)
         (entry : Randomized.Trial Z) (f : Z),
    @Randomized.solverRun _ (Toy.slotEngine Toy.shortFlat) _ _ Toy.lowest
      (Toy.clockEvery 1000) (Toy.fresh Toy.shortFlat true) 0
      (Randomized.mkModal EmptyString true) = Some s /\
    Randomized.t_outcome entry = Randomized.Succeeded f /\
    Randomized.foundClicks s
    = Randomized.clickFrames 0 (Randomized.t_seq entry).
Proof.
  destruct (@Randomized.solverRun _ (Toy.slotEngine Toy.shortFlat) _ _
              Toy.lowest (Toy.clockEvery 1000)
              (Toy.fresh Toy.shortFlat true) 0
              (Randomized.mkModal EmptyString true)) as [s|] eqn:Hrun.
  - destruct (found_clicks_list_whole_trial
                _ (Toy.slotEngine Toy.shortFlat) _ _ Toy.lowest
                (Toy.clockEvery 1000) (Toy.fresh Toy.shortFlat true) 0
                (Randomized.mkModal EmptyString true) s Hrun
                (shortFlat_run_is_found s Hrun))
      as [entry [rest [f [_ [Hout [_ [Hclicks _]]]]]]].
    exists s, entry, f. auto.
  - exfalso. revert Hrun. rewrite RandomizedFacts.solverRun_eq.
    apply RandomizedFacts.search_total.
Defined.

(** C7 as the code has it.  The only early return of [solverRun] is for a
    null [PlayLayer] pointer, and it leaves no message and no outcome.
    When gameplay is not active as the search begins, [solverRun] calls
    [startGame] and then searches as usual: it ends with [running] cleared
    and with one of its two final messages, and, unless the deadline has
    already passed at the first check, it runs at least one trial. *)
Theorem inactive_gameplay_is_started_and_searched :
  forall (W : Type) (engine : PlayLayer W) (R F : Type)
         (random : Randomized.RandomSource R F) (clk : Clock)
         (w : W) (seed : R) (g : Randomized.ModalState),
    isGameplayActive w = false ->
    Randomized.solverRunOn clk None seed g
    = Some (Randomized.Untouched g) /\
    Randomized.solverRun clk w seed g
    = Randomized.search clk
        (Randomized.mkRun (startGame w) seed 1 false []
                          ["Solver starting..."%string] g []) /\
    exists s : Randomized.Run W R F,
      Randomized.solverRun clk w seed g = Some s /\
      Randomized.running (Randomized.modal s) = false /\
      (exists older : list string,
          Randomized.status s
          = (if Randomized.found s
             then "Ready to export (click Export)."
             else "No run found (timeout / trials exhausted).")%string
              :: older) /\
      (clk 2%nat < clk 1%nat + Randomized.TIMEOUT_MS * ns_per_ms ->
       Randomized.trials s <> []).
Proof.
  intros W engine R F random clk w seed g Hinactive.
  assert (Heq : Randomized.solverRun clk w seed g
                = Randomized.search clk
                    (Randomized.mkRun (startGame w) seed 1 false []
                                      ["Solver starting..."%string] g [])).
  { rewrite RandomizedFacts.solverRun_eq. unfold Randomized.ensureStarted.
    rewrite Hinactive. reflexivity. }
  split; [reflexivity|]. split; [exact Heq|].
  rewrite Heq.
  destruct (Randomized.search clk _) as [s|] eqn:Hrun.
  - exists s. split; [reflexivity|].
    pose proof Hrun as Hrun'.
    rewrite RandomizedFacts.search_eq in Hrun'.
    destruct (Randomized.trialLoop clk Randomized.loop_fuel _ 0 _)
      as [s1|]; [|discriminate].
    injection Hrun' as <-.
    destruct (RandomizedFacts.finish_keeps s1) as [_ [Hf [_ [_ Hrunning]]]].
    split; [exact Hrunning|]. split.
    + rewrite Hf. apply RandomizedFacts.finish_status.
    + intros Hclk.
      apply (RandomizedFacts.search_runs_first_trial clk _ _ Hrun eq_refl).
      exact Hclk.
  - exfalso. exact (RandomizedFacts.search_total clk _ Hrun).
Qed.

(** C7, the claim against the code: the five-frame level is not gameplay
    active when the search begins, and the search still runs a trial and
    reports a found run. *)
Lemma inactive_gameplay_search_finds_run :
  @isGameplayActive _ (Toy.slotEngine Toy.shortFlat)
    (Toy.fresh Toy.shortFlat false) = false /\
  exists s : Randomized.Run (Toy.Slot Z) Z Z,
    @Randomized.solverRun _ (Toy.slotEngine Toy.shortFlat) _ _ Toy.lowest
      (Toy.clockEvery 1000) (Toy.fresh Toy.shortFlat false) 0
      (Randomized.mkModal EmptyString true) = Some s /\
    Randomized.found s = true /\
    List.length (Randomized.trials s) = 1%nat /\
    hd EmptyString (Randomized.status s)
    = "Ready to export (click Export)."%string.
Proof.
  split; [reflexivity|].
  eexists. split; [vm_compute; reflexivity|].
  repeat split.
Qed.

(** [inactive_gameplay_is_started_and_searched] on that run. *)
Lemma inactive_gameplay_is_started_and_searched_witness :
  exists s : Randomized.Run (Toy.Slot Z) Z Z,
    @Randomized.solverRun _ (Toy.slotEngine Toy.shortFlat) _ _ Toy.lowest
      (Toy.clockEvery 1000) (Toy.fresh Toy.shortFlat false) 0
      (Randomized.mkModal EmptyString true) = Some s /\
    Randomized.trials s <> [].
Proof.
  destruct (inactive_gameplay_is_started_and_searched
              _ (Toy.slotEngine Toy.shortFlat) _ _ Toy.lowest
              (Toy.clockEvery 1000) (Toy.fresh Toy.shortFlat false) 0
              (Randomized.mkModal EmptyString true) eq_refl)
    as [_ [_ [s [Hrun [_ [_ Htrials]]]]]].
  exists s. split; [exact Hrun|].
  apply Htrials. vm_compute. reflexivity.
Defined.

(** ** Text: the encoder and the export name *)
Module TextFacts.
Import Randomized Decoder.
Local Open Scope string_scope.

Lemma append_nil_r (a : string) : a ++ "" = a.
Proof. induction a as [|c a IH]; simpl; [reflexivity | now rewrite IH]. Qed.

Lemma append_assoc (a b c : string) : (a ++ b) ++ c = a ++ (b ++ c).
Proof. induction a as [|x a IH]; simpl; [reflexivity | now rewrite IH]. Qed.

Lemma chars_app (a b : string) :
  list_ascii_of_string (a ++ b)
  = (list_ascii_of_string a ++ list_ascii_of_string b)%list.
Proof. induction a as [|x a IH]; simpl; [reflexivity | now rewrite IH]. Qed.

Lemma chars_inj (a b : string) :
  list_ascii_of_string a = list_ascii_of_string b -> a = b.
Proof.
  intros Hab.
  rewrite <- (string_of_list_ascii_of_string a),
          <- (string_of_list_ascii_of_string b).
  now rewrite Hab.
Qed.

Lemma hasChar_In (c : ascii) (s : string) :
  hasChar c s = false -> ~ In c (list_ascii_of_string s).
Proof.
  induction s as [|d s IH]; simpl; intros Hno Hin; [exact Hin|].
  apply orb_false_iff in Hno. destruct Hno as [Hcd Hrest].
  destruct Hin as [->|Hin].
  - rewrite Ascii.eqb_refl in Hcd. discriminate.
  - exact (IH Hrest Hin).
Qed.

(** *** What [fmt_int] prints *)

Lemma uint_chars (c : ascii) (d : uint) :
  digitOrMinus c = false ->
  hasChar c (NilEmpty.string_of_uint d) = false.
Proof.
  intros Hc. unfold digitOrMinus in Hc. simpl in Hc.
  repeat (apply orb_false_iff in Hc; destruct Hc as [? Hc]).
  induction d as [|d IH|d IH|d IH|d IH|d IH|d IH|d IH|d IH|d IH|d IH];
    simpl; [reflexivity|..]; rewrite IH;
    match goal with
    | E : Ascii.eqb c ?k = false |- (Ascii.eqb c ?k || false)%bool = false =>
      rewrite E; reflexivity
    end.
Qed.

Lemma fmt_int_chars (c : ascii) (n : Z) :
  digitOrMinus c = false -> hasChar c (fmt_int n) = false.
Proof.
  intros Hc. unfold fmt_int.
  assert (Hu : forall d : uint,
             hasChar c (NilZero.string_of_uint d) = false).
  { intros d. destruct d; try (apply (uint_chars c _ Hc)).
    unfold digitOrMinus in Hc. simpl in Hc.
    repeat (apply orb_false_iff in Hc; destruct Hc as [? Hc]).
    simpl. rewrite orb_false_r. assumption. }
  destruct (Z.to_int n) as [d|d]; simpl; [apply Hu|].
  rewrite Hu, orb_false_r.
  unfold digitOrMinus in Hc. simpl in Hc.
  apply orb_false_iff in Hc. destruct Hc as [Hminus _]. exact Hminus.
Qed.

Lemma to_int_wellformed (n : Z) :
  Z.to_int n <> Pos Nil /\ Z.to_int n <> Neg Nil.
Proof.
  destruct n as [|p|p]; simpl; split; try discriminate;
    intros E; injection E as E;
    exact (DecimalPos.Unsigned.to_uint_nonnil p E).
Qed.

Lemma parseInt_fmt_int (n : Z) : parseInt (fmt_int n) = Some n.
Proof.
  unfold parseInt, fmt_int.
  destruct (to_int_wellformed n) as [Hp Hn].
  rewrite (NilZero.isi _ Hp Hn). simpl. now rewrite DecimalZ.of_to.
Qed.

Lemma fmt_int_inj (a b : Z) : fmt_int a = fmt_int b -> a = b.
Proof.
  intros Hab.
  pose proof (parseInt_fmt_int a) as Ha. rewrite Hab in Ha.
  rewrite parseInt_fmt_int in Ha. now injection Ha.
Qed.

Lemma fmt_int_nonempty (n : Z) : fmt_int n <> "".
Proof.
  intros E. pose proof (parseInt_fmt_int n) as Hp.
  rewrite E in Hp. vm_compute in Hp. discriminate.
Qed.

(** *** The CSV text *)

Lemma csvLoop_spec :
  forall (cs : list Z) (i : nat) (out : string),
    csvLoop i cs out = out ++ joinFrom (0 <? i)%nat (map fmt_int cs).
Proof.
  induction cs as [|c cs IH]; intros i out; simpl.
  - now rewrite append_nil_r.
  - rewrite IH. change (0 <? S i)%nat with true.
    destruct (0 <? i)%nat; now rewrite !append_assoc.
Qed.

Lemma fields_plain (x : string) :
  hasChar "," x = false -> fields x = [x].
Proof.
  induction x as [|c x IH]; intros Hno; [reflexivity|].
  cbn [hasChar] in Hno.
  apply orb_false_iff in Hno. destruct Hno as [Hc Hx].
  cbn [fields]. rewrite Ascii.eqb_sym, Hc, (IH Hx). reflexivity.
Qed.

Lemma fields_comma (x rest : string) :
  hasChar "," x = false ->
  fields (x ++ "," ++ rest) = x :: fields rest.
Proof.
  induction x as [|c x IH]; intros Hno; [reflexivity|].
  cbn [hasChar] in Hno.
  apply orb_false_iff in Hno. destruct Hno as [Hc Hx].
  cbn [String.append fields].
  rewrite Ascii.eqb_sym, Hc. cbn [String.append] in IH.
  rewrite (IH Hx). reflexivity.
Qed.

Lemma fields_join :
  forall (xs : list string) (x : string),
    hasChar "," x = false ->
    Forall (fun y => hasChar "," y = false) xs ->
    fields (x ++ joinFrom true xs) = x :: xs.
Proof.
  induction xs as [|y xs IH]; intros x Hx Hxs; cbn [joinFrom].
  - rewrite append_nil_r. now apply fields_plain.
  - inversion Hxs as [|? ? Hy Hrest]; subst.
    rewrite (fields_comma x (y ++ joinFrom true xs) Hx).
    now rewrite (IH y Hy Hrest).
Qed.

Lemma parseAll_fmt (cs : list Z) : parseAll (map fmt_int cs) = Some cs.
Proof.
  induction cs as [|c cs IH]; simpl; [reflexivity|].
  now rewrite parseInt_fmt_int, IH.
Qed.

(** The click frames are read back from the text. *)
Lemma decodeClicks_encodeClicks (cs : list Z) :
  decodeClicks (encodeClicks cs) = Some cs.
Proof.
  unfold decodeClicks, encodeClicks. rewrite csvLoop_spec.
  destruct cs as [|c cs]; [reflexivity|].
  change ("" ++ joinFrom (0 <? 0)%nat (map fmt_int (c :: cs)))
    with (fmt_int c ++ joinFrom true (map fmt_int cs)).
  assert (Hne : (fmt_int c ++ joinFrom true (map fmt_int cs) =? "") = false).
  { apply String.eqb_neq. intros E.
    destruct (fmt_int c) eqn:Ec; [|discriminate].
    exact (fmt_int_nonempty c Ec). }
  rewrite Hne, fields_join.
  - exact (parseAll_fmt (c :: cs)).
  - now apply fmt_int_chars.
  - apply Forall_forall. intros y Hy. apply in_map_iff in Hy.
    destruct Hy as [z [<- _]]. now apply fmt_int_chars.
Qed.

Lemma encodeClicks_inj (a b : list Z) :
  encodeClicks a = encodeClicks b -> a = b.
Proof.
  intros Hab. pose proof (decodeClicks_encodeClicks a) as Ha.
  rewrite Hab, decodeClicks_encodeClicks in Ha. now injection Ha.
Qed.

(** *** Click frames and decision sequences *)

Lemma frame_eta (x : FrameInput) : x = mkFrame (click x).
Proof. now destruct x. Qed.

Lemma clickFrames_head :
  forall (sq : list FrameInput) (i c : Z) (cs : list Z),
    clickFrames i sq = c :: cs -> i <= c.
Proof.
  intros sq i c cs E.
  assert (Hin : In c (clickFrames i sq)) by (rewrite E; now left).
  apply RandomizedFacts.clickFrames_bounds in Hin. lia.
Qed.

Lemma unclick_shift (i c : Z) (cs : list Z) :
  i + 1 <= c ->
  unclick i (c :: cs) = noClick :: unclick (i + 1) (c :: cs).
Proof.
  intros Hic. simpl.
  replace (Z.to_nat (c - i)) with (S (Z.to_nat (c - (i + 1)))) by lia.
  reflexivity.
Qed.

(** Rebuilding from the click frames gives the sequence without its
    trailing "no click" frames. *)
Lemma unclick_clickFrames :
  forall (sq : list FrameInput) (i : Z),
    unclick i (clickFrames i sq) = stripTrailing sq.
Proof.
  induction sq as [|x sq IH]; intros i; [reflexivity|].
  simpl. specialize (IH (i + 1)).
  destruct (click x) eqn:Hx.
  - simpl. replace (Z.to_nat (i - i)) with O by lia. simpl.
    rewrite IH. rewrite (frame_eta x), Hx. fold doClick.
    destruct (stripTrailing sq); reflexivity.
  - destruct (clickFrames (i + 1) sq) as [|c cs] eqn:Ecs.
    + simpl in IH. rewrite <- IH. reflexivity.
    + rewrite unclick_shift by (apply clickFrames_head in Ecs; lia).
      rewrite IH. rewrite (frame_eta x), Hx. fold noClick.
      destruct (stripTrailing sq) eqn:Es; [|reflexivity].
      simpl in IH. destruct (Z.to_nat (c - (i + 1))); discriminate.
Qed.

Lemma clickFrames_stripTrailing :
  forall (sq : list FrameInput) (i : Z),
    clickFrames i (stripTrailing sq) = clickFrames i sq.
Proof.
  induction sq as [|x sq IH]; intros i; [reflexivity|].
  simpl. specialize (IH (i + 1)).
  destruct (stripTrailing sq) as [|y r] eqn:Es.
  - destruct (click x) eqn:Hx; simpl; rewrite ?Hx, <- IH; reflexivity.
  - simpl. rewrite <- IH. reflexivity.
Qed.

(** *** The export name *)

Lemma sanitize_identChars (n : string) :
  allChars identChar (sanitize n) = true.
Proof.
  induction n as [|c n IH]; simpl; [reflexivity|].
  rewrite IH, andb_true_r. unfold identChar.
  destruct (isalnum c) eqn:Hc; [now rewrite Hc | reflexivity].
Qed.

Lemma sanitize_length (n : string) :
  String.length (sanitize n) = String.length n.
Proof. induction n as [|c n IH]; simpl; [reflexivity | now rewrite IH]. Qed.

(** A text of identifier characters is left as it is. *)
Lemma sanitize_fixes_identifiers (n : string) :
  allChars identChar n = true -> sanitize n = n.
Proof.
  induction n as [|c n IH]; simpl; intros Hall; [reflexivity|].
  apply andb_true_iff in Hall. destruct Hall as [Hc Hn].
  rewrite (IH Hn). unfold identChar in Hc.
  destruct (isalnum c); [reflexivity|].
  simpl in Hc. apply Ascii.eqb_eq in Hc. now subst.
Qed.

Lemma split_at_last {A : Type} (x : A) :
  forall (a a' b b' : list A),
    ~ In x b -> ~ In x b' ->
    (a ++ x :: b = a' ++ x :: b')%list -> a = a' /\ b = b'.
Proof.
  induction a as [|y a IH]; intros a' b b' Hb Hb' E.
  - destruct a' as [|y' a']; simpl in E.
    + injection E as E. now split.
    + injection E as E1 E2. exfalso. apply Hb. rewrite E2.
      apply in_or_app. right. now left.
  - destruct a' as [|y' a']; simpl in E.
    + injection E as E1 E2. exfalso. apply Hb'. rewrite <- E2.
      apply in_or_app. right. now left.
    + injection E as E1 E2. destruct (IH a' b b' Hb Hb' E2) as [-> ->].
      subst. now split.
Qed.

(** Equal export names carry equal printed timestamps. *)
Lemma exportName_timestamp (prefix ext : string)
      (n1 n2 : option string) (t1 t2 : Z) :
  exportName prefix ext n1 t1 = exportName prefix ext n2 t2 ->
  to_int32 t1 = to_int32 t2.
Proof.
  unfold exportName. intros E.
  apply (f_equal list_ascii_of_string) in E.
  rewrite !chars_app in E.
  apply app_inv_head in E.
  rewrite !app_assoc in E. apply app_inv_tail in E.
  rewrite <- !app_assoc in E. simpl in E.
  apply split_at_last in E.
  - destruct E as [_ E]. apply chars_inj in E. now apply fmt_int_inj.
  - apply hasChar_In. now apply fmt_int_chars.
  - apply hasChar_In. now apply fmt_int_chars.
Qed.

Lemma to_int32_small (t : Z) :
  - 2147483648 <= t < 2147483648 -> to_int32 t = t.
Proof.
  intros Ht. unfold to_int32.
  rewrite Z.mod_small by lia. lia.
Qed.

End TextFacts.

Lemma stripTrailing_ends_in_click :
  forall sq : list FrameInput,
    sq = [] \/ click (last sq noClick) = true ->
    Decoder.stripTrailing sq = sq.
Proof.
  induction sq as [|x sq IH]; intros Hend; [reflexivity|].
  destruct sq as [|y sq].
  - destruct Hend as [E|E]; [discriminate|]. simpl in *. now rewrite E.
  - assert (Hrec : Decoder.stripTrailing (y :: sq) = y :: sq).
    { apply IH. right. destruct Hend as [E|E]; [discriminate|]. exact E. }
    change (Decoder.stripTrailing (x :: y :: sq))
      with (match Decoder.stripTrailing (y :: sq) with
            | [] => if click x then [x] else []
            | r => x :: r
            end).
    now rewrite Hrec.
Qed.

(** C3 as the code has it.  The encoder writes the frames at which the
    control is engaged and nothing else, so it tells two decision
    sequences apart exactly when they differ before their trailing "no
    click" frames, and reading the text back gives the sequence without
    those frames; on sequences that do not end in a "no click" frame this
    is injectivity and the round-trip law as claimed. *)
Theorem encode_injective_up_to_trailing_noclicks :
  (forall S1 S2 : list FrameInput,
      Randomized.encode S1 = Randomized.encode S2 <->
      Decoder.stripTrailing S1 = Decoder.stripTrailing S2) /\
  (forall S : list FrameInput,
      Decoder.decode (Randomized.encode S)
      = Some (Decoder.stripTrailing S)) /\
  (forall S : list FrameInput,
      S = [] \/ click (last S noClick) = true ->
      Decoder.decode (Randomized.encode S) = Some S).
Proof.
  assert (Hround : forall S : list FrameInput,
             Decoder.decode (Randomized.encode S)
             = Some (Decoder.stripTrailing S)).
  { intros S. unfold Decoder.decode, Randomized.encode.
    rewrite TextFacts.decodeClicks_encodeClicks. simpl.
    now rewrite TextFacts.unclick_clickFrames. }
  split; [|split].
  - intros S1 S2. split; intros E.
    + pose proof (Hround S1) as H1. rewrite E, Hround in H1.
      now injection H1.
    + unfold Randomized.encode.
      rewrite <- (TextFacts.clickFrames_stripTrailing S1),
              <- (TextFacts.clickFrames_stripTrailing S2).
      now rewrite E.
  - exact Hround.
  - intros S Hend. rewrite Hround.
    now rewrite (stripTrailing_ends_in_click S Hend).
Qed.

(** C3, the claim against the code: a trailing "no click" frame leaves no
    mark in the text. *)
Lemma encode_forgets_trailing_noclicks :
  Randomized.encode [doClick] = Randomized.encode [doClick; noClick] /\
  [doClick] <> [doClick; noClick] /\
  Decoder.decode (Randomized.encode [doClick; noClick])
  <> Some [doClick; noClick].
Proof.
  split; [reflexivity|]. split; [discriminate|].
  vm_compute. discriminate.
Qed.

(** [encode_injective_up_to_trailing_noclicks] on a sequence ending in a
    click. *)
Lemma encode_injective_up_to_trailing_noclicks_witness :
  Decoder.decode (Randomized.encode [noClick; doClick; noClick; doClick])
  = Some [noClick; doClick; noClick; doClick].
Proof.
  apply (proj2 (proj2 encode_injective_up_to_trailing_noclicks)).
  right. reflexivity.
Defined.

Lemma sanitize_get (n : string) (i : nat) :
  String.get i (Randomized.sanitize n)
  = option_map (fun c => if Randomized.isalnum c then c else "_"%char)
               (String.get i n).
Proof.
  revert i. induction n as [|c n IH]; intros i; [reflexivity|].
  destruct i as [|i]; simpl; [reflexivity | apply IH].
Qed.

(** C8 as the code has it.  The export name is the text before the name,
    the level name (or "macro") with every character that is not
    alphanumeric replaced by an underscore, an underscore, the timestamp
    converted to [int] and printed in decimal, and the extension.  The
    sanitized name is over [A-Za-z0-9_], as long as the name, and a name
    already over that alphabet is kept.  Equal names carry equal [int]
    timestamps, so two exports at distinct seconds that fit an [int] never
    collide. *)
Theorem export_name_shape :
  forall (prefix ext : string) (levelName : option string) (t : Z),
    Randomized.exportName prefix ext levelName t
    = (prefix
         ++ Randomized.sanitize
              (match levelName with Some n => n | None => "macro" end)
         ++ "_" ++ fmt_int (to_int32 t) ++ ext)%string /\
    (forall n : string,
        Decoder.allChars Decoder.identChar (Randomized.sanitize n) = true /\
        String.length (Randomized.sanitize n) = String.length n /\
        (forall i : nat,
            String.get i (Randomized.sanitize n)
            = option_map
                (fun c => if Randomized.isalnum c then c else "_"%char)
                (String.get i n)) /\
        (Decoder.allChars Decoder.identChar n = true ->
         Randomized.sanitize n = n)) /\
    (forall (g : Randomized.ModalState) (fname content : string),
        Randomized.onExportClicked levelName t g = Some (fname, content) ->
        fname = Randomized.exportName "" ".macro.txt" levelName t /\
        content = Randomized.lastReplayData g) /\
    (forall outFolder : string,
        Randomized.exportNameGdr levelName t
        = Randomized.exportName "" ".gdr" levelName t /\
        Randomized.exportNameInFolder outFolder levelName t
        = Randomized.exportName (outFolder ++ "/") ".gdr" levelName t) /\
    (forall (levelName2 : option string) (t2 : Z),
        Randomized.exportName prefix ext levelName t
        = Randomized.exportName prefix ext levelName2 t2 ->
        to_int32 t = to_int32 t2) /\
    (forall (levelName2 : option string) (t2 : Z),
        - 2147483648 <= t < 2147483648 ->
        - 2147483648 <= t2 < 2147483648 ->
        t <> t2 ->
        Randomized.exportName prefix ext levelName t
        <> Randomized.exportName prefix ext levelName2 t2).
Proof.
  intros prefix ext levelName t.
  split; [reflexivity|]. split; [|split; [|split; [|split]]].
  - intros n. split; [apply TextFacts.sanitize_identChars|].
    split; [apply TextFacts.sanitize_length|].
    split; [apply sanitize_get | apply TextFacts.sanitize_fixes_identifiers].
  - intros g fname content. unfold Randomized.onExportClicked.
    destruct (Randomized.lastReplayData g =? "")%string; [discriminate|].
    intros E. injection E as <- <-. now split.
  - intros outFolder. split; reflexivity.
  - intros levelName2 t2. apply TextFacts.exportName_timestamp.
  - intros levelName2 t2 Ht Ht2 Hneq E.
    apply TextFacts.exportName_timestamp in E.
    rewrite !TextFacts.to_int32_small in E by assumption.
    exact (Hneq E).
Qed.

(** C8, the claim against the code: the timestamp goes through [(int)t],
    so two exports [2^32] seconds apart get the same name. *)
Lemma export_names_collide_across_int_wrap :
  1762000000 <> 1762000000 + 4294967296 /\
  Randomized.exportName "" ".macro.txt" (Some "Level 1"%string) 1762000000
  = Randomized.exportName "" ".macro.txt" (Some "Level 1"%string)
                          (1762000000 + 4294967296) /\
  Randomized.exportName "" ".macro.txt" (Some "Level 1"%string) 1762000000
  = "Level_1_1762000000.macro.txt"%string.
Proof. split; [lia|]. split; vm_compute; reflexivity. Qed.

(** [export_name_shape] on two exports a second apart. *)
Lemma export_name_shape_witness :
  Randomized.exportName "" ".macro.txt" (Some "Level 1"%string) 1762000000
  <> Randomized.exportName "" ".macro.txt" None 1762000001.
Proof.
  apply (export_name_shape "" ".macro.txt" (Some "Level 1"%string)
                           1762000000); lia.
Defined.

(** C5.  In each of the three searches the decision sequence stays within
    the frame cap.  In the two depth-first searches no [push_back] ever
    leaves more than [MAX_SEARCH_FRAMES] entries in the working vector, and
    the vectors a run ends with (working and found) are no longer than
    that; the randomized search, with a length distribution that keeps to
    its bounds, never generates a trial longer than 600 frames, below its
    cap of [MAX_SEARCH_FRAMES = 1800], and lists no click frame at or
    past the cap.  A call of [dfs] at a frame index that has reached the
    cap returns "not found" without a [push_back]. *)
Theorem sequence_length_capped :
  (forall (clk : Clock) (b : bool) (s : MainCpp.Solver),
      MainCpp.solverThreadState clk = Some (b, s) ->
      Forall (pushBounded MainCpp.MAX_SEARCH_FRAMES) (MainCpp.trace s) /\
      Z.of_nat (List.length (MainCpp.foundSequence s))
      <= MainCpp.MAX_SEARCH_FRAMES /\
      Z.of_nat (List.length (MainCpp.seq s)) <= MainCpp.MAX_SEARCH_FRAMES) /\
  (forall (W : Type) (engine : PlayLayer W) (clk : Clock) (w : W)
          (b : bool) (s : Backtracking.Solver W),
      Backtracking.runSolverAndRecord clk w = Some (b, s) ->
      Forall (pushBounded Backtracking.MAX_SEARCH_FRAMES)
             (Backtracking.trace s) /\
      Z.of_nat (List.length (Backtracking.bestSequence s))
      <= Backtracking.MAX_SEARCH_FRAMES /\
      Z.of_nat (List.length (Backtracking.current s))
      <= Backtracking.MAX_SEARCH_FRAMES) /\
  (forall (W : Type) (engine : PlayLayer W) (R F : Type)
          (random : Randomized.RandomSource R F) (clk : Clock)
          (w : W) (seed : R) (g : Randomized.ModalState)
          (s : Randomized.Run W R F),
      Randomized.int_in_range ->
      Randomized.solverRun clk w seed g = Some s ->
      Forall (fun t : Randomized.Trial F =>
                Z.of_nat (List.length (Randomized.t_seq t)) <= 600 /\
                Z.of_nat (List.length (Randomized.t_seq t))
                <= Randomized.MAX_SEARCH_FRAMES)
             (Randomized.trials s) /\
      Forall (fun c : Z => 0 <= c < Randomized.MAX_SEARCH_FRAMES)
             (Randomized.foundClicks s)) /\
  (forall (clk : Clock) (fuel : nat) (start frame : Z) (s : MainCpp.Solver),
      MainCpp.MAX_SEARCH_FRAMES <= frame ->
      MainCpp.dfs clk (S fuel) start frame s
      = Some (false, snd (MainCpp.clock_now clk s))) /\
  (forall (W : Type) (engine : PlayLayer W) (clk : Clock) (fuel : nat)
          (startTime frame : Z) (s : Backtracking.Solver W),
      Backtracking.MAX_SEARCH_FRAMES <= frame ->
      Backtracking.dfs clk (S fuel) startTime frame s
      = Some (false, snd (Backtracking.clock_now clk s))).
Proof.
  split; [|split; [|split; [|split]]].
  4: {
    intros clk fuel start frame s Hcap.
    rewrite MainCppFacts.pure_dfs_eq. cbv zeta.
    replace (frame >=? MainCpp.MAX_SEARCH_FRAMES) with true by lia.
    destruct (elapsed_ms _ _ >? _); reflexivity. }
  4: {
    intros W engine clk fuel startTime frame s Hcap.
    rewrite BacktrackingFacts.engine_dfs_eq. cbv zeta.
    replace (frame >=? Backtracking.MAX_SEARCH_FRAMES) with true by lia.
    destruct (elapsed_ms _ _ >? _); reflexivity. }
  - intros clk b s Hrun.
    rewrite MainCppFacts.solverThreadState_eq in Hrun.
    apply MainCppFacts.pure_dfs_lengths in Hrun.
    + destruct Hrun as [Ht [Hf [Hs _]]]. auto.
    + reflexivity.
    + unfold MainCpp.MAX_SEARCH_FRAMES. lia.
    + simpl. constructor; [exact I | constructor].
    + simpl. unfold MainCpp.MAX_SEARCH_FRAMES. lia.
  - intros W engine clk w b s Hrun.
    exact (BacktrackingFacts.runSolverAndRecord_lengths clk w b s Hrun).
  - intros W engine R F random clk w seed g s Hint Hrun.
    rewrite RandomizedFacts.solverRun_eq in Hrun.
    pose proof (RandomizedFacts.search_lengths clk _ _ Hint Hrun eq_refl)
      as Hlen.
    assert (Htrials : Forall (fun t : Randomized.Trial F =>
                Z.of_nat (List.length (Randomized.t_seq t)) <= 600 /\
                Z.of_nat (List.length (Randomized.t_seq t))
                <= Randomized.MAX_SEARCH_FRAMES)
             (Randomized.trials s)).
    { eapply Forall_impl; [|exact Hlen].
      intros t [Hr Hl]. unfold Randomized.MAX_SEARCH_FRAMES. lia. }
    split; [exact Htrials|].
    destruct (Randomized.found s) eqn:Hfound.
    + destruct (RandomizedFacts.search_spec clk _ _ Hrun eq_refl eq_refl)
        as [Hlast _].
      destruct (Hlast Hfound) as [entry [rest [f [w0 [Htr [_ [_ Hcl]]]]]]].
      rewrite Htr in Htrials. inversion Htrials as [|? ? [_ Hcap] _]; subst.
      rewrite Hcl. apply Forall_forall. intros c Hc.
      apply RandomizedFacts.clickFrames_bounds in Hc. lia.
    + assert (Hnone : Randomized.foundClicks s = []).
      { rewrite RandomizedFacts.search_eq in Hrun.
        destruct (Randomized.trialLoop clk Randomized.loop_fuel _ 0 _)
          as [s1|] eqn:Hloop; [|discriminate].
        injection Hrun as <-.
        destruct (RandomizedFacts.finish_keeps s1) as [_ [Hf1 [Hc1 _]]].
        rewrite Hc1. rewrite Hf1 in Hfound.
        refine (RandomizedFacts.trialLoop_invariant
                  clk (fun t => Randomized.found t = false ->
                                Randomized.foundClicks t = [])
                  _ _ _ _ _ _ _ Hloop _ Hfound).
        - intros t Ht. exact Ht.
        - intros trial t Ht Hnf _ _ Hafter.
          destruct (RandomizedFacts.trialBody_spec
                      trial (clk (Randomized.reads t))
                      (snd (Randomized.clock_now clk t)))
            as [entry [_ [_ [_ [_ [_ [_ [_ [_ [_ Hout]]]]]]]]]].
          destruct (Randomized.t_outcome entry).
          + destruct Hout as [Hyes _]. congruence.
          + destruct Hout as [_ Hsame]. rewrite Hsame. apply Ht. exact Hnf.
          + destruct Hout as [_ Hsame]. rewrite Hsame. apply Ht. exact Hnf.
        - intros _. reflexivity. }
      rewrite Hnone. constructor.
Qed.

(** [sequence_length_capped] on one run of each search. *)
Lemma sequence_length_capped_witness :
  (exists (b : bool) (s : MainCpp.Solver),
      MainCpp.solverThreadState (Toy.clockEvery 1000) = Some (b, s) /\
      Forall (pushBounded 7200) (MainCpp.trace s)) /\
  (exists (b : bool) (s : Backtracking.Solver (Toy.Slot (Z * option Z))),
      @Backtracking.runSolverAndRecord _ (Toy.slotEngine Toy.earlyJump)
        (Toy.clockEvery 1000) (Toy.fresh Toy.earlyJump true) = Some (b, s) /\
      Forall (pushBounded 7200) (Backtracking.trace s)) /\
  (exists s : Randomized.Run (Toy.Slot (Z * option Z)) Z Z,
      @Randomized.solverRun _ (Toy.slotEngine Toy.earlyJump) _ _ Toy.walking
        (Toy.clockEvery 1000) (Toy.fresh Toy.earlyJump true) 0
        (Randomized.mkModal EmptyString true) = Some s /\
      Forall (fun t : Randomized.Trial Z =>
                Z.of_nat (List.length (Randomized.t_seq t)) <= 600 /\
                Z.of_nat (List.length (Randomized.t_seq t)) <= 1800)
             (Randomized.trials s)).
Proof.
  destruct sequence_length_capped as [Hmain [Hback [Hrand _]]].
  split; [|split].
  - destruct (MainCpp.solverThreadState (Toy.clockEvery 1000))
      as [[b s]|] eqn:Hrun.
    + exists b, s. split; [reflexivity|].
      exact (proj1 (Hmain _ b s Hrun)).
    + exfalso. revert Hrun. rewrite MainCppFacts.solverThreadState_eq.
      apply MainCppFacts.pure_dfs_total; [lia|].
      unfold MainCpp.dfs_fuel. lia.
  - destruct (@Backtracking.runSolverAndRecord
                _ (Toy.slotEngine Toy.earlyJump) (Toy.clockEvery 1000)
                (Toy.fresh Toy.earlyJump true)) as [[b s]|] eqn:Hrun.
    + exists b, s. split; [reflexivity|].
      exact (proj1 (Hback _ (Toy.slotEngine Toy.earlyJump) _ _ b s Hrun)).
    + exfalso.
      exact (BacktrackingFacts.runSolverAndRecord_total _ _ Hrun).
  - destruct (@Randomized.solverRun _ (Toy.slotEngine Toy.earlyJump) _ _
                Toy.walking (Toy.clockEvery 1000)
                (Toy.fresh Toy.earlyJump true) 0
                (Randomized.mkModal EmptyString true)) as [s|] eqn:Hrun.
    + exists s. split; [reflexivity|].
      exact (proj1 (Hrand _ (Toy.slotEngine Toy.earlyJump) _ _ Toy.walking
                          _ _ _ _ s walking_int_in_range Hrun)).
    + exfalso. revert Hrun. rewrite RandomizedFacts.solverRun_eq.
      apply RandomizedFacts.search_total.
Defined.

(** ** The backtracking search against its specification *)

(** The solutions of the level [Toy.earlyJump]: three frames, the first of
    them a click.  The lexicographically smallest is click, no click, no
    click. *)
Lemma earlyJump_solutions (sq : list FrameInput) :
  @Backtracking.drivesToSuccess _ (Toy.slotEngine Toy.earlyJump)
    (@Backtracking.searchStart _ (Toy.slotEngine Toy.earlyJump)
       (Toy.fresh Toy.earlyJump true)) sq = true ->
  sq = [doClick; noClick; noClick] \/
  lexLt [doClick; noClick; noClick] sq = true.
Proof.
  destruct sq as [|[a] [|[b] [|[c] [|[d] rest]]]];
    try (vm_compute; discriminate);
    try (destruct a; vm_compute; discriminate);
    try (destruct a, b; vm_compute; discriminate).
  - destruct a, b, c; vm_compute; intros E; try discriminate; auto.
  - destruct a, b, c; intros E; try (vm_compute in E; discriminate);
      cbn in E; discriminate.
Qed.

(** C2 on the code: with an engine that keeps one snapshot, the one
    [runSolverAndRecord] takes before the search, every restore inside
    [dfs] returns to the state before the search and not to the state
    before the step.  On the level [Toy.earlyJump] the search then reports
    no click, click, no click, no click.  Replayed from the start that
    sequence does not complete the level; the smallest sequence that does
    is click, no click, no click. *)
Lemma backtracking_dfs_returns_unplayable_sequence :
  exists s : Backtracking.Solver (Toy.Slot (Z * option Z)),
    @Backtracking.runSolverAndRecord _ (Toy.slotEngine Toy.earlyJump)
      (Toy.clockEvery 1000) (Toy.fresh Toy.earlyJump true) = Some (true, s) /\
    Backtracking.bestSequence s = [noClick; doClick; noClick; noClick] /\
    @Backtracking.isSuccess _ (Toy.slotEngine Toy.earlyJump)
      (@replay _ (Toy.slotEngine Toy.earlyJump)
         (@Backtracking.searchStart _ (Toy.slotEngine Toy.earlyJump)
            (Toy.fresh Toy.earlyJump true))
         (Backtracking.bestSequence s)) = false /\
    @Backtracking.drivesToSuccess _ (Toy.slotEngine Toy.earlyJump)
      (@Backtracking.searchStart _ (Toy.slotEngine Toy.earlyJump)
         (Toy.fresh Toy.earlyJump true))
      (Backtracking.bestSequence s) = false /\
    @Backtracking.drivesToSuccess _ (Toy.slotEngine Toy.earlyJump)
      (@Backtracking.searchStart _ (Toy.slotEngine Toy.earlyJump)
         (Toy.fresh Toy.earlyJump true))
      [doClick; noClick; noClick] = true /\
    (forall sq : list FrameInput,
        @Backtracking.drivesToSuccess _ (Toy.slotEngine Toy.earlyJump)
          (@Backtracking.searchStart _ (Toy.slotEngine Toy.earlyJump)
             (Toy.fresh Toy.earlyJump true)) sq = true ->
        sq = [doClick; noClick; noClick] \/
        lexLt [doClick; noClick; noClick] sq = true).
Proof.
  eexists. split; [vm_compute; reflexivity|].
  split; [reflexivity|]. split; [reflexivity|]. split; [reflexivity|].
  split; [reflexivity|]. exact earlyJump_solutions.
Qed.

(** On the engine-free search of src/src/main.cpp the order "no click"
    before "click" does give the least sequence: the 501 "no click" frames
    it reports are below every other sequence of that length. *)
Lemma all_noclick_is_least (n : nat) (sq : list FrameInput) :
  List.length sq = n ->
  sq = repeat noClick n \/ lexLt (repeat noClick n) sq = true.
Proof.
  revert sq. induction n as [|n IH]; intros sq Hlen.
  - destruct sq; [now left | discriminate].
  - destruct sq as [|[b] sq]; [discriminate|].
    injection Hlen as Hlen. destruct (IH sq Hlen) as [->|Hlt].
    + destruct b; [right; reflexivity | left; reflexivity].
    + right. destruct b; simpl; [reflexivity | exact Hlt].
Qed.

(** C4, the claim against the code: a timeout seen deep in the recursion
    does not end the search within one frame.  On a level without
    obstacles and a clock on which every call comes 100 ms after the one
    before, the call at frame 400 is the first to see more than
    [TIMEOUT_MS] elapsed; each of the 400 calls above it then still plays
    its "click" branch, one engine update each, before the search returns
    "not found". *)
Lemma backtracking_dfs_steps_after_timeout :
  option_map
    (fun r : bool * Backtracking.Solver (Toy.Slot Z) =>
       (fst r,
        countUpdates (Backtracking.trace (snd r)),
        updatesPastDeadline (Toy.clockEvery 100000000 O)
                            Backtracking.TIMEOUT_MS
                            (Backtracking.trace (snd r))))
    (@Backtracking.runSolverAndRecord _ (Toy.slotEngine Toy.longFlat)
       (Toy.clockEvery 100000000) (Toy.fresh Toy.longFlat true))
  = Some (false, 800%nat, Some 400%nat).
Proof. vm_compute. reflexivity. Qed.

(** ** The deadline in the backtracking search *)
Module BacktrackingDeadline.
Import Backtracking.

Section Facts.
Context {W : Type} {engine : PlayLayer W}.
Variable clk : Clock.
Variable start : Z.

Local Abbreviation past := (Backtracking.past start).
Local Abbreviation seen := (Backtracking.seen clk start).

Lemma past_clock (s : Solver W) :
  past (snd (clock_now clk s)) =
  match past s with
  | Some n => Some n
  | None => if elapsed_ms (clk (reads s)) start >? TIMEOUT_MS
            then Some O else None
  end.
Proof. unfold past. simpl. destruct (updatesPastDeadline _ _ _); reflexivity. Qed.

Lemma past_update (s : Solver W) :
  past (do_update s) = option_map S (past s).
Proof. unfold past. simpl. destruct (updatesPastDeadline _ _ _); reflexivity. Qed.

Lemma past_push (b : bool) (s : Solver W) : past (cur_push b s) = past s.
Proof. unfold past. simpl. destruct (updatesPastDeadline _ _ _); reflexivity. Qed.

Lemma past_pop (s : Solver W) : past (cur_pop s) = past s.
Proof. unfold past. simpl. destruct (updatesPastDeadline _ _ _); reflexivity. Qed.

Lemma past_restore (s : Solver W) : past (do_restore s) = past s.
Proof. unfold past. simpl. destruct (updatesPastDeadline _ _ _); reflexivity. Qed.

Lemma past_click (s : Solver W) : past (do_click s) = past s.
Proof.
  unfold past, do_click. destruct (m_player1 (pl s)); [|reflexivity].
  simpl. destruct (updatesPastDeadline _ _ _); reflexivity.
Qed.

Lemma past_status (msg : string) (s : Solver W) :
  past (updateStatus msg s) = past s.
Proof. unfold past. simpl. destruct (updatesPastDeadline _ _ _); reflexivity. Qed.

Create Rewrite HintDb past.
#[local] Hint Rewrite past_update past_push past_pop past_restore past_click
  past_status : past.

Lemma reads_click (s : Solver W) : reads (do_click s) = reads s.
Proof. unfold do_click. destruct (m_player1 (pl s)); reflexivity. Qed.

Lemma past_down (s : Solver W) : past (down s) = option_map S (past s).
Proof. unfold down. now autorewrite with past. Qed.

Lemma past_across (s : Solver W) : past (across s) = option_map S (past s).
Proof. unfold across. now autorewrite with past. Qed.

Lemma past_up (s : Solver W) : past (up s) = past s.
Proof. unfold up. now autorewrite with past. Qed.

Lemma seen_keep (s t : Solver W) :
  reads t = reads s ->
  (past t <> None -> past s <> None) ->
  seen s -> seen t.
Proof.
  intros Hr Hp Hs Ht. destruct (Hs (Hp Ht)) as [r0 [Hlt Hlate]].
  exists r0. rewrite Hr. now split.
Qed.

Lemma seen_down (s : Solver W) : seen s -> seen (down s).
Proof.
  apply seen_keep; [reflexivity|]. rewrite past_down.
  destruct (past s); [discriminate | intros E; exact E].
Qed.

Lemma seen_across (s : Solver W) : seen s -> seen (across s).
Proof.
  apply seen_keep.
  - unfold across. simpl. now rewrite reads_click.
  - rewrite past_across.
    destruct (past s); [discriminate | intros E; exact E].
Qed.

Lemma seen_up (s : Solver W) : seen s -> seen (up s).
Proof. apply seen_keep; [reflexivity|]. now rewrite past_up. Qed.

Lemma seen_clock (s : Solver W) : seen s -> seen (snd (clock_now clk s)).
Proof.
  intros Hs Hp. rewrite past_clock in Hp. simpl.
  destruct (past s) eqn:E.
  - destruct (Hs ltac:(rewrite E; discriminate)) as [r0 [Hlt Hlate]].
    exists r0. split; [lia | exact Hlate].
  - destruct (elapsed_ms (clk (reads s)) start >? TIMEOUT_MS) eqn:Hl;
      [|contradiction].
    exists (reads s). split; [lia|]. lia.
Qed.

Lemma dfs_step (fuel : nat) (frame : Z) (s : Solver W) :
  dfs clk (S fuel) start frame s =
  let s1 := snd (clock_now clk s) in
  if elapsed_ms (clk (reads s)) start >? TIMEOUT_MS
  then Some (false, s1)
  else if frame >=? MAX_SEARCH_FRAMES then Some (false, s1)
  else if getCurrentPercentInt (pl s1) >=? 100
  then Some (true, record_best s1)
  else if playerDead (pl s1) then Some (false, s1)
  else
    match dfs clk fuel start (frame + 1) (down s1) with
    | None => None
    | Some (true, s2) => Some (true, s2)
    | Some (false, s2) =>
      match dfs clk fuel start (frame + 1) (across s2) with
      | None => None
      | Some (true, s3) => Some (true, s3)
      | Some (false, s3) => Some (false, up s3)
      end
    end.
Proof. reflexivity. Qed.

(** What a call of [dfs] adds after the deadline.  Entered after a
    late reading it returns "not found" at once, without an update.
    Entered before, if a late reading occurs during the call then the
    call returns "not found" and at most [MAX_SEARCH_FRAMES - frame]
    updates follow that reading. *)
Lemma dfs_deadline :
  clock_monotone clk ->
  forall (fuel : nat) (frame : Z) (s : Solver W) (b : bool)
         (s' : Solver W),
    dfs clk fuel start frame s = Some (b, s') ->
    seen s ->
    frame <= MAX_SEARCH_FRAMES ->
    seen s' /\
    match past s with
    | Some n0 => b = false /\ past s' = Some n0
    | None =>
      match past s' with
      | None => True
      | Some n => b = false /\ Z.of_nat n <= MAX_SEARCH_FRAMES - frame
      end
    end.
Proof.
  intros Hmono.
  induction fuel as [|fuel IH]; intros frame s b s' Hrun Hseen Hcap;
    [discriminate|].
  rewrite dfs_step in Hrun. cbv zeta in Hrun.
  pose proof (seen_clock s Hseen) as Hseen1.
  pose proof (past_clock s) as Hp1.
  set (s1 := snd (clock_now clk s)) in *.
  destruct (past s) as [n0|] eqn:Hpast.
  - (* entered after a late reading *)
    destruct (Hseen ltac:(rewrite Hpast; discriminate))
      as [r0 [Hlt Hlate]].
    assert (Hnow : (elapsed_ms (clk (reads s)) start >? TIMEOUT_MS) = true).
    { pose proof (elapsed_ms_mono _ _ start
                    (Hmono r0 (reads s) ltac:(lia))). lia. }
    rewrite Hnow in Hrun. injection Hrun as <- <-.
    split; [exact Hseen1|]. split; [reflexivity | exact Hp1].
  - destruct (elapsed_ms (clk (reads s)) start >? TIMEOUT_MS) eqn:Hnow.
    { injection Hrun as <- <-. split; [exact Hseen1|].
      rewrite Hp1. split; [reflexivity | lia]. }
    destruct (frame >=? MAX_SEARCH_FRAMES) eqn:Hmax.
    { injection Hrun as <- <-. split; [exact Hseen1|].
      rewrite Hp1. exact I. }
    destruct (getCurrentPercentInt (pl s1) >=? 100).
    { injection Hrun as <- <-. split.
      - revert Hseen1. apply seen_keep; [reflexivity|].
        intros E. exact E.
      - change (past (record_best s1)) with (past s1).
        rewrite Hp1. exact I. }
    destruct (playerDead (pl s1)).
    { injection Hrun as <- <-. split; [exact Hseen1|].
      rewrite Hp1. exact I. }
    destruct (dfs clk fuel start (frame + 1) (down s1))
      as [[b1 s2]|] eqn:E1; [|discriminate].
    destruct (IH _ _ _ _ E1 (seen_down s1 Hseen1) ltac:(lia))
      as [Hseen2 Hd1].
    rewrite past_down, Hp1 in Hd1. cbn [option_map] in Hd1.
    destruct b1.
    { injection Hrun as <- <-. split; [exact Hseen2|].
      destruct (past s2); [|exact I].
      destruct Hd1 as [Hb _]. discriminate. }
    destruct (dfs clk fuel start (frame + 1) (across s2))
      as [[b2 s3]|] eqn:E2; [|discriminate].
    destruct (IH _ _ _ _ E2 (seen_across s2 Hseen2) ltac:(lia))
      as [Hseen3 Hd2].
    rewrite past_across in Hd2.
    destruct (past s2) as [n1|] eqn:Hp2; cbn [option_map] in Hd2.
    + (* the deadline was seen in the "no click" branch *)
      destruct Hd1 as [_ Hn1]. destruct Hd2 as [-> Hp3].
      injection Hrun as <- <-.
      split; [exact (seen_up s3 Hseen3)|].
      rewrite past_up, Hp3.
      split; [reflexivity | unfold MAX_SEARCH_FRAMES in *; lia].
    + destruct b2.
      * injection Hrun as <- <-. split; [exact Hseen3|].
        destruct (past s3); [|exact I].
        destruct Hd2 as [Hb _]. discriminate.
      * injection Hrun as <- <-.
        split; [exact (seen_up s3 Hseen3)|].
        rewrite past_up. destruct (past s3); [|exact I].
        destruct Hd2 as [_ Hn].
        split; [reflexivity | unfold MAX_SEARCH_FRAMES in *; lia].
Qed.

Lemma past_wrapUp (ok : bool) (s : Solver W) :
  past (wrapUp ok s) = past s.
Proof.
  unfold wrapUp. cbv zeta.
  destruct ok;
    match goal with
    | |- context [negb ?x] => destruct (negb x)
    end;
    unfold past; simpl;
    destruct (updatesPastDeadline _ _ _); reflexivity.
Qed.

End Facts.
End BacktrackingDeadline.

(** C4 as the code has it.  Every call of the backtracking [dfs] reads the
    clock first and, when more than [TIMEOUT_MS] have elapsed, returns "not
    found" at once without touching the engine; every randomized trial is
    started on a clock reading before the deadline, and the loop ends at
    the first reading that is not.  So the randomized search ends within
    one trial of the deadline.  The backtracking search does not end within
    one frame of it: it treats the timeout as a dead end, and on a
    monotone clock what follows the first late reading is "not found" and
    at most one engine update for each call that was open, at most
    [MAX_SEARCH_FRAMES] in all. *)
Theorem deadline_checked_per_call_and_per_trial :
  (forall (W : Type) (engine : PlayLayer W) (clk : Clock)
          (fuel : nat) (startTime frame : Z) (s : Backtracking.Solver W),
      elapsed_ms (clk (Backtracking.reads s)) startTime
      > Backtracking.TIMEOUT_MS ->
      Backtracking.dfs clk (S fuel) startTime frame s
      = Some (false, snd (Backtracking.clock_now clk s))) /\
  (forall (W : Type) (engine : PlayLayer W) (clk : Clock) (w : W)
          (b : bool) (s : Backtracking.Solver W),
      clock_monotone clk ->
      Backtracking.runSolverAndRecord clk w = Some (b, s) ->
      match updatesPastDeadline (clk O) Backtracking.TIMEOUT_MS
                                (Backtracking.trace s) with
      | None => True
      | Some n =>
        b = false /\ Z.of_nat n <= Backtracking.MAX_SEARCH_FRAMES
      end) /\
  (forall (W : Type) (engine : PlayLayer W) (R F : Type)
          (random : Randomized.RandomSource R F) (clk : Clock)
          (w : W) (seed : R) (g : Randomized.ModalState)
          (s : Randomized.Run W R F),
      Randomized.solverRun clk w seed g = Some s ->
      Forall (fun t : Randomized.Trial F =>
                Randomized.t_checked t
                < clk 1%nat + Randomized.TIMEOUT_MS * ns_per_ms)
             (Randomized.trials s)) /\
  (forall (W : Type) (engine : PlayLayer W) (R F : Type)
          (random : Randomized.RandomSource R F) (clk : Clock)
          (fuel : nat) (deadline trial : Z) (s : Randomized.Run W R F),
      trial < Randomized.MAX_TRIALS ->
      deadline <= clk (Randomized.reads s) ->
      Randomized.trialLoop clk (S fuel) deadline trial s
      = Some (snd (Randomized.clock_now clk s))).
Proof.
  split; [|split; [|split]].
  - intros W engine clk fuel startTime frame s Hlate.
    rewrite BacktrackingFacts.engine_dfs_eq. cbv zeta.
    replace (elapsed_ms (clk (Backtracking.reads s)) startTime
             >? Backtracking.TIMEOUT_MS) with true by lia.
    reflexivity.
  - intros W engine clk w b s Hmono Hrun.
    rewrite BacktrackingFacts.runSolverAndRecord_eq in Hrun.
    destruct (Backtracking.dfs clk Backtracking.dfs_fuel (clk O) 0 _)
      as [[ok s1]|] eqn:E; [|discriminate].
    injection Hrun as <- <-.
    assert (Hstart : Backtracking.past
                       (clk O)
                       (snd (Backtracking.clock_now
                               clk (Backtracking.prepare w))) = None).
    { unfold Backtracking.past. simpl.
      unfold elapsed_ms. rewrite Z.sub_diag. reflexivity. }
    destruct (BacktrackingDeadline.dfs_deadline clk (clk O) Hmono
                _ _ _ _ _ E) as [_ Hd].
    + intros Hne. rewrite Hstart in Hne. contradiction.
    + unfold Backtracking.MAX_SEARCH_FRAMES. lia.
    + rewrite Hstart in Hd.
      change (updatesPastDeadline (clk O) Backtracking.TIMEOUT_MS
                (Backtracking.trace (Backtracking.wrapUp ok s1)))
        with (Backtracking.past (clk O)
                                        (Backtracking.wrapUp ok s1)).
      rewrite BacktrackingDeadline.past_wrapUp.
      destruct (Backtracking.past (clk O) s1); [|exact I].
      destruct Hd as [Hb Hn]. split; [exact Hb | lia].
  - intros W engine R F random clk w seed g s Hrun.
    rewrite RandomizedFacts.solverRun_eq in Hrun.
    rewrite RandomizedFacts.search_eq in Hrun.
    destruct (Randomized.trialLoop clk Randomized.loop_fuel _ 0 _)
      as [s1|] eqn:Hloop; [|discriminate].
    injection Hrun as <-.
    destruct (RandomizedFacts.finish_keeps s1) as [_ [_ [_ [Ht _]]]].
    rewrite Ht.
    refine (RandomizedFacts.trialLoop_invariant
              clk (fun t => Forall _ (Randomized.trials t))
              _ _ _ _ _ _ _ Hloop _).
    + intros t Hgood. exact Hgood.
    + intros trial t Hgood _ Hd _.
      destruct (RandomizedFacts.trialBody_spec
                  trial (clk (Randomized.reads t))
                  (snd (Randomized.clock_now clk t)))
        as [entry [Htr [_ [Hadm _]]]].
      rewrite Htr. constructor; [|exact Hgood].
      rewrite Hadm. exact Hd.
    + constructor.
  - intros W engine R F random clk fuel deadline trial s Htrial Hlate.
    rewrite RandomizedFacts.trialLoop_eq. cbv zeta.
    replace (trial <? Randomized.MAX_TRIALS) with true by lia.
    replace (clk (Randomized.reads s) <? deadline) with false by lia.
    reflexivity.
Qed.

(** [deadline_checked_per_call_and_per_trial] on the run of the
    counterexample: 400 updates follow the first late reading. *)
Lemma deadline_checked_per_call_and_per_trial_witness :
  exists (b : bool) (s : Backtracking.Solver (Toy.Slot Z)),
    @Backtracking.runSolverAndRecord _ (Toy.slotEngine Toy.longFlat)
      (Toy.clockEvery 100000000) (Toy.fresh Toy.longFlat true)
    = Some (b, s) /\
    match updatesPastDeadline (Toy.clockEvery 100000000 O)
                              Backtracking.TIMEOUT_MS
                              (Backtracking.trace s) with
    | None => True
    | Some n => b = false /\ Z.of_nat n <= Backtracking.MAX_SEARCH_FRAMES
    end.
Proof.
  destruct (@Backtracking.runSolverAndRecord
              _ (Toy.slotEngine Toy.longFlat) (Toy.clockEvery 100000000)
              (Toy.fresh Toy.longFlat true)) as [[b s]|] eqn:Hrun.
  - exists b, s. split; [reflexivity|].
    apply (proj1 (proj2 deadline_checked_per_call_and_per_trial)
                 _ (Toy.slotEngine Toy.longFlat) (Toy.clockEvery 100000000)
                 (Toy.fresh Toy.longFlat true) b s).
    + apply clockEvery_monotone. lia.
    + exact Hrun.
  - exfalso. exact (BacktrackingFacts.runSolverAndRecord_total _ _ Hrun).
Defined.

(** * Further properties of the code *)

Module MacroTextFacts.
Import Randomized Decoder MacroText TextFacts RandomizedFacts.
Local Open Scope string_scope.

Lemma allChars_app (p : ascii -> bool) (a b : string) :
  allChars p (a ++ b) = allChars p a && allChars p b.
Proof.
  induction a as [|c a IH]; simpl; [reflexivity|].
  now rewrite IH, andb_assoc.
Qed.

Lemma allChars_weaken (p q : ascii -> bool) (a : string) :
  (forall c : ascii, p c = true -> q c = true) ->
  allChars p a = true -> allChars q a = true.
Proof.
  intros Hpq. induction a as [|c a IH]; simpl; [reflexivity|].
  intros H. apply andb_true_iff in H. destruct H as [Hc Ha].
  now rewrite (Hpq c Hc), (IH Ha).
Qed.

Lemma uint_digits (d : uint) :
  allChars isDigit (NilEmpty.string_of_uint d) = true.
Proof. induction d; simpl; auto. Qed.

(** A frame number that is not negative prints as digits only. *)
Lemma fmt_int_digits (n : Z) :
  0 <= n -> allChars isDigit (fmt_int n) = true.
Proof.
  intros Hn. unfold fmt_int.
  destruct n as [|p|p]; [reflexivity| |lia].
  simpl. destruct (Pos.to_uint p) eqn:E; try apply uint_digits.
  reflexivity.
Qed.

Lemma joinFrom_concat (xs : list string) :
  joinFrom false xs = String.concat "," xs /\
  (xs <> [] -> joinFrom true xs = "," ++ String.concat "," xs).
Proof.
  induction xs as [|x xs [IH1 IH2]]; [split; [reflexivity | congruence]|].
  assert (H : joinFrom true xs
              = match xs with [] => "" | _ => "," ++ String.concat "," xs end).
  { destruct xs; [reflexivity | apply IH2; discriminate]. }
  split; [|intros _]; cbn [joinFrom String.concat]; rewrite H;
    destruct xs; simpl; rewrite ?append_nil_r; reflexivity.
Qed.

Lemma encodeClicks_concat (cs : list Z) :
  encodeClicks cs = String.concat "," (map fmt_int cs).
Proof.
  unfold encodeClicks. rewrite csvLoop_spec.
  change (0 <? 0)%nat with false.
  exact (proj1 (joinFrom_concat _)).
Qed.

Lemma encodeClicks_empty (cs : list Z) :
  encodeClicks cs = "" <-> cs = [].
Proof.
  split; [|intros ->; reflexivity].
  intros E. apply encodeClicks_inj. exact E.
Qed.

Lemma joinFrom_chars (sep : bool) (cs : list Z) :
  Forall (fun c => 0 <= c) cs ->
  allChars csvChar (joinFrom sep (map fmt_int cs)) = true.
Proof.
  intros Hcs. revert sep.
  induction Hcs as [|c cs Hc _ IH]; intros sep; [reflexivity|].
  cbn [map joinFrom]. rewrite !allChars_app, IH, andb_true_r.
  rewrite (allChars_weaken isDigit csvChar (fmt_int c)).
  - destruct sep; reflexivity.
  - intros d Hd. unfold csvChar. now rewrite Hd.
  - now apply fmt_int_digits.
Qed.

Lemma clickFrames_nil :
  forall (sq : list FrameInput) (i : Z),
    clickFrames i sq = [] <-> Forall (fun x => click x = false) sq.
Proof.
  induction sq as [|x sq IH]; intros i; simpl.
  - split; auto.
  - destruct (click x) eqn:Hx.
    + split; [discriminate|]. intros H. inversion H; congruence.
    + rewrite IH. split; intros H.
      * constructor; assumption.
      * now inversion H.
Qed.

Lemma clickFrames_sorted :
  forall (sq : list FrameInput) (i0 : Z),
    StronglySorted Z.lt (clickFrames i0 sq).
Proof.
  induction sq as [|x sq IH]; intros i0; simpl; [constructor|].
  destruct (click x); [|apply IH].
  constructor; [apply IH|].
  apply Forall_forall. intros j Hj.
  apply clickFrames_bounds in Hj. lia.
Qed.

Lemma clickFrames_count :
  forall (sq : list FrameInput) (i0 : Z),
    List.length (clickFrames i0 sq) = List.length (filter click sq).
Proof.
  induction sq as [|x sq IH]; intros i0; simpl; [reflexivity|].
  destruct (click x); simpl; now rewrite IH.
Qed.

End MacroTextFacts.

(** X1.  The text the randomized search stores for export (lines
    135-141) is the click frames of the sequence, printed in decimal and
    joined by single commas, with no comma before the first or after the
    last.  It consists of digits and commas only, and it is empty exactly
    when the sequence has no click. *)
Theorem macro_text_is_comma_separated_frame_numbers :
  forall sq : list FrameInput,
    Randomized.encode sq
    = String.concat "," (map fmt_int (Randomized.clickFrames 0 sq)) /\
    Decoder.allChars MacroText.csvChar (Randomized.encode sq) = true /\
    (Randomized.encode sq = EmptyString <->
     Forall (fun x => click x = false) sq).
Proof.
  intros sq. unfold Randomized.encode.
  split; [apply MacroTextFacts.encodeClicks_concat|]. split.
  - unfold Randomized.encodeClicks. rewrite TextFacts.csvLoop_spec.
    change (Decoder.allChars MacroText.csvChar
              (Decoder.joinFrom false
                 (map fmt_int (Randomized.clickFrames 0 sq))) = true).
    apply MacroTextFacts.joinFrom_chars.
    apply Forall_forall. intros c Hc.
    apply RandomizedFacts.clickFrames_bounds in Hc. lia.
  - rewrite MacroTextFacts.encodeClicks_empty.
    apply MacroTextFacts.clickFrames_nil.
Qed.

(** X2.  The click frames collected from a sequence (lines 115-117),
    counted from [i0], are strictly increasing; frame [i0 + j] is listed
    exactly when entry [j] of the sequence is a click; and there are as
    many of them as the sequence has clicks. *)
Theorem click_frames_are_increasing :
  forall (sq : list FrameInput) (i0 : Z),
    StronglySorted Z.lt (Randomized.clickFrames i0 sq) /\
    (forall i : Z,
        In i (Randomized.clickFrames i0 sq) <->
        exists j : nat,
          (j < List.length sq)%nat /\ i = i0 + Z.of_nat j /\
          click (nth j sq noClick) = true) /\
    List.length (Randomized.clickFrames i0 sq)
    = List.length (filter click sq).
Proof.
  intros sq i0.
  split; [apply MacroTextFacts.clickFrames_sorted|].
  split; [|apply MacroTextFacts.clickFrames_count].
  intros i. split.
  - intros Hin.
    pose proof (RandomizedFacts.clickFrames_bounds _ _ _ Hin) as Hb.
    exists (Z.to_nat (i - i0)).
    assert (Hj : (Z.to_nat (i - i0) < List.length sq)%nat) by lia.
    split; [exact Hj|]. split; [lia|].
    rewrite <- (RandomizedFacts.clickFrames_mem sq i0 _ Hj).
    apply existsb_exists. exists i. split; [exact Hin|].
    apply Z.eqb_eq. lia.
  - intros [j [Hj [-> Hc]]].
    rewrite <- (RandomizedFacts.clickFrames_mem sq i0 _ Hj) in Hc.
    apply existsb_exists in Hc. destruct Hc as [k [Hin Hk]].
    apply Z.eqb_eq in Hk. now subst.
Qed.

Module TrialLogFacts.
Import Randomized TrialLog RandomizedFacts.

Section Facts.
Context {W : Type} {engine : PlayLayer W}.
Context {R F : Type} {random : RandomSource R F}.
Variable clk : Clock.

Lemma trialBody_status (trial now : Z) (s : Run W R F) :
  exists entry : Trial F,
    trials (trialBody trial now s) = entry :: trials s /\
    t_trial entry = trial /\
    status (trialBody trial now s)
    = (if Z.rem trial 10 =? 0
       then [tryingMessage trial (t_seqLen entry)] else []) ++ status s.
Proof.
  unfold trialBody.
  destruct (uniform_int 60 (Z.min MAX_SEARCH_FRAMES 600) (rng s))
    as [seqLen r1].
  destruct (uniform_real lit_0_01 lit_0_15 r1) as [clickProb r2].
  destruct (genSeq (Z.to_nat seqLen) clickProb r2) as [sq r3].
  destruct (simulate 0 sq (trialReset (pl s))) as [outcome w].
  exists (mkTrial trial now seqLen clickProb sq outcome).
  destruct outcome; destruct (Z.rem trial 10 =? 0); simpl; auto.
Qed.

Lemma logShape_body (g : ModalState) (trial now : Z) (s : Run W R F) :
  logShape g trial s -> found s = false -> trial < MAX_TRIALS ->
  logShape g (trial + 1) (trialBody trial now s).
Proof.
  intros [Hlen [Hle [Hnum [Hold [Hfound [_ [Hstat Hmod]]]]]]] Hnf Hlt.
  destruct (trialBody_spec trial now s)
    as [entry [Htr [Hno [_ [_ [_ [_ [_ [_ [Hm Hout]]]]]]]]]].
  destruct (trialBody_status trial now s)
    as [entry' [Htr' [_ Hst]]].
  rewrite Htr in Htr'. injection Htr' as <-.
  unfold logShape. rewrite Htr, Hm, Hst.
  cbn [List.length tl map countdown].
  split; [lia|]. split; [lia|]. split.
  { rewrite Hno, <- Hnum. f_equal. lia. }
  split.
  { destruct (trials s) as [|t ts]; [constructor|].
    constructor; [|exact Hold]. rewrite <- Hfound. exact Hnf. }
  split.
  { destruct (t_outcome entry); simpl; destruct Hout as [Hf _];
      congruence. }
  split.
  { intros Hyes. destruct (t_outcome entry); destruct Hout as [Hf Hc];
      [exact Hc | congruence | congruence]. }
  split; [|exact Hmod].
  unfold tryingLog. cbn [filter]. rewrite Hno.
  destruct (Z.rem trial 10 =? 0); cbn [map app];
    fold (tryingLog (trials s)); rewrite ?Hno, Hstat; reflexivity.
Qed.

Lemma logShape_loop (g : ModalState) :
  forall (fuel : nat) (deadline trial : Z) (s s' : Run W R F),
    trialLoop clk fuel deadline trial s = Some s' ->
    logShape g trial s ->
    exists trial' : Z, logShape g trial' s'.
Proof.
  induction fuel as [|fuel IH]; intros deadline trial s s' Hrun Hs;
    [discriminate|].
  rewrite trialLoop_eq in Hrun. cbv zeta in Hrun.
  destruct (trial <? MAX_TRIALS) eqn:Ht; cbn [negb] in Hrun;
    [|injection Hrun as <-; exists trial; exact Hs].
  destruct (clk (reads s) <? deadline); cbn [negb] in Hrun;
    [|injection Hrun as <-; exists trial; exact Hs].
  destruct (found s) eqn:Hf;
    [injection Hrun as <-; exists trial; exact Hs|].
  apply (IH _ _ _ _ Hrun).
  apply logShape_body; auto. lia.
Qed.

Lemma finish_modal (s : Run W R F) :
  modal (finish s)
  = mkModal (if found s then encodeClicks (foundClicks s)
             else lastReplayData (modal s)) false.
Proof. unfold finish. destruct (found s); reflexivity. Qed.

Lemma finish_messages (s : Run W R F) :
  status (finish s) = closingMessages (found s) ++ status s.
Proof. unfold finish. destruct (found s) eqn:E; simpl; reflexivity. Qed.

(** The loop and the report of a whole [solverRun]. *)
Lemma solverRun_log (w : W) (seed : R) (g : ModalState) :
  exists (s1 : Run W R F) (trial : Z),
    solverRun clk w seed g = Some (finish s1) /\
    logShape g trial s1.
Proof.
  rewrite solverRun_eq, search_eq.
  destruct (trialLoop clk loop_fuel _ 0 _) as [s1|] eqn:Hloop.
  - destruct (logShape_loop g _ _ _ _ _ Hloop) as [trial Hs].
    + unfold logShape. simpl. unfold MAX_TRIALS.
      repeat split; auto; try lia; discriminate.
    + exists s1, trial. split; [reflexivity | exact Hs].
  - exfalso. revert Hloop. apply trialLoop_total.
    unfold loop_fuel, MAX_TRIALS. lia.
Qed.

End Facts.
End TrialLogFacts.

(** X3.  The randomized search always returns, after at most [MAX_TRIALS]
    trials numbered consecutively from 0.  It stops at the first trial that
    reaches 100%: no trial before the last one run succeeded, and [found]
    is set exactly when the last one did. *)
Theorem trials_are_numbered_and_stop_at_first_success :
  forall (W : Type) (engine : PlayLayer W) (R F : Type)
         (random : Randomized.RandomSource R F) (clk : Clock)
         (w : W) (seed : R) (g : Randomized.ModalState),
  exists s : Randomized.Run W R F,
    Randomized.solverRun clk w seed g = Some s /\
    Z.of_nat (List.length (Randomized.trials s)) <= Randomized.MAX_TRIALS /\
    map Randomized.t_trial (Randomized.trials s)
    = TrialLog.countdown (List.length (Randomized.trials s)) /\
    Forall (fun t => TrialLog.succeeded (Randomized.t_outcome t) = false)
           (tl (Randomized.trials s)) /\
    Randomized.found s
    = match Randomized.trials s with
      | [] => false
      | t :: _ => TrialLog.succeeded (Randomized.t_outcome t)
      end.
Proof.
  intros W engine R F random clk w seed g.
  destruct (TrialLogFacts.solverRun_log clk w seed g)
    as [s1 [trial [Hrun [Hlen [Hle [Hnum [Hold [Hfound _]]]]]]]].
  destruct (RandomizedFacts.finish_keeps s1) as [_ [Hf [_ [Ht _]]]].
  exists (Randomized.finish s1). split; [exact Hrun|].
  rewrite Ht, Hf. repeat split; auto. lia.
Qed.

(** X4.  The progress messages of a search, the newest first: the closing
    report (two messages when a run was found, one when none was), one
    "Trying..." message for each trial whose number is a multiple of ten,
    carrying that number and the trial's length, and "Solver starting...". *)
Theorem status_messages_follow_the_trials :
  forall (W : Type) (engine : PlayLayer W) (R F : Type)
         (random : Randomized.RandomSource R F) (clk : Clock)
         (w : W) (seed : R) (g : Randomized.ModalState),
  exists s : Randomized.Run W R F,
    Randomized.solverRun clk w seed g = Some s /\
    Randomized.status s
    = TrialLog.closingMessages (Randomized.found s)
        ++ TrialLog.tryingLog (Randomized.trials s)
        ++ ["Solver starting..."%string].
Proof.
  intros W engine R F random clk w seed g.
  destruct (TrialLogFacts.solverRun_log clk w seed g)
    as [s1 [trial [Hrun [_ [_ [_ [_ [_ [_ [Hstat _]]]]]]]]]].
  destruct (RandomizedFacts.finish_keeps s1) as [_ [Hf [_ [Ht _]]]].
  exists (Randomized.finish s1). split; [exact Hrun|].
  rewrite TrialLogFacts.finish_messages, Hf, Ht, Hstat. reflexivity.
Qed.

(** X5.  What the Export button finds after a search.  [running] is
    cleared.  When no run was found the stored text is the one from before
    the search.  When a run was found the stored text is the encoding of
    the successful trial, which is empty exactly when that trial has no
    click.  The export handler writes a file exactly when the stored text
    is not empty: a run found without a single click cannot be exported,
    and after a failed search the text of an earlier one still is. *)
Theorem export_after_a_search :
  forall (W : Type) (engine : PlayLayer W) (R F : Type)
         (random : Randomized.RandomSource R F) (clk : Clock)
         (w : W) (seed : R) (g : Randomized.ModalState),
  exists s : Randomized.Run W R F,
    Randomized.solverRun clk w seed g = Some s /\
    Randomized.running (Randomized.modal s) = false /\
    (Randomized.found s = false ->
     Randomized.lastReplayData (Randomized.modal s)
     = Randomized.lastReplayData g) /\
    (Randomized.found s = true ->
     exists (t : Randomized.Trial F) (older : list (Randomized.Trial F)),
       Randomized.trials s = t :: older /\
       Randomized.lastReplayData (Randomized.modal s)
       = Randomized.encode (Randomized.t_seq t) /\
       (Randomized.lastReplayData (Randomized.modal s) = EmptyString <->
        Forall (fun x => click x = false) (Randomized.t_seq t))) /\
    (forall (levelName : option string) (t : Z),
        Randomized.onExportClicked levelName t (Randomized.modal s)
        = if String.eqb (Randomized.lastReplayData (Randomized.modal s))
                        EmptyString
          then None
          else Some (Randomized.exportName EmptyString ".macro.txt"
                                           levelName t,
                     Randomized.lastReplayData (Randomized.modal s))).
Proof.
  intros W engine R F random clk w seed g.
  destruct (TrialLogFacts.solverRun_log clk w seed g)
    as [s1 [trial [Hrun [_ [_ [_ [_ [Hfound [Hclicks [_ Hmod]]]]]]]]]].
  destruct (RandomizedFacts.finish_keeps s1) as [_ [Hf [_ [Ht _]]]].
  exists (Randomized.finish s1). split; [exact Hrun|].
  rewrite TrialLogFacts.finish_modal, Hf, Ht, Hmod. cbn [Randomized.running
    Randomized.lastReplayData].
  split; [reflexivity|]. split; [intros ->; reflexivity|].
  split; [|intros levelName t; reflexivity].
  intros Hyes. rewrite Hyes. rewrite Hyes in Hfound.
  specialize (Hclicks Hyes).
  destruct (Randomized.trials s1) as [|t older]; [discriminate|].
  exists t, older. split; [reflexivity|].
  rewrite Hclicks. split; [reflexivity|].
  rewrite MacroTextFacts.encodeClicks_empty.
  apply MacroTextFacts.clickFrames_nil.
Qed.

Module SimulateFacts.
Import Randomized.

Section Facts.
Context {W : Type} {engine : PlayLayer W}.

(** A trial that ends with the gameplay inactive at frame [f] played the
    frames [f0 .. f], met neither success nor inactive gameplay before
    [f], and stopped in the engine state reached. *)
Lemma simulate_died :
  forall (rest : list FrameInput) (f0 : Z) (w : W) (f : Z) (w' : W),
    simulate f0 rest w = (Died f, w') ->
    exists n : nat,
      f = f0 + Z.of_nat n /\
      (n < List.length rest)%nat /\
      w' = replay w (firstn (S n) rest) /\
      getCurrentPercentInt w' < 100 /\
      isGameplayActive w' = false /\
      forall m : nat, (1 <= m <= n)%nat ->
        getCurrentPercentInt (replay w (firstn m rest)) < 100 /\
        isGameplayActive (replay w (firstn m rest)) = true.
Proof.
  induction rest as [|x rest IH]; intros f0 w f w' Hsim; simpl in Hsim;
    [discriminate|].
  destruct (getCurrentPercentInt (update (applyClick (click x) w)) >=? 100)
    eqn:Hpc; [discriminate|].
  destruct (isGameplayActive (update (applyClick (click x) w)))
    eqn:Hact; simpl in Hsim.
  - apply IH in Hsim.
    destruct Hsim as [n [Hf [Hn [Hw [Hp [Hi Hbefore]]]]]].
    exists (S n).
    split; [lia|]. split; [simpl; lia|].
    split; [exact Hw|]. split; [exact Hp|]. split; [exact Hi|].
    intros m Hm. destruct m as [|m]; [lia|].
    destruct m as [|m].
    + simpl. unfold stepFrame. split; [lia | exact Hact].
    + apply (Hbefore (S m)). lia.
  - injection Hsim as <- <-. exists O. simpl. unfold stepFrame.
    repeat split; try lia. exact Hact.
Qed.

(** A trial that used up its sequence played all of it and met neither
    success nor inactive gameplay. *)
Lemma simulate_ranOut :
  forall (rest : list FrameInput) (f0 : Z) (w w' : W),
    simulate f0 rest w = (RanOut, w') ->
    w' = replay w rest /\
    forall m : nat, (1 <= m <= List.length rest)%nat ->
      getCurrentPercentInt (replay w (firstn m rest)) < 100 /\
      isGameplayActive (replay w (firstn m rest)) = true.
Proof.
  induction rest as [|x rest IH]; intros f0 w w' Hsim; simpl in Hsim.
  - injection Hsim as <-. split; [reflexivity|]. simpl. intros m Hm. lia.
  - destruct (getCurrentPercentInt (update (applyClick (click x) w)) >=? 100)
      eqn:Hpc; [discriminate|].
    destruct (isGameplayActive (update (applyClick (click x) w)))
      eqn:Hact; simpl in Hsim; [|discriminate].
    apply IH in Hsim. destruct Hsim as [Hw Hbefore].
    split; [exact Hw|].
    intros m Hm. destruct m as [|m]; [lia|].
    destruct m as [|m].
    + simpl. unfold stepFrame. split; [lia | exact Hact].
    + apply (Hbefore (S m)). simpl in Hm. lia.
Qed.

End Facts.
End SimulateFacts.

(** X6.  How a trial ends.  The simulation loop plays the frames of the
    sequence in order from the engine state it is given and stops after
    the first frame on which the level is complete or, failing that, the
    gameplay is no longer active; it plays the whole sequence when neither
    happens.  The state it ends in is the replay of the frames played, and
    after every earlier frame the level was incomplete and the gameplay
    active. *)
Theorem trial_stops_at_first_success_or_inactive_frame :
  forall (W : Type) (engine : PlayLayer W) (sq : list FrameInput) (w : W),
    let o := fst (Randomized.simulate 0 sq w) in
    let w' := snd (Randomized.simulate 0 sq w) in
    let n := TrialLog.framesPlayed o (List.length sq) in
    (n <= List.length sq)%nat /\
    w' = replay w (firstn n sq) /\
    (forall m : nat, (1 <= m < n)%nat ->
        getCurrentPercentInt (replay w (firstn m sq)) < 100 /\
        isGameplayActive (replay w (firstn m sq)) = true) /\
    match o with
    | Randomized.Succeeded f =>
      0 <= f < Z.of_nat (List.length sq) /\ getCurrentPercentInt w' >= 100
    | Randomized.Died f =>
      0 <= f < Z.of_nat (List.length sq) /\
      getCurrentPercentInt w' < 100 /\ isGameplayActive w' = false
    | Randomized.RanOut =>
      sq <> [] ->
      getCurrentPercentInt w' < 100 /\ isGameplayActive w' = true
    end.
Proof.
  intros W engine sq w.
  destruct (Randomized.simulate 0 sq w) as [o w'] eqn:Hsim.
  cbn [fst snd]. cbv zeta.
  destruct o as [f|f|].
  - destruct (RandomizedFacts.simulate_succeeded _ _ _ _ _ Hsim)
      as [n [Hf [Hn [Hw [Hp Hbefore]]]]].
    replace (TrialLog.framesPlayed (Randomized.Succeeded f)
                                   (List.length sq)) with (S n)
      by (simpl; f_equal; lia).
    split; [lia|]. split; [exact Hw|]. split.
    + intros m Hm. apply Hbefore. lia.
    + split; [lia | exact Hp].
  - destruct (SimulateFacts.simulate_died _ _ _ _ _ Hsim)
      as [n [Hf [Hn [Hw [Hp [Hi Hbefore]]]]]].
    replace (TrialLog.framesPlayed (Randomized.Died f)
                                   (List.length sq)) with (S n)
      by (simpl; f_equal; lia).
    split; [lia|]. split; [exact Hw|]. split.
    + intros m Hm. apply Hbefore. lia.
    + split; [lia|]. split; [exact Hp | exact Hi].
  - destruct (SimulateFacts.simulate_ranOut _ _ _ _ Hsim) as [Hw Hbefore].
    cbn [TrialLog.framesPlayed].
    split; [lia|]. rewrite firstn_all. split; [exact Hw|]. split.
    + intros m Hm. apply Hbefore. lia.
    + intros Hne. rewrite Hw.
      rewrite <- (firstn_all sq) at 1 2.
      apply Hbefore. destruct sq; [congruence | simpl; lia].
Qed.

(** ** src/unnamed/part_000: the working vector and the trace *)
Module BacktrackingStack.
Import Backtracking TraceKinds BacktrackingTrace BacktrackingFacts.

Section Facts.
Context {W : Type} {engine : PlayLayer W}.
Variable clk : Clock.

Lemma pl_record_best (s : Solver W) : pl (record_best s) = pl s.
Proof. reflexivity. Qed.

(** The stack discipline of [dfs]: a call that fails leaves [current] and
    [bestSequence] as it found them; a call that succeeds returns in an
    engine state with the level complete, with [current] extended and
    copied to [bestSequence]. *)
Lemma engine_dfs_stack :
  forall (fuel : nat) (startTime frame : Z) (s : Solver W) (b : bool)
         (s' : Solver W),
    dfs clk fuel startTime frame s = Some (b, s') ->
    if b
    then getCurrentPercentInt (pl s') >= 100 /\
         bestSequence s' = current s' /\
         exists ext : list FrameInput, current s' = current s ++ ext
    else current s' = current s /\ bestSequence s' = bestSequence s.
Proof.
  induction fuel as [|fuel IH]; intros startTime frame s b s' Hrun;
    [discriminate|].
  rewrite engine_dfs_eq in Hrun. cbv zeta in Hrun.
  destruct (elapsed_ms _ _ >? _).
  { injection Hrun as <- <-. split; reflexivity. }
  destruct (frame >=? MAX_SEARCH_FRAMES).
  { injection Hrun as <- <-. split; reflexivity. }
  destruct (getCurrentPercentInt _ >=? 100) eqn:Hpc.
  { injection Hrun as <- <-. rewrite pl_record_best.
    split; [simpl in Hpc |- *; lia|]. split; [reflexivity|].
    exists []. simpl. now rewrite app_nil_r. }
  destruct (playerDead _).
  { injection Hrun as <- <-. split; reflexivity. }
  destruct (dfs clk fuel startTime (frame + 1) (cur_push false _))
    as [[[|] s2]|] eqn:E1; try discriminate.
  - injection Hrun as <- <-. apply IH in E1.
    destruct E1 as [Hp [Hb [ext Hext]]].
    split; [exact Hp|]. split; [exact Hb|].
    exists (noClick :: ext). rewrite Hext. simpl. unfold push_back.
    now rewrite <- app_assoc.
  - apply IH in E1. destruct E1 as [Hc1 Hb1].
    assert (Hcur : current (do_click (cur_pop (do_restore s2))) = current s).
    { rewrite current_do_click. simpl. rewrite Hc1. simpl.
      apply pop_push. }
    destruct (dfs clk fuel startTime (frame + 1) (cur_push true _))
      as [[[|] s3]|] eqn:E2; try discriminate;
      injection Hrun as <- <-; apply IH in E2.
    + destruct E2 as [Hp [Hb [ext Hext]]].
      split; [exact Hp|]. split; [exact Hb|].
      exists (doClick :: ext). rewrite Hext.
      unfold cur_push, do_update. cbn [current with_pl].
      rewrite Hcur. unfold push_back. now rewrite <- app_assoc.
    + destruct E2 as [Hc2 Hb2]. simpl. rewrite Hc2, Hb2.
      unfold cur_push, do_update. cbn [current bestSequence with_pl].
      rewrite Hcur, pop_push, bestSequence_do_click. simpl.
      split; [reflexivity | exact Hb1].
Qed.

Lemma balanced_refl (s : Solver W) : balanced s s.
Proof. unfold balanced. repeat split; lia. Qed.

Lemma balanced_clock (s : Solver W) : balanced s (snd (clock_now clk s)).
Proof. unfold balanced, countEvents. simpl. repeat split; lia. Qed.

Lemma balanced_trans (a b c : Solver W) :
  balanced a b -> balanced b c -> balanced a c.
Proof. unfold balanced. intros H1 H2. repeat split; lia. Qed.

Lemma balanced_down (s : Solver W) : balanced s (cur_push false (do_update s)).
Proof.
  unfold balanced, countEvents, cur_push, do_update, push_back. simpl.
  rewrite length_app. simpl. repeat split; lia.
Qed.

Lemma trace_do_click_cases (s : Solver W) :
  trace (do_click s) = trace s \/ trace (do_click s) = EvPushButton :: trace s.
Proof. unfold do_click. destruct (m_player1 (pl s)); auto. Qed.

Lemma balanced_across (s : Solver W) (x : FrameInput) (v : list FrameInput) :
  current s = push_back v x ->
  balanced s (cur_push true (do_update (do_click (cur_pop (do_restore s))))).
Proof.
  intros Hcur.
  set (t := cur_pop (do_restore s)).
  assert (Ht : trace t = EvPopBack :: EvRestore :: trace s) by reflexivity.
  assert (Hc : current t = v).
  { unfold t. simpl. rewrite Hcur. apply pop_push. }
  unfold balanced, cur_push, do_update. cbn [trace current with_pl].
  rewrite current_do_click, Hc, Hcur. unfold push_back.
  rewrite !length_app. cbn [List.length].
  unfold countEvents.
  destruct (trace_do_click_cases t) as [E|E]; rewrite E, Ht;
    simpl; repeat split; lia.
Qed.

Lemma balanced_up (s : Solver W) (x : FrameInput) (v : list FrameInput) :
  current s = push_back v x ->
  balanced s (cur_pop (do_restore s)).
Proof.
  intros Hcur. unfold balanced, countEvents. simpl.
  rewrite Hcur, pop_push. unfold push_back. rewrite length_app. simpl.
  repeat split; lia.
Qed.

Lemma engine_dfs_balanced :
  forall (fuel : nat) (startTime frame : Z) (s : Solver W) (b : bool)
         (s' : Solver W),
    dfs clk fuel startTime frame s = Some (b, s') -> balanced s s'.
Proof.
  induction fuel as [|fuel IH]; intros startTime frame s b s' Hrun;
    [discriminate|].
  rewrite engine_dfs_eq in Hrun. cbv zeta in Hrun.
  pose proof (balanced_clock s) as H1.
  set (s1 := snd (clock_now clk s)) in *.
  destruct (elapsed_ms _ _ >? _).
  { injection Hrun as <- <-. exact H1. }
  destruct (frame >=? MAX_SEARCH_FRAMES).
  { injection Hrun as <- <-. exact H1. }
  destruct (getCurrentPercentInt _ >=? 100).
  { injection Hrun as <- <-. exact H1. }
  destruct (playerDead _).
  { injection Hrun as <- <-. exact H1. }
  pose proof (balanced_down s1) as H2.
  destruct (dfs clk fuel startTime (frame + 1) (cur_push false _))
    as [[[|] s2]|] eqn:E1; try discriminate.
  - injection Hrun as <- <-. apply IH in E1.
    exact (balanced_trans _ _ _ H1 (balanced_trans _ _ _ H2 E1)).
  - pose proof (engine_dfs_stack _ _ _ _ _ _ E1) as [Hc1 _].
    apply IH in E1.
    assert (Hc1' : current s2 = push_back (current s1) noClick)
      by (rewrite Hc1; reflexivity).
    pose proof (balanced_across s2 _ _ Hc1') as H3.
    destruct (dfs clk fuel startTime (frame + 1) (cur_push true _))
      as [[[|] s3]|] eqn:E2; try discriminate;
      injection Hrun as <- <-.
    + apply IH in E2.
      exact (balanced_trans _ _ _ H1
               (balanced_trans _ _ _ H2
                  (balanced_trans _ _ _ E1 (balanced_trans _ _ _ H3 E2)))).
    + pose proof (engine_dfs_stack _ _ _ _ _ _ E2) as [Hc2 _].
      apply IH in E2.
      assert (Hc2' : current s3
                     = push_back (current (do_click (cur_pop (do_restore s2))))
                                 doClick)
        by (rewrite Hc2; reflexivity).
      pose proof (balanced_up s3 _ _ Hc2') as H4.
      exact (balanced_trans _ _ _ H1
               (balanced_trans _ _ _ H2
                  (balanced_trans _ _ _ E1
                     (balanced_trans _ _ _ H3
                        (balanced_trans _ _ _ E2 H4))))).
Qed.

(** One clock reading for each call of [dfs], and one call for the root
    and for each [push_back]. *)
Lemma engine_dfs_reads :
  forall (fuel : nat) (startTime frame : Z) (s : Solver W) (b : bool)
         (s' : Solver W),
    dfs clk fuel startTime frame s = Some (b, s') ->
    (reads s' + countEvents isPush (trace s)
     = S (reads s + countEvents isPush (trace s')))%nat.
Proof.
  induction fuel as [|fuel IH]; intros startTime frame s b s' Hrun;
    [discriminate|].
  rewrite engine_dfs_eq in Hrun. cbv zeta in Hrun.
  assert (H1 : reads (snd (clock_now clk s)) = S (reads s) /\
               countEvents isPush (trace (snd (clock_now clk s)))
               = countEvents isPush (trace s)) by (split; reflexivity).
  destruct H1 as [Hr1 Hp1].
  set (s1 := snd (clock_now clk s)) in *.
  destruct (elapsed_ms _ _ >? _).
  { injection Hrun as <- <-. lia. }
  destruct (frame >=? MAX_SEARCH_FRAMES).
  { injection Hrun as <- <-. lia. }
  destruct (getCurrentPercentInt _ >=? 100).
  { injection Hrun as <- <-.
    change (reads (record_best s1)) with (reads s1).
    change (trace (record_best s1)) with (trace s1). lia. }
  destruct (playerDead _).
  { injection Hrun as <- <-. lia. }
  assert (Hdown : forall (c : bool) (t : Solver W),
             reads (cur_push c (do_update t)) = reads t /\
             countEvents isPush (trace (cur_push c (do_update t)))
             = S (countEvents isPush (trace t)))
    by (intros c t; split; reflexivity).
  destruct (Hdown false s1) as [Hr2 Hp2].
  destruct (dfs clk fuel startTime (frame + 1) (cur_push false _))
    as [[[|] s2]|] eqn:E1; try discriminate.
  - injection Hrun as <- <-. apply IH in E1. lia.
  - apply IH in E1.
    set (t := do_click (cur_pop (do_restore s2))) in *.
    assert (Ht : reads t = reads s2 /\
                 countEvents isPush (trace t)
                 = countEvents isPush (trace s2)).
    { unfold t. rewrite BacktrackingDeadline.reads_click.
      split; [reflexivity|].
      destruct (trace_do_click_cases (cur_pop (do_restore s2))) as [E|E];
        rewrite E; reflexivity. }
    destruct Ht as [Hr3 Hp3].
    destruct (Hdown true t) as [Hr4 Hp4].
    destruct (dfs clk fuel startTime (frame + 1) (cur_push true _))
      as [[[|] s3]|] eqn:E2; try discriminate;
      injection Hrun as <- <-; apply IH in E2.
    + lia.
    + change (reads (cur_pop (do_restore s3))) with (reads s3).
      change (countEvents isPush (trace (cur_pop (do_restore s3))))
        with (countEvents isPush (trace s3)).
      lia.
Qed.

End Facts.
End BacktrackingStack.

(** X7.  The stack discipline of the backtracking [dfs] of part_000, for
    every engine, clock, fuel, frame and state.  A call that returns
    "found" returns in an engine state whose percentage is at least 100,
    with [current] an extension of what it was on entry and [bestSequence]
    a copy of it.  A call that returns "not found" leaves both vectors as
    they were on entry. *)
Theorem backtracking_dfs_keeps_its_stack :
  forall (W : Type) (engine : PlayLayer W) (clk : Clock) (fuel : nat)
         (startTime frame : Z) (s : Backtracking.Solver W) (b : bool)
         (s' : Backtracking.Solver W),
    Backtracking.dfs clk fuel startTime frame s = Some (b, s') ->
    if b
    then getCurrentPercentInt (Backtracking.pl s') >= 100 /\
         Backtracking.bestSequence s' = Backtracking.current s' /\
         exists ext : list FrameInput,
           Backtracking.current s' = Backtracking.current s ++ ext
    else Backtracking.current s' = Backtracking.current s /\
         Backtracking.bestSequence s' = Backtracking.bestSequence s.
Proof.
  intros W engine clk. exact (BacktrackingStack.engine_dfs_stack clk).
Qed.

(** [backtracking_dfs_keeps_its_stack] on the search of the level
    [Toy.earlyJump]: it returns "found" with the level complete. *)
Lemma backtracking_dfs_keeps_its_stack_witness :
  exists s' : Backtracking.Solver (Toy.Slot (Z * option Z)),
    @Backtracking.dfs _ (Toy.slotEngine Toy.earlyJump) (Toy.clockEvery 1000)
      10 0 0
      (@Backtracking.prepare _ (Toy.slotEngine Toy.earlyJump)
         (Toy.fresh Toy.earlyJump true))
    = Some (true, s') /\
    @getCurrentPercentInt _ (Toy.slotEngine Toy.earlyJump)
      (Backtracking.pl s') >= 100 /\
    Backtracking.bestSequence s' = Backtracking.current s'.
Proof.
  eexists. split; [vm_compute; reflexivity|].
  match goal with
  | |- @getCurrentPercentInt _ _ (Backtracking.pl ?x) >= 100 /\ _ =>
    pose proof (backtracking_dfs_keeps_its_stack
                  _ (Toy.slotEngine Toy.earlyJump) (Toy.clockEvery 1000)
                  10 0 0
                  (@Backtracking.prepare _ (Toy.slotEngine Toy.earlyJump)
                     (Toy.fresh Toy.earlyJump true))
                  true x ltac:(vm_compute; reflexivity)) as H
  end.
  cbv beta iota in H. destruct H as [Hp [Hb _]]. split; [exact Hp | exact Hb].
Defined.

(** X8.  The engine calls of a whole run of part_000, counted on its
    trace.  The run always returns.  It takes the state snapshot once,
    before the search, and never inside it; it starts and stops the
    recording once.  Every [pop_back] of the working vector comes with one
    [restoreStateSnapshot], and one more restore ends the run; every
    [push_back] comes with one engine update; the button is pressed at
    most once per [pop_back].  The working vector ends with as many entries
    as [push_back]s exceed [pop_back]s: none when nothing was found, and
    [bestSequence] when a run was.  The clock is read once before the search
    and once by each call of [dfs]: twice plus once for each
    [push_back]. *)
Theorem backtracking_run_engine_calls :
  forall (W : Type) (engine : PlayLayer W) (clk : Clock) (w : W),
  exists (ok : bool) (s : Backtracking.Solver W),
    Backtracking.runSolverAndRecord clk w = Some (ok, s) /\
    TraceKinds.countEvents TraceKinds.isSnapshot (Backtracking.trace s)
    = 1%nat /\
    TraceKinds.countEvents TraceKinds.isStartRecording (Backtracking.trace s)
    = 1%nat /\
    TraceKinds.countEvents TraceKinds.isStopRecording (Backtracking.trace s)
    = 1%nat /\
    TraceKinds.countEvents TraceKinds.isRestore (Backtracking.trace s)
    = S (TraceKinds.countEvents TraceKinds.isPop (Backtracking.trace s)) /\
    TraceKinds.countEvents TraceKinds.isPush (Backtracking.trace s)
    = TraceKinds.countEvents isUpdate (Backtracking.trace s) /\
    TraceKinds.countEvents TraceKinds.isPush (Backtracking.trace s)
    = (TraceKinds.countEvents TraceKinds.isPop (Backtracking.trace s)
       + List.length (Backtracking.current s))%nat /\
    (TraceKinds.countEvents TraceKinds.isButton (Backtracking.trace s)
     <= TraceKinds.countEvents TraceKinds.isPop (Backtracking.trace s))%nat /\
    Backtracking.reads s
    = (2 + TraceKinds.countEvents TraceKinds.isPush (Backtracking.trace s))%nat /\
    hd_error (Backtracking.trace s) = Some EvRestore /\
    (if ok then Backtracking.bestSequence s = Backtracking.current s
     else Backtracking.bestSequence s = [] /\ Backtracking.current s = []).
Proof.
  intros W engine clk w.
  rewrite BacktrackingFacts.runSolverAndRecord_eq.
  destruct (Backtracking.dfs clk Backtracking.dfs_fuel (clk O) 0 _)
    as [[ok s1]|] eqn:E.
  2: { exfalso. revert E. apply BacktrackingFacts.engine_dfs_total; [lia|].
       unfold Backtracking.dfs_fuel. lia. }
  exists ok, (Backtracking.wrapUp ok s1). split; [reflexivity|].
  pose proof (BacktrackingStack.engine_dfs_balanced clk _ _ _ _ _ _ E)
    as [Hsnap [Hstart [Hstop [Hres [Hupd [Hlen Hbut]]]]]].
  pose proof (BacktrackingStack.engine_dfs_stack clk _ _ _ _ _ _ E) as Hst.
  pose proof (BacktrackingStack.engine_dfs_reads clk _ _ _ _ _ _ E) as Hreads.
  assert (Hrd : Backtracking.reads (Backtracking.wrapUp ok s1)
                = Backtracking.reads s1).
  { unfold Backtracking.wrapUp. cbv zeta.
    destruct ok;
      match goal with
      | |- context [negb ?x] => destruct (negb x)
      end; reflexivity. }
  assert (Hwrap : exists msgs : list Event,
             Backtracking.trace (Backtracking.wrapUp ok s1)
             = EvRestore :: msgs ++ EvStopRecording :: EvStatus
                 (if ok then "Found run! Finalizing..."
                  else "No run found (timeout or no solution).")%string
                 :: Backtracking.trace s1 /\
             Forall (fun e => exists m, e = EvStatus m) msgs /\
             Backtracking.current (Backtracking.wrapUp ok s1)
             = Backtracking.current s1 /\
             Backtracking.bestSequence (Backtracking.wrapUp ok s1)
             = Backtracking.bestSequence s1).
  { unfold Backtracking.wrapUp. cbv zeta.
    destruct ok;
      match goal with
      | |- context [negb ?x] => destruct (negb x)
      end;
      first [ exists [] ; simpl; repeat split; constructor
            | eexists [_]; simpl; repeat split;
              repeat constructor; eexists; reflexivity ]. }
  destruct Hwrap as [msgs [Htr [Hmsgs [Hcur Hbest]]]].
  assert (Hcount : forall p : Event -> bool,
             (forall m, p (EvStatus m) = false) ->
             TraceKinds.countEvents p
               (Backtracking.trace (Backtracking.wrapUp ok s1))
             = ((if p EvRestore then 1 else 0)
                + (if p EvStopRecording then 1 else 0)
                + TraceKinds.countEvents p (Backtracking.trace s1))%nat).
  { intros p Hp. rewrite Htr. unfold TraceKinds.countEvents.
    cbn [filter]. rewrite filter_app. cbn [filter]. rewrite Hp.
    assert (Hnone : filter p msgs = []).
    { apply filter_none. intros e He.
      rewrite Forall_forall in Hmsgs. destruct (Hmsgs e He) as [m ->].
      apply Hp. }
    rewrite Hnone. cbn [app].
    destruct (p EvRestore), (p EvStopRecording); simpl; lia. }
  rewrite !Hcount by reflexivity. rewrite Htr, Hcur, Hbest, Hrd.
  cbn [TraceKinds.isSnapshot TraceKinds.isStartRecording
       TraceKinds.isStopRecording TraceKinds.isRestore TraceKinds.isPush
       TraceKinds.isPop TraceKinds.isButton isUpdate hd_error].
  unfold TraceKinds.countEvents in *. simpl in Hsnap, Hstart, Hstop, Hres,
    Hupd, Hlen, Hbut, Hreads.
  repeat split; try lia.
  destruct ok.
  - destruct Hst as [_ [Hb _]]. exact Hb.
  - destruct Hst as [Hc Hb]. rewrite Hc, Hb. split; reflexivity.
Qed.

(** ** src/src/main.cpp: how deep and how long the search goes *)
Module MainCppDepthFacts.
Import MainCpp MainCppFacts MainCppDepth.

Section Facts.
Variable clk : Clock.

Lemma success_test (frame : Z) :
  0 <= frame <= SUCCESS_FRAME ->
  (frame >? 0) && (frame * 10 >? SUCCESS_X_THRESHOLD)
  = (frame =? SUCCESS_FRAME).
Proof.
  unfold SUCCESS_FRAME, SUCCESS_X_THRESHOLD.
  change (5000 / 10 + 1) with 501. intros Hf.
  destruct (frame =? 501) eqn:E.
  - apply Z.eqb_eq in E. subst. reflexivity.
  - apply Z.eqb_neq in E. apply andb_false_iff. right. lia.
Qed.

(** The search never goes past [SUCCESS_FRAME]: whatever the clock does,
    no [push_back] leaves more than that many entries, a found sequence
    has exactly that many, and a failed call leaves the vectors alone. *)
Lemma pure_dfs_shallow :
  forall (fuel : nat) (start frame : Z) (s : Solver) (b : bool)
         (s' : Solver),
    dfs clk fuel start frame s = Some (b, s') ->
    0 <= frame <= SUCCESS_FRAME ->
    Z.of_nat (List.length (seq s)) = frame ->
    Forall (pushBounded SUCCESS_FRAME) (trace s) ->
    Forall (pushBounded SUCCESS_FRAME) (trace s') /\
    if b
    then foundSequence s' = seq s' /\
         Z.of_nat (List.length (seq s')) = SUCCESS_FRAME
    else seq s' = seq s /\ foundSequence s' = foundSequence s.
Proof.
  induction fuel as [|fuel IH];
    intros start frame s b s' Hrun Hfr Hlen Htr; [discriminate|].
  rewrite pure_dfs_eq in Hrun. cbv zeta in Hrun.
  assert (Htr1 : Forall (pushBounded SUCCESS_FRAME)
                        (trace (snd (clock_now clk s))))
    by (simpl; constructor; [exact I | exact Htr]).
  destruct (elapsed_ms _ _ >? _).
  { injection Hrun as <- <-. split; [exact Htr1|]. split; reflexivity. }
  destruct (frame >=? MAX_SEARCH_FRAMES) eqn:Hmax.
  { injection Hrun as <- <-. split; [exact Htr1|]. split; reflexivity. }
  rewrite (success_test frame Hfr) in Hrun.
  destruct (frame =? SUCCESS_FRAME) eqn:Hs.
  { injection Hrun as <- <-. apply Z.eqb_eq in Hs.
    split; [exact Htr1|]. split; [reflexivity|]. simpl. lia. }
  apply Z.eqb_neq in Hs.
  assert (Hpush : forall (c : bool) (t : Solver),
             seq t = seq s ->
             Forall (pushBounded SUCCESS_FRAME) (trace t) ->
             Z.of_nat (List.length (seq (seq_push c t))) = frame + 1 /\
             Forall (pushBounded SUCCESS_FRAME) (trace (seq_push c t))).
  { intros c t Ht Htt. unfold seq_push. simpl.
    rewrite length_push, Ht. split; [lia|].
    constructor; [simpl; lia | exact Htt]. }
  destruct (Hpush false (snd (clock_now clk s)) eq_refl Htr1) as [Hl1 Ht1].
  destruct (dfs clk fuel start (frame + 1) (seq_push false _))
    as [[[|] s2]|] eqn:E1; try discriminate.
  - injection Hrun as <- <-.
    exact (IH _ _ _ _ _ E1 ltac:(lia) Hl1 Ht1).
  - destruct (IH _ _ _ _ _ E1 ltac:(lia) Hl1 Ht1) as [Ha [Hd Hf]].
    assert (Hpop : seq (seq_pop s2) = seq s).
    { simpl. rewrite Hd. simpl. apply pop_push. }
    assert (Htp : Forall (pushBounded SUCCESS_FRAME) (trace (seq_pop s2)))
      by (simpl; constructor; [exact I | exact Ha]).
    destruct (Hpush true (seq_pop s2) Hpop Htp) as [Hl2 Ht2].
    destruct (dfs clk fuel start (frame + 1) (seq_push true _))
      as [[[|] s3]|] eqn:E2; try discriminate;
      injection Hrun as <- <-.
    + exact (IH _ _ _ _ _ E2 ltac:(lia) Hl2 Ht2).
    + destruct (IH _ _ _ _ _ E2 ltac:(lia) Hl2 Ht2) as [Ha3 [Hd3 Hf3]].
      split; [simpl; constructor; [exact I | exact Ha3]|].
      simpl. rewrite Hd3, Hf3. unfold seq_push. cbn [seq foundSequence].
      rewrite pop_push, Hpop. split; [reflexivity | exact Hf].
Qed.

Lemma lateSeen_keep (start : Z) (s t : Solver) :
  (reads s <= reads t)%nat -> lateSeen clk start s -> lateSeen clk start t.
Proof.
  intros Hr [r0 [Hlt Hlate]]. exists r0. split; [lia | exact Hlate].
Qed.

(** The work of the search on a monotone clock: a call entered after a
    late reading makes one reading; any call at frame [frame] makes at
    most [2 * (SUCCESS_FRAME + 1 - frame) - 1]; and a call only fails
    after a late reading. *)
Lemma pure_dfs_work :
  clock_monotone clk ->
  forall (fuel : nat) (start frame : Z) (s : Solver) (b : bool)
         (s' : Solver),
    dfs clk fuel start frame s = Some (b, s') ->
    0 <= frame <= SUCCESS_FRAME ->
    (b = false -> lateSeen clk start s') /\
    (reads s < reads s')%nat /\
    Z.of_nat (reads s')
    <= Z.of_nat (reads s) + 2 * (SUCCESS_FRAME + 1 - frame) - 1 /\
    (lateSeen clk start s -> b = false /\ reads s' = S (reads s)).
Proof.
  intros Hmono.
  induction fuel as [|fuel IH];
    intros start frame s b s' Hrun Hfr; [discriminate|].
  rewrite pure_dfs_eq in Hrun. cbv zeta in Hrun.
  pose proof (success_test frame Hfr) as Htest.
  assert (HSF : SUCCESS_FRAME = 501) by reflexivity.
  rewrite HSF in *.
  destruct (elapsed_ms (clk (reads s)) start >? SOLVER_TIMEOUT_MS) eqn:Hnow.
  { injection Hrun as <- <-. cbn [reads clock_now seq_push seq_pop snd record_found].
    split; [intros _; exists (reads s); split; [cbn [reads clock_now snd]; lia | lia]|].
    split; [lia|]. split; [lia|]. intros _. split; reflexivity. }
  assert (Hnot : ~ lateSeen clk start s).
  { intros [r0 [Hlt Hlate]].
    pose proof (elapsed_ms_mono _ _ start (Hmono r0 (reads s) ltac:(lia))).
    lia. }
  destruct (frame >=? MAX_SEARCH_FRAMES) eqn:Hmax.
  { exfalso. unfold MAX_SEARCH_FRAMES in *. lia. }
  rewrite Htest in Hrun.
  destruct (frame =? 501) eqn:Hs.
  { injection Hrun as <- <-. cbn [reads clock_now seq_push seq_pop snd record_found].
    split; [discriminate|]. split; [lia|]. split; [lia|].
    intros Hl. contradiction. }
  apply Z.eqb_neq in Hs.
  destruct (dfs clk fuel start (frame + 1) (seq_push false _))
    as [[[|] s2]|] eqn:E1; try discriminate.
  - injection Hrun as <- <-.
    destruct (IH _ _ _ _ _ E1 ltac:(lia)) as [_ [Hlt [Hle _]]].
    cbn [reads clock_now seq_push seq_pop snd] in Hlt, Hle.
    split; [discriminate|]. split; [lia|]. split; [lia|].
    intros Hl. contradiction.
  - destruct (IH _ _ _ _ _ E1 ltac:(lia)) as [Hl1 [Hlt1 [Hle1 _]]].
    cbn [reads clock_now seq_push seq_pop snd] in Hlt1, Hle1. specialize (Hl1 eq_refl).
    assert (Hl1' : lateSeen clk start (seq_push true (seq_pop s2)))
      by (revert Hl1; apply lateSeen_keep; cbn [reads clock_now seq_push seq_pop snd]; lia).
    destruct (dfs clk fuel start (frame + 1) (seq_push true _))
      as [[b3 s3]|] eqn:E2; [|discriminate].
    destruct (IH _ _ _ _ _ E2 ltac:(lia)) as [Hl3 [_ [_ Hlate3]]].
    destruct (Hlate3 Hl1') as [-> Hr3]. cbn [reads clock_now seq_push seq_pop snd] in Hr3.
    injection Hrun as <- <-. cbn [reads clock_now seq_push seq_pop snd record_found].
    split.
    { intros _. specialize (Hl3 eq_refl). revert Hl3.
      apply lateSeen_keep. cbn [reads clock_now seq_push seq_pop snd]. lia. }
    split; [lia|]. split; [lia|]. intros Hl. contradiction.
Qed.

End Facts.
End MainCppDepthFacts.

(** X9.  How far the search of the solver thread of src/src/main.cpp
    goes, for every clock.  It comes to an end.  No [push_back] leaves more
    than 501 entries in [seq], 501 being the first frame index that passes
    the success test of line 121, so the frame cap of line 115 is never
    reached.  When a call passes that test [seq] holds exactly 501 frames,
    and when [dfs(0)] returns false [seq] is empty again.  On a monotone
    clock the search reads the clock at most 1004 times, and the 501
    frames are "no click" frames only. *)
Theorem main_cpp_search_is_shallow :
  forall clk : Clock,
  exists (b : bool) (s : MainCpp.Solver),
    MainCpp.solverThreadState clk = Some (b, s) /\
    MainCppDepth.SUCCESS_FRAME = 501 /\
    Forall (pushBounded MainCppDepth.SUCCESS_FRAME) (MainCpp.trace s) /\
    (if b
     then List.length (MainCpp.seq s) = 501%nat
     else MainCpp.seq s = []) /\
    (clock_monotone clk ->
     (MainCpp.reads s <= 1004)%nat /\
     (b = true -> MainCpp.seq s = repeat noClick 501)).
Proof.
  intros clk.
  assert (HSF : MainCppDepth.SUCCESS_FRAME = 501) by reflexivity.
  rewrite MainCppFacts.solverThreadState_eq.
  destruct (MainCpp.dfs clk MainCpp.dfs_fuel (clk O) 0
              (MainCpp.mkSolver [] [] 1 [EvClock (clk O)]))
    as [[b s]|] eqn:E.
  2: { exfalso. revert E. apply MainCppFacts.pure_dfs_total; [lia|].
       unfold MainCpp.dfs_fuel. lia. }
  exists b, s. split; [reflexivity|]. split; [exact HSF|].
  destruct (MainCppDepthFacts.pure_dfs_shallow clk _ _ _ _ _ _ E)
    as [Htr Hres].
  { rewrite HSF. lia. }
  { reflexivity. }
  { constructor; [exact I | constructor]. }
  split; [exact Htr|]. split.
  - destruct b.
    + destruct Hres as [_ Hl]. lia.
    + destruct Hres as [Hs _]. exact Hs.
  - intros Hmono.
    destruct (MainCppDepthFacts.pure_dfs_work clk Hmono _ _ _ _ _ _ E)
      as [_ [_ [Hle _]]].
    { rewrite HSF. lia. }
    rewrite HSF in Hle. cbn [MainCpp.reads] in Hle.
    split; [lia|]. intros ->.
    destruct Hres as [Hcopy _]. rewrite <- Hcopy.
    destruct (MainCppFacts.classic_first clk (clk O) 502) as [Hin|Hlate].
    + assert (Hfuel : (501 < MainCpp.dfs_fuel)%nat)
        by (unfold MainCpp.dfs_fuel, MainCpp.MAX_SEARCH_FRAMES; lia).
      destruct (MainCppFacts.dfs_descends clk 501 MainCpp.dfs_fuel (clk O) 0
                  (MainCpp.mkSolver [] [] 1 [EvClock (clk O)])
                  eq_refl (Nat.le_refl _) Hfuel)
        as [s' [Hrun Hfound]].
      { intros k Hk. apply Hin. cbn [MainCpp.reads] in Hk. lia. }
      rewrite E in Hrun. injection Hrun as ->. exact Hfound.
    + destruct (MainCppFacts.first_late clk (clk O) 502 Hlate)
        as [k [Hk [Hl Hearly]]].
      assert (Hfuel : (k - 1 < MainCpp.dfs_fuel)%nat)
        by (unfold MainCpp.dfs_fuel, MainCpp.MAX_SEARCH_FRAMES; lia).
      destruct (MainCppFacts.dfs_times_out clk (k - 1) MainCpp.dfs_fuel k
                  (clk O) 0 (MainCpp.mkSolver [] [] 1 [EvClock (clk O)])
                  Hmono Hl)
        as [s' [Hrun _]]; cbn [MainCpp.reads]; auto; try lia.
      rewrite E in Hrun. discriminate.
Qed.

(** ** The export file names *)
Module FileNameFacts.
Import Randomized Decoder FileNames TextFacts.
Local Open Scope string_scope.

Lemma hasChar_app (c : ascii) (a b : string) :
  hasChar c (a ++ b) = hasChar c a || hasChar c b.
Proof.
  induction a as [|d a IH]; simpl; [reflexivity|].
  now rewrite IH, orb_assoc.
Qed.

Lemma allChars_hasChar (p : ascii -> bool) (c : ascii) (a : string) :
  allChars p a = true -> p c = false -> hasChar c a = false.
Proof.
  induction a as [|d a IH]; simpl; intros Hall Hc; [reflexivity|].
  apply andb_true_iff in Hall. destruct Hall as [Hd Ha].
  rewrite (IH Ha Hc), orb_false_r.
  destruct (Ascii.eqb c d) eqn:E; [|reflexivity].
  apply Ascii.eqb_eq in E. congruence.
Qed.

Lemma fileChar_digitOrMinus (c : ascii) :
  fileChar c = false -> digitOrMinus c = false.
Proof.
  unfold fileChar, identChar, digitOrMinus, isalnum.
  destruct c as [[] [] [] [] [] [] [] []]; vm_compute; congruence.
Qed.

Lemma fileChar_identChar (c : ascii) :
  fileChar c = false -> identChar c = false.
Proof.
  unfold fileChar. intros H.
  apply orb_false_iff in H. destruct H as [H _].
  apply orb_false_iff in H. now destruct H.
Qed.

(** No other character occurs in a name without folder. *)
Lemma exportName_chars (ext : string) (levelName : option string) (t : Z)
      (c : ascii) :
  fileChar c = false -> hasChar c ext = false ->
  hasChar c (exportName "" ext levelName t) = false.
Proof.
  intros Hc Hext. unfold exportName.
  rewrite !hasChar_app, Hext.
  rewrite (allChars_hasChar identChar c _ (sanitize_identChars _)
                            (fileChar_identChar c Hc)).
  rewrite (fmt_int_chars c _ (fileChar_digitOrMinus c Hc)).
  cbn [hasChar]. rewrite orb_false_r.
  destruct (Ascii.eqb c "_") eqn:E; [|reflexivity].
  apply Ascii.eqb_eq in E. subst. discriminate.
Qed.

Lemma isalnum_not_underscore (c : ascii) :
  isalnum c = true -> c <> "_"%char.
Proof. intros H ->. discriminate. Qed.

Lemma sanitize_alike :
  forall a b : string, sanitize a = sanitize b <-> alike a b = true.
Proof.
  induction a as [|c a IH]; intros [|d b]; simpl;
    try (split; [discriminate | discriminate]); [split; reflexivity|].
  rewrite andb_true_iff, <- IH.
  split.
  - intros E. injection E as Ec Eab. split; [|exact Eab].
    destruct (isalnum c) eqn:Hc, (isalnum d) eqn:Hd; simpl.
    + subst. now rewrite Ascii.eqb_refl.
    + subst. discriminate.
    + exfalso. symmetry in Ec. subst. discriminate.
    + apply orb_true_r.
  - intros [Hcd Eab]. rewrite Eab. f_equal.
    apply orb_true_iff in Hcd. destruct Hcd as [Hcd|Hcd].
    + apply Ascii.eqb_eq in Hcd. now subst.
    + apply andb_true_iff in Hcd. destruct Hcd as [Hc Hd].
      apply negb_true_iff in Hc, Hd. now rewrite Hc, Hd.
Qed.

Lemma fmt_int_negative (p : positive) :
  fmt_int (Z.neg p) = "-" ++ fmt_int (Z.pos p).
Proof.
  unfold fmt_int. simpl.
  destruct (Pos.to_uint p); reflexivity.
Qed.

Lemma to_int32_range (t : Z) :
  - 2147483648 <= to_int32 t < 2147483648.
Proof.
  unfold to_int32.
  pose proof (Z.mod_pos_bound (t + 2147483648) 4294967296 ltac:(lia)).
  lia.
Qed.

Lemma to_int32_congruent (t : Z) :
  exists k : Z, to_int32 t = t + k * 4294967296.
Proof.
  unfold to_int32.
  exists (- ((t + 2147483648) / 4294967296)).
  pose proof (Z.div_mod (t + 2147483648) 4294967296 ltac:(lia)). lia.
Qed.

Lemma to_int32_unique (t z : Z) :
  - 2147483648 <= z < 2147483648 ->
  (exists k : Z, z = t + k * 4294967296) ->
  to_int32 t = z.
Proof.
  intros Hz [k Hk].
  destruct (to_int32_congruent t) as [k' Hk'].
  pose proof (to_int32_range t). nia.
Qed.

End FileNameFacts.

(** X12.  The alphabet of the export file names of part_000 and part_002.
    Whatever the level name and the time, the name [name_timestamp.gdr] or
    [name_timestamp.macro.txt] consists of letters, digits, underscores,
    minus signs and dots only; in particular it contains no space and no
    path separator. *)
Theorem export_file_names_are_plain :
  forall (levelName : option string) (t : Z) (c : ascii),
    FileNames.fileChar c = false ->
    Decoder.hasChar c (Randomized.exportNameGdr levelName t) = false /\
    Decoder.hasChar c (Randomized.exportName "" ".macro.txt" levelName t)
    = false /\
    FileNames.fileChar "/" = false /\
    FileNames.fileChar "\" = false /\
    FileNames.fileChar " " = false.
Proof.
  intros levelName t c Hc.
  assert (Hext : forall ext : string,
             Decoder.allChars FileNames.fileChar ext = true ->
             Decoder.hasChar c ext = false).
  { intros ext Hall.
    exact (FileNameFacts.allChars_hasChar _ c ext Hall Hc). }
  split; [|split; [|split; [|split]]]; try reflexivity.
  - apply FileNameFacts.exportName_chars; [exact Hc|].
    apply Hext. reflexivity.
  - apply FileNameFacts.exportName_chars; [exact Hc|].
    apply Hext. reflexivity.
Qed.

(** [export_file_names_are_plain] at the space of "Level 1". *)
Lemma export_file_names_are_plain_witness :
  Decoder.hasChar " " (Randomized.exportNameGdr (Some "Level 1"%string)
                                                1762000000) = false.
Proof.
  apply (export_file_names_are_plain (Some "Level 1"%string) 1762000000 " ").
  reflexivity.
Defined.

(** X13.  The timestamp of an export name.  [(int)t] lies in the range of
    a 32-bit [int] and differs from [t] by a multiple of [2^32]; it is [t]
    itself while [t] fits.  From [t = 2^31] (19 January 2038) to
    [2^32 - 1] it is negative, and the name carries a minus sign:
    [name_-N.ext] with [N = 2^32 - t]. *)
Theorem export_timestamp_wraps_to_int :
  forall (prefix ext : string) (levelName : option string) (t : Z),
    - 2147483648 <= to_int32 t < 2147483648 /\
    (exists k : Z, to_int32 t = t + k * 4294967296) /\
    (- 2147483648 <= t < 2147483648 -> to_int32 t = t) /\
    (2147483648 <= t < 4294967296 ->
     to_int32 t = t - 4294967296 /\
     Randomized.exportName prefix ext levelName t
     = (prefix ++ Randomized.sanitize (FileNames.nameOrMacro levelName)
               ++ "_-" ++ fmt_int (4294967296 - t) ++ ext)%string).
Proof.
  intros prefix ext levelName t.
  split; [apply FileNameFacts.to_int32_range|].
  split; [apply FileNameFacts.to_int32_congruent|].
  split; [apply TextFacts.to_int32_small|].
  intros Ht.
  assert (E : to_int32 t = t - 4294967296).
  { apply FileNameFacts.to_int32_unique; [lia|]. exists (-1). lia. }
  split; [exact E|].
  unfold Randomized.exportName. rewrite E.
  destruct (t - 4294967296) as [|p|p] eqn:Ep; try lia.
  rewrite FileNameFacts.fmt_int_negative.
  replace (4294967296 - t) with (Z.pos p) by lia.
  destruct levelName; reflexivity.
Qed.

(** [export_timestamp_wraps_to_int] on 19 January 2038. *)
Lemma export_timestamp_wraps_to_int_witness :
  Randomized.exportName "" ".gdr" (Some "Level 1"%string) 2147483648
  = "Level_1_-2147483648.gdr"%string.
Proof.
  destruct (export_timestamp_wraps_to_int
              "" ".gdr" (Some "Level 1"%string) 2147483648)
    as [_ [_ [_ H]]].
  destruct (H ltac:(lia)) as [_ E]. rewrite E. reflexivity.
Defined.

(** X14.  When two exports get the same file name.  With the same folder
    and extension, two exports are written to the same file exactly when
    their timestamps are equal as [int] and their level names differ only
    in characters that are not alphanumeric (the names being "macro" when
    the level has none).  Such names give equal sanitized names. *)
Theorem export_names_collide_exactly_when :
  forall (prefix ext : string) (n1 n2 : option string) (t1 t2 : Z),
    (Randomized.exportName prefix ext n1 t1
     = Randomized.exportName prefix ext n2 t2 <->
     to_int32 t1 = to_int32 t2 /\
     FileNames.alike (FileNames.nameOrMacro n1) (FileNames.nameOrMacro n2)
     = true) /\
    (forall a b : string,
        Randomized.sanitize a = Randomized.sanitize b <->
        FileNames.alike a b = true).
Proof.
  intros prefix ext n1 n2 t1 t2.
  split; [|apply FileNameFacts.sanitize_alike].
  rewrite <- FileNameFacts.sanitize_alike.
  split.
  - intros E. pose proof (TextFacts.exportName_timestamp _ _ _ _ _ _ E) as Et.
    split; [exact Et|].
    unfold Randomized.exportName in E. rewrite Et in E.
    fold (FileNames.nameOrMacro n1) in E.
    fold (FileNames.nameOrMacro n2) in E.
    apply (f_equal list_ascii_of_string) in E.
    rewrite !TextFacts.chars_app in E.
    apply app_inv_head in E. apply app_inv_tail in E.
    now apply TextFacts.chars_inj.
  - intros [Et Es]. unfold Randomized.exportName.
    fold (FileNames.nameOrMacro n1). fold (FileNames.nameOrMacro n2).
    now rewrite Et, Es.
Qed.

(** ** src/unnamed/part_002: the modal and the solver thread *)
Module ModalUIFacts.
Import ModalUI.

Lemma screen_consistent_initial : consistent initial.
Proof. unfold consistent, alive. simpl. repeat split; lia. Qed.

Ltac fields :=
  cbn [started returned g m_macroModalOpen modalLayer paused buttons
       m_clickMacroButton Randomized.running Randomized.lastReplayData].

Lemma screen_consistent_act (a : Action) (s : Screen) :
  consistent s -> enabled a s = true -> consistent (act a s).
Proof.
  unfold consistent, alive.
  intros [Hle [Hone [Hrun [Hopen [Hpause [Hb Hbtn]]]]]] Hen.
  destruct a as [| | |outcome]; cbn [act enabled] in *.
  - unfold onEnter. destruct (m_clickMacroButton s) eqn:E; cbn [negb].
    + rewrite E. repeat split; assumption.
    + fields. symmetry in Hbtn. apply Nat.ltb_ge in Hbtn.
      repeat split; auto; lia.
  - unfold onMacroButton.
    destruct (m_macroModalOpen s) eqn:Eo.
    + fields. repeat split; auto.
    + destruct (Randomized.running (g s)) eqn:Er; cbn [negb].
      * fields. rewrite Er. repeat split; auto.
      * fields. symmetry in Hrun. apply Nat.ltb_ge in Hrun.
        repeat split; auto; try lia.
        symmetry. apply Nat.ltb_lt. lia.
  - unfold onCloseClicked. fields. repeat split; auto.
  - unfold solverReturns. fields. apply Nat.ltb_lt in Hen.
    repeat split; auto; try lia.
    symmetry. apply Nat.ltb_ge. lia.
Qed.

Lemma screen_consistent_run :
  forall (actions : list Action) (s s' : Screen),
    consistent s -> run actions s = Some s' -> consistent s'.
Proof.
  induction actions as [|a rest IH]; intros s s' Hs Hrun; simpl in Hrun.
  - injection Hrun as <-. exact Hs.
  - destruct (enabled a s) eqn:Hen; [|discriminate].
    apply (IH _ _ (screen_consistent_act a s Hs Hen) Hrun).
Qed.

End ModalUIFacts.

(** X15.  The handlers of part_002 over any history of one [PlayLayer]
    (entering the scene, presses of M, clicks on X, solver threads
    returning).  At most one solver thread is alive at any time, and
    [g_modalState.running] is set exactly while one is: [onMacroButton]
    starts a solver only when none is running, and closing the modal does
    not stop one.  The modal is shown exactly while [m_macroModalOpen] is
    set, the mod's last [pauseGame] request is "pause" exactly while the
    modal is shown, and the M button is created once. *)
Theorem at_most_one_solver_thread :
  forall (actions : list ModalUI.Action) (s : ModalUI.Screen),
    ModalUI.run actions ModalUI.initial = Some s ->
    (ModalUI.returned s <= ModalUI.started s)%nat /\
    (ModalUI.alive s <= 1)%nat /\
    Randomized.running (ModalUI.g s) = (0 <? ModalUI.alive s)%nat /\
    ModalUI.m_macroModalOpen s = ModalUI.modalLayer s /\
    ModalUI.paused s = ModalUI.modalLayer s /\
    (ModalUI.buttons s <= 1)%nat /\
    ModalUI.m_clickMacroButton s = (0 <? ModalUI.buttons s)%nat.
Proof.
  intros actions s Hrun.
  exact (ModalUIFacts.screen_consistent_run actions _ _
           ModalUIFacts.screen_consistent_initial Hrun).
Qed.

(** [at_most_one_solver_thread] on a history in which the modal is closed
    and reopened while the first solver is still running. *)
Lemma at_most_one_solver_thread_witness :
  exists s : ModalUI.Screen,
    ModalUI.run [ModalUI.Enter; ModalUI.PressM; ModalUI.ClickX;
                 ModalUI.PressM; ModalUI.Enter]
                ModalUI.initial = Some s /\
    ModalUI.started s = 1%nat /\
    (ModalUI.alive s <= 1)%nat.
Proof.
  eexists. split; [reflexivity|]. split; [reflexivity|].
  exact (proj1 (proj2 (at_most_one_solver_thread
                         [ModalUI.Enter; ModalUI.PressM; ModalUI.ClickX;
                          ModalUI.PressM; ModalUI.Enter] _ eq_refl))).
Defined.

(** ** src/unnamed/part_000: the menu and the solver threads *)
Module MenuUIFacts.
Import MenuUI.

Lemma menu_consistent_act (a : Action) (s : Menu) :
  consistent s -> enabled a s = true -> consistent (act a s).
Proof.
  unfold consistent. intros [Hle [Hopen Hpause]] Hen.
  destruct a as [layer|layer|]; cbn [act enabled] in *.
  - unfold onMacroButton, toggleMenu, openMenu, closeMenu.
    destruct layer; cbn [negb]; [|auto].
    destruct (m_menuOpen s) eqn:Eo; cbn; repeat split; auto.
  - unfold onCloseClicked, closeMenu. destruct layer; cbn; auto.
  - apply Nat.ltb_lt in Hen. cbn. repeat split; auto; lia.
Qed.

Lemma menu_consistent_run :
  forall (actions : list Action) (s s' : Menu),
    consistent s -> run actions s = Some s' -> consistent s'.
Proof.
  induction actions as [|a rest IH]; intros s s' Hs Hrun; simpl in Hrun.
  - injection Hrun as <-. exact Hs.
  - destruct (enabled a s) eqn:Hen; [|discriminate].
    apply (IH _ _ (menu_consistent_act a s Hs Hen) Hrun).
Qed.

(** Two more presses of M leave the menu as it was and start one more
    solver. *)
Lemma run_two_presses (b : bool) (j n r : nat) :
  run (repeat (PressM true) (2 * j)) (mkMenu b b b n r)
  = Some (mkMenu b b b (n + j) r).
Proof.
  revert n. induction j as [|j IH]; intros n.
  - simpl. f_equal. f_equal. lia.
  - replace (2 * S j)%nat with (S (S (2 * j))) by lia.
    cbn [repeat run enabled act].
    replace (onMacroButton true (onMacroButton true (mkMenu b b b n r)))
      with (mkMenu b b b (S n) r) by (destruct b; reflexivity).
    rewrite IH. f_equal. f_equal. lia.
Qed.

End MenuUIFacts.

(** X16.  The handlers of part_000 over any history (presses of M and
    clicks on X, with or without a current [PlayLayer], solver threads
    returning).  The modal exists exactly while [m_menuOpen] is set, and
    the mod's last [pauseGame] request is "pause" exactly while it is.
    Nothing limits the solver threads: every opening of the menu starts
    one, whether or not an earlier one has returned, so after [2 j + 1]
    presses of M, [j + 1] threads have been started on the same layer. *)
Theorem every_opening_starts_a_solver_thread :
  (forall (actions : list MenuUI.Action) (s : MenuUI.Menu),
      MenuUI.run actions MenuUI.initial = Some s ->
      (MenuUI.returned s <= MenuUI.started s)%nat /\
      MenuUI.m_menuOpen s = MenuUI.m_modal s /\
      MenuUI.paused s = MenuUI.m_menuOpen s) /\
  (forall j : nat,
      MenuUI.run (repeat (MenuUI.PressM true) (2 * j)) MenuUI.initial
      = Some (MenuUI.mkMenu false false false j 0) /\
      MenuUI.run (repeat (MenuUI.PressM true) (2 * j + 1)) MenuUI.initial
      = Some (MenuUI.mkMenu true true true (j + 1) 0) /\
      MenuUI.alive (MenuUI.mkMenu true true true (j + 1) 0) = (j + 1)%nat).
Proof.
  split.
  - intros actions s Hrun.
    apply (MenuUIFacts.menu_consistent_run actions MenuUI.initial s); [|exact Hrun].
    unfold MenuUI.consistent. simpl. auto.
  - intros j.
    split; [exact (MenuUIFacts.run_two_presses false j 0 0)|]. split.
    + replace (2 * j + 1)%nat with (S (2 * j)) by lia.
      cbn [repeat MenuUI.run MenuUI.enabled MenuUI.act].
      change (MenuUI.onMacroButton true MenuUI.initial)
        with (MenuUI.mkMenu true true true 1 0).
      rewrite (MenuUIFacts.run_two_presses true j 1 0).
      f_equal. f_equal. lia.
    + unfold MenuUI.alive. simpl. lia.
Qed.


(** ** src/unnamed/part_001 against part_000 *)
Module Part001Facts.
Import Backtracking.

Section Facts.
Context {W : Type} {engine : PlayLayer W} {more : PlayLayerMore W}.
Variable clk : Clock.

(** The older search is the newer one on the engine that undoes a step
    with [compareStateSnapshot]. *)
Lemma dfs_simulation :
  forall (fuel : nat) (startTime frame : Z) (s : Solver W),
    Part001.dfs clk fuel startTime frame s
    = @Backtracking.dfs W (Part001.undoByCompare engine more) clk fuel
                        startTime frame s.
Proof.
  induction fuel as [|fuel IH]; intros startTime frame s; [reflexivity|].
  cbn [Part001.dfs Backtracking.dfs].
  change Part001.TIMEOUT_MS with TIMEOUT_MS.
  change Part001.MAX_SEARCH_FRAMES with MAX_SEARCH_FRAMES.
  destruct (clock_now clk s) as [now s0].
  destruct (elapsed_ms now startTime >? TIMEOUT_MS); [reflexivity|].
  destruct (frame >=? MAX_SEARCH_FRAMES); [reflexivity|].
  destruct (getCurrentPercentInt (pl s0) >=? 100); [reflexivity|].
  destruct (playerDead (pl s0)); [reflexivity|].
  rewrite IH.
  destruct (Backtracking.dfs clk fuel startTime (frame + 1) _)
    as [[[|] s1]|]; [reflexivity| |reflexivity].
  rewrite IH. reflexivity.
Qed.

Lemma runSolverAndRecord_older_eq (w : W) :
  Part001.runSolverAndRecord clk w =
  match Part001.dfs clk dfs_fuel (clk O) 0
                    (snd (clock_now clk (prepare w))) with
  | None => None
  | Some (ok, s) => Some (ok, Part001.wrapUp ok s)
  end.
Proof. reflexivity. Qed.

End Facts.
End Part001Facts.

(** X17.  The search of the older draft part_001 is the search of
    part_000 with [compareStateSnapshot] in the place of
    [restoreStateSnapshot] as the call that undoes a step; the drafts
    differ in nothing else inside [dfs].  So the older [runSolverAndRecord]
    also always returns, no [push_back] of it leaves more than 7200 entries
    in [current], and it ends with [bestSequence] equal to [current] when a
    run was found and with both empty when none was.  It stores the
    engine's [m_replay] text and ends, like part_000, with a
    [restoreStateSnapshot]. *)
Theorem older_draft_runs_the_same_search :
  forall (W : Type) (engine : PlayLayer W) (more : PlayLayerMore W)
         (clk : Clock),
    (forall (fuel : nat) (startTime frame : Z) (s : Backtracking.Solver W),
        Part001.dfs clk fuel startTime frame s
        = @Backtracking.dfs W (Part001.undoByCompare engine more) clk fuel
                            startTime frame s) /\
    (forall w : W,
        exists (ok : bool) (s1 : Backtracking.Solver W),
          Part001.dfs clk Backtracking.dfs_fuel (clk O) 0
                      (snd (Backtracking.clock_now clk
                              (Backtracking.prepare w)))
          = Some (ok, s1) /\
          Part001.runSolverAndRecord clk w
          = Some (ok, Part001.wrapUp ok s1) /\
          Forall (pushBounded Part001.MAX_SEARCH_FRAMES)
                 (Backtracking.trace (Part001.wrapUp ok s1)) /\
          Backtracking.bestSequence (Part001.wrapUp ok s1)
          = (if ok then Backtracking.current s1 else []) /\
          Backtracking.current (Part001.wrapUp ok s1)
          = (if ok then Backtracking.current s1 else []) /\
          Backtracking.m_lastReplayData (Part001.wrapUp ok s1)
          = m_replay (stopRecording (Backtracking.pl s1)) /\
          Backtracking.pl (Part001.wrapUp ok s1)
          = restoreStateSnapshot (stopRecording (Backtracking.pl s1))).
Proof.
  intros W engine more clk.
  split; [exact (Part001Facts.dfs_simulation clk)|].
  intros w.
  rewrite Part001Facts.runSolverAndRecord_older_eq.
  destruct (Part001.dfs clk Backtracking.dfs_fuel (clk O) 0 _)
    as [[ok s1]|] eqn:E.
  2: { exfalso. revert E. rewrite (Part001Facts.dfs_simulation clk).
       apply (@BacktrackingFacts.engine_dfs_total
                W (Part001.undoByCompare engine more)); [lia|].
       unfold Backtracking.dfs_fuel. lia. }
  exists ok, s1. split; [reflexivity|]. split; [reflexivity|].
  rewrite (Part001Facts.dfs_simulation clk) in E.
  pose proof (@BacktrackingFacts.engine_dfs_lengths
                W (Part001.undoByCompare engine more) clk _ _ _ _ _ _ E)
    as Hlen.
  pose proof (@BacktrackingStack.engine_dfs_stack
                W (Part001.undoByCompare engine more) clk _ _ _ _ _ _ E)
    as Hst.
  destruct Hlen as [Htr _].
  { reflexivity. }
  { unfold Backtracking.MAX_SEARCH_FRAMES. lia. }
  { simpl. repeat (constructor; [exact I|]). constructor. }
  { simpl. unfold Backtracking.MAX_SEARCH_FRAMES. lia. }
  assert (Hwrap : Forall (pushBounded Part001.MAX_SEARCH_FRAMES)
                         (Backtracking.trace (Part001.wrapUp ok s1)) /\
                  Backtracking.bestSequence (Part001.wrapUp ok s1)
                  = Backtracking.bestSequence s1 /\
                  Backtracking.current (Part001.wrapUp ok s1)
                  = Backtracking.current s1 /\
                  Backtracking.m_lastReplayData (Part001.wrapUp ok s1)
                  = m_replay (stopRecording (Backtracking.pl s1)) /\
                  Backtracking.pl (Part001.wrapUp ok s1)
                  = restoreStateSnapshot
                      (stopRecording (Backtracking.pl s1))).
  { unfold Part001.wrapUp. cbv zeta.
    destruct ok;
      match goal with
      | |- context [negb ?x] => destruct (negb x)
      end;
      simpl; repeat split; repeat (constructor; [exact I|]); exact Htr. }
  destruct Hwrap as [Ht [Hb [Hc [Hr Hp]]]].
  split; [exact Ht|]. rewrite Hb, Hc. split; [|split; [|split]]; auto.
  - destruct ok.
    + destruct Hst as [_ [Hbest _]]. exact Hbest.
    + destruct Hst as [_ Hbest]. exact Hbest.
  - destruct ok; [reflexivity|]. destruct Hst as [Hcur _]. exact Hcur.
Qed.

(** X18.  The last report of a run of part_000 follows the recording, not
    the search.  The run stores the engine's recorded replay text and
    restores the snapshot.  If that text is not empty the label ends on
    "Recording ready to export." and Export writes the text to
    [name_timestamp.gdr], whether or not a run was found; if it is empty
    Export writes nothing, and the label ends on the retrieval failure when
    a run was found and on "No run found" when none was. *)
Theorem backtracking_report_follows_the_recording :
  forall (W : Type) (engine : PlayLayer W) (clk : Clock) (w : W),
  exists (ok : bool) (s1 : Backtracking.Solver W),
    Backtracking.dfs clk Backtracking.dfs_fuel (clk O) 0
                     (snd (Backtracking.clock_now clk
                             (Backtracking.prepare w)))
    = Some (ok, s1) /\
    Backtracking.runSolverAndRecord clk w
    = Some (ok, Backtracking.wrapUp ok s1) /\
    let recorded := getRecordedReplay (stopRecording (Backtracking.pl s1)) in
    Backtracking.m_lastReplayData (Backtracking.wrapUp ok s1) = recorded /\
    Backtracking.pl (Backtracking.wrapUp ok s1)
    = restoreStateSnapshot (stopRecording (Backtracking.pl s1)) /\
    Part000Export.lastStatus
      (Backtracking.trace (Backtracking.wrapUp ok s1))
    = Some (if negb (String.eqb recorded EmptyString)
            then "Recording ready to export."
            else if ok
            then "Run found but replay retrieval failed; try built-in recording APIs."
            else "No run found (timeout or no solution).")%string /\
    forall (levelName : option string) (t : Z),
      Part000Export.onExportClicked
        levelName t
        (Backtracking.m_lastReplayData (Backtracking.wrapUp ok s1))
      = if String.eqb recorded EmptyString then None
        else Some (Randomized.exportNameGdr levelName t, recorded).
Proof.
  intros W engine clk w.
  rewrite BacktrackingFacts.runSolverAndRecord_eq.
  destruct (Backtracking.dfs clk Backtracking.dfs_fuel (clk O) 0 _)
    as [[ok s1]|] eqn:E.
  2: { exfalso. revert E. apply BacktrackingFacts.engine_dfs_total; [lia|].
       unfold Backtracking.dfs_fuel. lia. }
  exists ok, s1. split; [reflexivity|]. split; [reflexivity|].
  cbv zeta. unfold Backtracking.wrapUp, Part000Export.onExportClicked.
  cbv zeta.
  destruct ok; simpl;
    destruct (String.eqb (getRecordedReplay
                            (stopRecording (Backtracking.pl s1)))
                         EmptyString) eqn:Er;
    simpl; rewrite ?Er; repeat split; reflexivity.
Qed.

(** X19.  Without a player object the clicks of a sequence are skipped
    (the null checks of part_000 line 186 and part_002 line 101).  On an
    engine whose updates do not create the player, a trial from a state
    without one ends as the sequence of the same length without clicks
    does, replaying a sequence only steps the engine, and the click of the
    backtracking search changes nothing, not even the trace. *)
Theorem clicks_without_a_player_do_nothing :
  forall (W : Type) (engine : PlayLayer W),
    (forall w : W, m_player1 w = false -> m_player1 (update w) = false) ->
    forall (sq : list FrameInput) (w : W) (f : Z),
      m_player1 w = false ->
      Randomized.simulate f sq w
      = Randomized.simulate f (repeat noClick (List.length sq)) w /\
      replay w sq = Nat.iter (List.length sq) update w /\
      forall s : Backtracking.Solver W,
        Backtracking.pl s = w -> Backtracking.do_click s = s.
Proof.
  intros W engine Hkeep sq.
  induction sq as [|x sq IH]; intros w f Hnone.
  - split; [reflexivity|]. split; [reflexivity|].
    intros s <-. unfold Backtracking.do_click. now rewrite Hnone.
  - assert (Hstep : applyClick (click x) w = w).
    { unfold applyClick. rewrite Hnone. now destruct (click x). }
    destruct (IH (update w) (f + 1) (Hkeep w Hnone)) as [Hsim [Hrep _]].
    split; [|split].
    + cbn [Randomized.simulate List.length repeat click noClick].
      rewrite Hstep. unfold applyClick at 1 2.
      rewrite Hsim. reflexivity.
    + unfold replay. cbn [fold_left]. unfold stepFrame at 2.
      rewrite Hstep. fold (replay (update w) sq). rewrite Hrep.
      cbn [List.length]. symmetry. apply Nat.iter_succ_r.
    + intros s <-. unfold Backtracking.do_click. now rewrite Hnone.
Qed.

(** [clicks_without_a_player_do_nothing] on the five-frame level with no
    player object: clicking on every frame changes nothing. *)
Lemma clicks_without_a_player_do_nothing_witness :
  @Randomized.simulate _ (ToyMore.noPlayer Toy.shortFlat) 0
    [doClick; doClick; doClick] (Toy.fresh Toy.shortFlat true)
  = @Randomized.simulate _ (ToyMore.noPlayer Toy.shortFlat) 0
      [noClick; noClick; noClick] (Toy.fresh Toy.shortFlat true).
Proof.
  exact (proj1 (clicks_without_a_player_do_nothing
                  _ (ToyMore.noPlayer Toy.shortFlat)
                  (fun w _ => eq_refl)
                  [doClick; doClick; doClick]
                  (Toy.fresh Toy.shortFlat true) 0 eq_refl)).
Defined.

(** ** src/src/main.cpp: the modal and the status label *)
Module MainUIFacts.
Import MainUI.

Lemma main_consistent_act (a : Action) (s : Screen) :
  consistent s -> enabled a s = true -> consistent (act a s).
Proof.
  unfold consistent. intros [Hle [Hst Hshow]] Hen.
  destruct a as [| | | |exported]; cbn [act enabled] in *.
  - unfold onEnter. destruct (m_autoMacroButton s); cbn [negb];
      cbn; repeat split; auto.
  - unfold onMacroButton. destruct (m_modalLayer s) as [shown|];
      cbn; repeat split; auto; lia.
  - unfold onModalClose. cbn. repeat split; auto.
  - unfold onModalExport. repeat split; auto.
  - unfold solverFinished. apply Nat.ltb_lt in Hen.
    cbn [finished started modals m_modalLayer m_modalStatusLabel].
    repeat split; auto; lia.
Qed.

Lemma main_consistent_run :
  forall (actions : list Action) (s s' : Screen),
    consistent s -> run actions s = Some s' -> consistent s'.
Proof.
  induction actions as [|a rest IH]; intros s s' Hs Hrun; simpl in Hrun.
  - injection Hrun as <-. exact Hs.
  - destruct (enabled a s) eqn:Hen; [|discriminate].
    apply (IH _ _ (main_consistent_act a s Hs Hen) Hrun).
Qed.

Lemma main_tidy_act (a : Action) (s : Screen) :
  tidy s -> isClickX a = false -> tidy (act a s).
Proof.
  unfold tidy. intros [Hptr Hstale] Hx.
  destruct a as [| | | |exported]; cbn [act] in *; try discriminate.
  - unfold onEnter. destruct (m_autoMacroButton s); cbn [negb];
      cbn; auto.
  - unfold onMacroButton. destruct (m_modalLayer s); cbn; auto.
  - unfold onModalExport. auto.
  - unfold solverFinished.
    cbn [m_modalLayer m_modalStatusLabel staleWrites].
    split; [exact Hptr|]. rewrite Hptr.
    destruct (m_modalLayer s) as [shown|]; [|exact Hstale].
    now rewrite Nat.eqb_refl.
Qed.

Lemma main_tidy_run :
  forall (actions : list Action) (s s' : Screen),
    tidy s -> forallb (fun a => negb (isClickX a)) actions = true ->
    run actions s = Some s' -> tidy s'.
Proof.
  induction actions as [|a rest IH]; intros s s' Hs Hno Hrun;
    simpl in Hrun, Hno.
  - injection Hrun as <-. exact Hs.
  - apply andb_true_iff in Hno. destruct Hno as [Ha Hrest].
    apply negb_true_iff in Ha.
    destruct (enabled a s); [|discriminate].
    apply (IH _ _ (main_tidy_act a s Hs Ha) Hrest Hrun).
Qed.

End MainUIFacts.

(** X21.  The status label pointer of src/src/main.cpp over any history
    of one [PlayLayer].  While a modal is shown the mod's
    [m_modalStatusLabel] points to the label of that modal, and every
    opening of the modal starts a solver thread, whether or not an earlier
    one has finished.  Closing the modal with the M button clears the
    pointer; closing it with X ([onModalClose]) does not: the pointer keeps
    naming the label of the modal that was removed, and the [setString] of
    the next [onSolverFinished] goes to that label.  As long as X is never
    clicked the pointer is null exactly when no modal is shown and no
    label update goes to a removed modal. *)
Theorem status_label_pointer_outlives_the_modal :
  forall (actions : list MainUI.Action) (s : MainUI.Screen),
    MainUI.run actions MainUI.initial = Some s ->
    ((MainUI.finished s <= MainUI.started s)%nat /\
     MainUI.started s = MainUI.modals s /\
     match MainUI.m_modalLayer s with
     | Some shown =>
       MainUI.m_modalStatusLabel s = Some shown /\
       (shown < MainUI.modals s)%nat
     | None => True
     end) /\
    (forallb (fun a => negb (MainUI.isClickX a)) actions = true ->
     MainUI.m_modalStatusLabel s = MainUI.m_modalLayer s /\
     MainUI.staleWrites s = O) /\
    (forall shown : nat,
        MainUI.m_modalLayer s = Some shown ->
        MainUI.m_modalLayer (MainUI.onMacroButton s) = None /\
        MainUI.m_modalStatusLabel (MainUI.onMacroButton s) = None /\
        MainUI.m_modalLayer (MainUI.onModalClose s) = None /\
        MainUI.m_modalStatusLabel (MainUI.onModalClose s) = Some shown /\
        forall exported : bool,
          MainUI.staleWrites
            (MainUI.solverFinished exported (MainUI.onModalClose s))
          = S (MainUI.staleWrites s)).
Proof.
  intros actions s Hrun.
  assert (Hinit : MainUI.consistent MainUI.initial)
    by (unfold MainUI.consistent; simpl; auto).
  pose proof (MainUIFacts.main_consistent_run actions _ _ Hinit Hrun)
    as Hs.
  split; [exact Hs|]. split.
  - intros Hno.
    apply (MainUIFacts.main_tidy_run actions MainUI.initial s);
      [split; reflexivity | exact Hno | exact Hrun].
  - intros shown Hshown.
    destruct Hs as [_ [_ Hptr]]. rewrite Hshown in Hptr.
    destruct Hptr as [Hptr _].
    unfold MainUI.onMacroButton, MainUI.onModalClose, MainUI.solverFinished.
    rewrite Hshown. cbn. rewrite Hptr. repeat split; reflexivity.
Qed.

(** [status_label_pointer_outlives_the_modal] on a history in which the
    modal is opened and closed with X while the solver runs. *)
Lemma status_label_pointer_outlives_the_modal_witness :
  exists s : MainUI.Screen,
    MainUI.run [MainUI.Enter; MainUI.PressM; MainUI.ClickX;
                MainUI.SolverFinishes false]
               MainUI.initial = Some s /\
    MainUI.m_modalLayer s = None /\
    MainUI.m_modalStatusLabel s = Some O /\
    MainUI.staleWrites s = 1%nat /\
    (MainUI.finished s <= MainUI.started s)%nat.
Proof.
  eexists. split; [reflexivity|].
  split; [reflexivity|]. split; [reflexivity|]. split; [reflexivity|].
  exact (proj1 (proj1 (status_label_pointer_outlives_the_modal
                         [MainUI.Enter; MainUI.PressM; MainUI.ClickX;
                          MainUI.SolverFinishes false] _ eq_refl))).
Defined.

(** ** src/unnamed/part_000 on an engine with one snapshot *)
Module SnapshotLawFacts.
Import Backtracking SnapshotLaw BacktrackingFacts.

Section Facts.
Context {W : Type} {engine : PlayLayer W}.
Variable clk : Clock.
Hypothesis Hsnap : singleSnapshot.

Lemma restore_applyClick (b : bool) (w : W) :
  restoreStateSnapshot (applyClick b w) = restoreStateSnapshot w.
Proof.
  destruct Hsnap as [_ [Hb _]]. unfold applyClick.
  destruct b; [|reflexivity]. destruct (m_player1 w); [apply Hb | reflexivity].
Qed.

Lemma pl_do_click (s : Solver W) :
  pl (do_click s) = applyClick true (pl s).
Proof.
  unfold do_click, applyClick. destruct (m_player1 (pl s)); reflexivity.
Qed.

(** Every call of [dfs] leaves the engine in a state with the same
    snapshot; a call that succeeds stopped either after idling from the
    state it was entered in, or after a click made right after a restore
    and idle frames from there. *)
Lemma engine_dfs_single_snapshot :
  forall (fuel : nat) (startTime frame : Z) (s : Solver W) (b : bool)
         (s' : Solver W),
    dfs clk fuel startTime frame s = Some (b, s') ->
    restoreStateSnapshot (pl s') = restoreStateSnapshot (pl s) /\
    (b = true ->
     (exists n : nat,
         pl s' = replay (pl s) (repeat noClick n) /\
         current s' = current s ++ repeat noClick n) \/
     (exists (junk : list FrameInput) (i : nat),
         pl s' = replay (restoreStateSnapshot (pl s))
                        (doClick :: repeat noClick i) /\
         current s' = current s ++ junk ++ doClick :: repeat noClick i)).
Proof.
  destruct Hsnap as [Hu [Hb Hr]].
  induction fuel as [|fuel IH]; intros startTime frame s b s' Hrun;
    [discriminate|].
  rewrite engine_dfs_eq in Hrun. cbv zeta in Hrun.
  change (pl (snd (clock_now clk s))) with (pl s) in Hrun.
  destruct (elapsed_ms _ _ >? _).
  { injection Hrun as <- <-. split; [reflexivity | discriminate]. }
  destruct (frame >=? MAX_SEARCH_FRAMES).
  { injection Hrun as <- <-. split; [reflexivity | discriminate]. }
  destruct (getCurrentPercentInt _ >=? 100).
  { injection Hrun as <- <-. split; [reflexivity|]. intros _. left.
    exists O. split; [reflexivity|]. simpl. now rewrite app_nil_r. }
  destruct (playerDead _).
  { injection Hrun as <- <-. split; [reflexivity | discriminate]. }
  destruct (dfs clk fuel startTime (frame + 1) (cur_push false _))
    as [[b1 s2]|] eqn:E1; [|discriminate].
  pose proof (BacktrackingStack.engine_dfs_stack clk _ _ _ _ _ _ E1) as Hst1.
  apply IH in E1. destruct E1 as [Hsame1 Hfound1].
  change (pl (cur_push false (do_update (snd (clock_now clk s)))))
    with (update (pl s)) in Hsame1, Hfound1.
  change (current (cur_push false (do_update (snd (clock_now clk s)))))
    with (current s ++ [noClick]) in Hfound1, Hst1.
  rewrite Hu in Hsame1, Hfound1.
  destruct b1.
  { injection Hrun as <- <-. split; [exact Hsame1|]. intros _.
    destruct (Hfound1 eq_refl) as [[n [Hp Hc]]|[junk [i [Hp Hc]]]].
    - left. exists (S n). split; [exact Hp|].
      rewrite Hc, <- app_assoc. reflexivity.
    - right. exists (noClick :: junk), i. split; [exact Hp|].
      rewrite Hc, <- app_assoc. reflexivity. }
  destruct Hst1 as [Hcur2 _].
  set (t := cur_push true (do_update (do_click (cur_pop (do_restore s2)))))
    in *.
  assert (Hpl : pl t = stepFrame (restoreStateSnapshot (pl s)) doClick).
  { unfold t. cbn [pl cur_push do_update with_pl].
    rewrite pl_do_click. cbn [pl cur_pop do_restore with_pl].
    rewrite Hsame1. reflexivity. }
  assert (Hct : current t = current s ++ [doClick]).
  { unfold t. cbn [current cur_push do_update with_pl].
    rewrite current_do_click. cbn [current cur_pop do_restore with_pl].
    rewrite Hcur2. unfold pop_back. now rewrite removelast_last. }
  assert (Hrt : restoreStateSnapshot (pl t) = restoreStateSnapshot (pl s)).
  { rewrite Hpl. unfold stepFrame.
    now rewrite Hu, restore_applyClick, Hr. }
  destruct (dfs clk fuel startTime (frame + 1) t)
    as [[b2 s3]|] eqn:E2; [|discriminate].
  apply IH in E2. destruct E2 as [Hsame2 Hfound2].
  rewrite Hrt in Hsame2, Hfound2. rewrite Hct, Hpl in Hfound2.
  destruct b2.
  - injection Hrun as <- <-. split; [exact Hsame2|]. intros _. right.
    destruct (Hfound2 eq_refl) as [[n [Hp Hc]]|[junk [i [Hp Hc]]]].
    + exists [], n. split; [exact Hp|].
      rewrite Hc, <- app_assoc. reflexivity.
    + exists (doClick :: junk), i. split; [exact Hp|].
      rewrite Hc, <- app_assoc. reflexivity.
  - injection Hrun as <- <-.
    cbn [pl cur_pop do_restore with_pl]. rewrite Hr, Hsame2.
    split; [reflexivity | discriminate].
Qed.

End Facts.
End SnapshotLawFacts.

(** The toy engine keeps one snapshot. *)
Lemma slotEngine_singleSnapshot {S : Type} (L : Toy.Level S) :
  @SnapshotLaw.singleSnapshot _ (Toy.slotEngine L).
Proof. repeat split. Qed.

(** X22.  What the backtracking search of part_000 can find on an engine
    that keeps one snapshot, the one [runSolverAndRecord] takes before the
    search.  Every restore inside [dfs] then returns to that snapshot, so a
    run reported as found was completed in one of two ways only: by idle
    frames from the state the search started in, and then [bestSequence]
    is those idle frames; or by one click made right after a restore and
    idle frames after it, and then [bestSequence] ends with that click and
    those idle frames, after a prefix the engine did not play in that run.
    In both cases the level was complete in the state reached. *)
Theorem backtracking_finds_idle_or_one_click_runs :
  forall (W : Type) (engine : PlayLayer W) (clk : Clock) (w : W)
         (s : Backtracking.Solver W),
    SnapshotLaw.singleSnapshot ->
    Backtracking.runSolverAndRecord clk w = Some (true, s) ->
    exists final : W,
      Backtracking.isSuccess final = true /\
      ((exists n : nat,
           final = replay (Backtracking.searchStart w) (repeat noClick n) /\
           Backtracking.bestSequence s = repeat noClick n) \/
       (exists (junk : list FrameInput) (i : nat),
           final = replay (restoreStateSnapshot (Backtracking.searchStart w))
                          (doClick :: repeat noClick i) /\
           Backtracking.bestSequence s
           = junk ++ doClick :: repeat noClick i)).
Proof.
  intros W engine clk w s Hsnap Hrun.
  rewrite BacktrackingFacts.runSolverAndRecord_eq in Hrun.
  destruct (Backtracking.dfs clk Backtracking.dfs_fuel (clk O) 0 _)
    as [[ok s1]|] eqn:E; [|discriminate].
  injection Hrun as -> <-.
  pose proof (BacktrackingStack.engine_dfs_stack clk _ _ _ _ _ _ E)
    as [Hpc [Hbest _]].
  destruct (SnapshotLawFacts.engine_dfs_single_snapshot clk Hsnap
              _ _ _ _ _ _ E) as [_ Hfound].
  change (Backtracking.pl
            (snd (Backtracking.clock_now clk (Backtracking.prepare w))))
    with (Backtracking.searchStart w) in Hfound.
  change (Backtracking.current
            (snd (Backtracking.clock_now clk (Backtracking.prepare w))))
    with (@nil FrameInput) in Hfound.
  assert (Hb : Backtracking.bestSequence (Backtracking.wrapUp true s1)
               = Backtracking.bestSequence s1).
  { unfold Backtracking.wrapUp. cbv zeta.
    match goal with
    | |- context [negb ?x] => destruct (negb x)
    end; reflexivity. }
  exists (Backtracking.pl s1). split.
  - unfold Backtracking.isSuccess. apply Z.geb_le. lia.
  - rewrite Hb, Hbest.
    destruct (Hfound eq_refl) as [[n [Hp Hc]]|[junk [i [Hp Hc]]]].
    + left. exists n. split; [exact Hp | exact Hc].
    + right. exists junk, i. split; [exact Hp | exact Hc].
Qed.

(** [backtracking_finds_idle_or_one_click_runs] on the level
    [Toy.earlyJump]: the run reported is an idle frame the engine did not
    play, then the click and the two idle frames that it did. *)
Lemma backtracking_finds_idle_or_one_click_runs_witness :
  exists (s : Backtracking.Solver (Toy.Slot (Z * option Z)))
         (final : Toy.Slot (Z * option Z)),
    @Backtracking.runSolverAndRecord _ (Toy.slotEngine Toy.earlyJump)
      (Toy.clockEvery 1000) (Toy.fresh Toy.earlyJump true) = Some (true, s) /\
    @Backtracking.isSuccess _ (Toy.slotEngine Toy.earlyJump) final = true /\
    Backtracking.bestSequence s = [noClick; doClick; noClick; noClick].
Proof.
  destruct (@Backtracking.runSolverAndRecord _ (Toy.slotEngine Toy.earlyJump)
              (Toy.clockEvery 1000) (Toy.fresh Toy.earlyJump true))
    as [[ok s]|] eqn:Hrun.
  - assert (Hok : ok = true /\
                  Backtracking.bestSequence s
                  = [noClick; doClick; noClick; noClick]).
    { assert (E : option_map
                    (fun r : bool * Backtracking.Solver _ =>
                       (fst r, Backtracking.bestSequence (snd r)))
                    (@Backtracking.runSolverAndRecord
                       _ (Toy.slotEngine Toy.earlyJump)
                       (Toy.clockEvery 1000) (Toy.fresh Toy.earlyJump true))
                  = Some (true, [noClick; doClick; noClick; noClick]))
        by (vm_compute; reflexivity).
      rewrite Hrun in E. simpl in E. injection E as E1 E2. now split. }
    destruct Hok as [-> Hbest].
    destruct (backtracking_finds_idle_or_one_click_runs
                _ (Toy.slotEngine Toy.earlyJump) (Toy.clockEvery 1000)
                (Toy.fresh Toy.earlyJump true) s
                (slotEngine_singleSnapshot Toy.earlyJump) Hrun)
      as [final [Hsucc _]].
    exists s, final. split; [reflexivity|]. split; [exact Hsucc | exact Hbest].
  - exfalso. exact (BacktrackingFacts.runSolverAndRecord_total _ _ Hrun).
Defined.

(** ** src/unnamed/part_000: the first descent *)
Module IdleDescent.
Import Backtracking BacktrackingFacts.

Section Facts.
Context {W : Type} {engine : PlayLayer W}.
Variable clk : Clock.

(** From a state from which [n] idle frames complete the level, with the
    clock within the timeout for the next [n + 1] readings and the cap not
    reached, [dfs] succeeds along "no click" only. *)
Lemma dfs_idles :
  forall (n fuel : nat) (startTime frame : Z) (s : Solver W),
    0 <= frame ->
    frame + Z.of_nat n < MAX_SEARCH_FRAMES ->
    (n < fuel)%nat ->
    (forall k : nat, (k <= n)%nat ->
        elapsed_ms (clk (reads s + k)%nat) startTime <= TIMEOUT_MS) ->
    (forall k : nat, (k < n)%nat ->
        isSuccess (replay (pl s) (repeat noClick k)) = false /\
        isFailure (replay (pl s) (repeat noClick k)) = false) ->
    isSuccess (replay (pl s) (repeat noClick n)) = true ->
    exists s' : Solver W,
      dfs clk fuel startTime frame s = Some (true, s') /\
      bestSequence s' = current s ++ repeat noClick n /\
      pl s' = replay (pl s) (repeat noClick n).
Proof.
  induction n as [|n IH];
    intros fuel startTime frame s Hfr Hcap Hfuel Hclk Hbefore Hdone;
    (destruct fuel as [|fuel]; [lia|]); rewrite engine_dfs_eq; cbv zeta;
    (assert (Hnow : (elapsed_ms (clk (reads s)) startTime >? TIMEOUT_MS)
                    = false)
       by (pose proof (Hclk O ltac:(lia)) as H0;
           rewrite Nat.add_0_r in H0; lia));
    (assert (Hmax : (frame >=? MAX_SEARCH_FRAMES) = false) by lia);
    rewrite Hnow, Hmax;
    change (pl (snd (clock_now clk s))) with (pl s).
  - unfold isSuccess in Hdone. cbn [repeat replay fold_left] in Hdone.
    rewrite Hdone. eexists. split; [reflexivity|].
    split; [|reflexivity]. simpl. now rewrite app_nil_r.
  - destruct (Hbefore O ltac:(lia)) as [Hs Hf].
    unfold isSuccess, isFailure in Hs, Hf.
    cbn [repeat replay fold_left] in Hs, Hf. rewrite Hs, Hf.
    destruct (IH fuel startTime (frame + 1)
                 (cur_push false (do_update (snd (clock_now clk s)))))
      as [s' [Hrun [Hbest Hpl]]]; try lia.
    + intros k Hk. cbn [reads cur_push do_update with_pl clock_now snd].
      replace (S (reads s) + k)%nat with (reads s + S k)%nat by lia.
      apply Hclk. lia.
    + intros k Hk. exact (Hbefore (S k) ltac:(lia)).
    + exact Hdone.
    + rewrite Hrun. exists s'. split; [reflexivity|].
      split; [|exact Hpl].
      rewrite Hbest. cbn [current cur_push do_update with_pl clock_now snd].
      unfold push_back. rewrite <- app_assoc. reflexivity.
Qed.

End Facts.
End IdleDescent.

(** X23.  What the backtracking search of part_000 does find.  When [n]
    idle frames from the state the search starts in complete the level,
    with no completion and no destroyed falling player before, [n] below
    the frame cap, and the first [n + 1] clock readings of the search
    within the timeout, the run reports "found" with exactly those [n] idle
    frames. *)
Theorem backtracking_finds_the_idle_run :
  forall (W : Type) (engine : PlayLayer W) (clk : Clock) (w : W) (n : nat),
    Z.of_nat n < Backtracking.MAX_SEARCH_FRAMES ->
    (forall k : nat, (1 <= k <= n + 1)%nat ->
        elapsed_ms (clk k) (clk O) <= Backtracking.TIMEOUT_MS) ->
    (forall k : nat, (k < n)%nat ->
        Backtracking.isSuccess
          (replay (Backtracking.searchStart w) (repeat noClick k)) = false /\
        Backtracking.isFailure
          (replay (Backtracking.searchStart w) (repeat noClick k)) = false) ->
    Backtracking.isSuccess
      (replay (Backtracking.searchStart w) (repeat noClick n)) = true ->
    exists s : Backtracking.Solver W,
      Backtracking.runSolverAndRecord clk w = Some (true, s) /\
      Backtracking.bestSequence s = repeat noClick n.
Proof.
  intros W engine clk w n Hcap Hclk Hbefore Hdone.
  rewrite BacktrackingFacts.runSolverAndRecord_eq.
  destruct (IdleDescent.dfs_idles clk n Backtracking.dfs_fuel (clk O) 0
              (snd (Backtracking.clock_now clk (Backtracking.prepare w))))
    as [s' [Hrun [Hbest _]]]; try lia.
  - unfold Backtracking.dfs_fuel, Backtracking.MAX_SEARCH_FRAMES in *. lia.
  - intros k Hk. apply Hclk.
    cbn [Backtracking.reads Backtracking.clock_now Backtracking.prepare
         Backtracking.updateStatus Backtracking.with_pl snd]. lia.
  - exact Hbefore.
  - exact Hdone.
  - rewrite Hrun. exists (Backtracking.wrapUp true s').
    split; [reflexivity|].
    assert (Hb : Backtracking.bestSequence (Backtracking.wrapUp true s')
                 = Backtracking.bestSequence s').
    { unfold Backtracking.wrapUp. cbv zeta.
      match goal with
      | |- context [negb ?x] => destruct (negb x)
      end; reflexivity. }
    rewrite Hb, Hbest. reflexivity.
Qed.

(** [backtracking_finds_the_idle_run] on the five-frame level. *)
Lemma backtracking_finds_the_idle_run_witness :
  exists s : Backtracking.Solver (Toy.Slot Z),
    @Backtracking.runSolverAndRecord _ (Toy.slotEngine Toy.shortFlat)
      (Toy.clockEvery 1000) (Toy.fresh Toy.shortFlat true) = Some (true, s) /\
    Backtracking.bestSequence s = repeat noClick 5.
Proof.
  apply (backtracking_finds_the_idle_run
           _ (Toy.slotEngine Toy.shortFlat) (Toy.clockEvery 1000)
           (Toy.fresh Toy.shortFlat true) 5).
  - reflexivity.
  - intros k Hk.
    unfold Toy.clockEvery, elapsed_ms, ns_per_ms, Backtracking.TIMEOUT_MS.
    apply Z.quot_le_upper_bound; lia.
  - intros k Hk.
    destruct k as [|[|[|[|[|k]]]]]; try lia; split; reflexivity.
  - reflexivity.
Defined.
